(** * RLE core engine (lab/monitoring/rle_core.py): model and properties

    The engine is a Python class, [RLECore], whose method [compute_rle]
    folds one telemetry sample into the object's rolling histories and
    returns an [RLEResult] record.  Python floats are IEEE binary64 numbers,
    modelled by Rocq's primitive floats; Python ints are [Z]; the object's
    mutable attributes are a record threaded through a state-and-exception
    monad; an operation that raises in Python returns [Raise] here. *)

From Stdlib Require Import ZArith List Bool Lia String Floats.
Import ListNotations.

Set Warnings "-inexact-float".

Local Open Scope Z_scope.

(** ** Python values *)

(** The exceptions the arithmetic of the engine can raise. *)
Inductive exn : Type :=
| ZeroDivisionError
| ValueError
| OverflowError
| TypeError
| StatisticsError.

Inductive result (A : Type) : Type :=
| Ok (a : A)
| Raise (e : exn).
Arguments Ok {A} a.
Arguments Raise {A} e.

Definition rbind {A B : Type} (r : result A) (f : A -> result B) : result B :=
  match r with
  | Ok a => f a
  | Raise e => Raise e
  end.

(** [max(a, b)] and [min(a, b)] on floats: the first argument is kept
    unless the second compares strictly greater (smaller).  A NaN in first
    position is therefore returned, a NaN in second position ignored. *)
Definition py_max (a b : float) : float := if (a <? b)%float then b else a.
Definition py_min (a b : float) : float := if (b <? a)%float then b else a.

(** Truth value of a float: false for [0.0] and [-0.0] only. *)
Definition truthy (x : float) : bool := negb (x =? 0)%float.

(** Float division; the only float operator of the engine that raises. *)
Definition fdiv (x y : float) : result float :=
  if (y =? 0)%float then Raise ZeroDivisionError else Ok (x / y)%float.

(** [float(n)] for an int [n] (correctly rounded; exact below 2^53).
    Python raises [OverflowError] for an int beyond the binary64 range,
    where this function gives an infinity: the engine converts list
    lengths and lag counts only, and a statement about an arbitrary int
    bounds it. *)
Definition Z2float (z : Z) : float :=
  SF2Prim (binary_normalize prec emax z 0 false).

(** [int(x)]: truncation towards zero; NaN and the infinities raise. *)
Definition py_int (x : float) : result Z :=
  match Prim2SF x with
  | S754_nan => Raise ValueError
  | S754_infinity _ => Raise OverflowError
  | S754_zero _ => Ok 0
  | S754_finite s m e =>
      let a := Z.shiftl (Zpos m) e in
      Ok (if s then - a else a)
  end.

(** [round(x)]: nearest int, ties to even; NaN and the infinities raise. *)
Definition py_round (x : float) : result Z :=
  match Prim2SF x with
  | S754_nan => Raise ValueError
  | S754_infinity _ => Raise OverflowError
  | S754_zero _ => Ok 0
  | S754_finite s m e =>
      let a :=
        if 0 <=? e then Z.shiftl (Zpos m) e
        else
          let d := Z.shiftl 1 (- e) in
          let q := Zpos m / d in
          match (2 * (Zpos m mod d) ?= d) with
          | Lt => q
          | Gt => q + 1
          | Eq => if Z.even q then q else q + 1
          end in
      Ok (if s then - a else a)
  end.

(** [sum(xs)] over floats: left-to-right addition from 0. *)
Definition py_sum (xs : list float) : float :=
  fold_left PrimFloat.add xs 0%float.

Definition len {A : Type} (l : list A) : Z := Z.of_nat (List.length l).

(** [l[i:]] with Python's treatment of negative and out-of-range [i]. *)
Definition slice_from {A : Type} (i : Z) (l : list A) : list A :=
  let start := if i <? 0 then Z.max 0 (len l + i) else Z.min i (len l) in
  skipn (Z.to_nat start) l.

(** [l[-1]] on a list known to be non-empty at the call site. *)
Definition last_elt (l : list float) : float := last l 0%float.

(** [l[-2]] on a list known to hold two elements at the call site. *)
Definition last_but_one (l : list float) : float :=
  last (removelast l) 0%float.

(** [sorted(xs)]: stable insertion by [<]; on lists without NaN this is the
    ascending order Python's sort produces. *)
Fixpoint insert_sorted (x : float) (l : list float) : list float :=
  match l with
  | [] => [x]
  | y :: l' => if (x <? y)%float then x :: l else y :: insert_sorted x l'
  end.

Definition py_sorted (xs : list float) : list float :=
  fold_left (fun acc x => insert_sorted x acc) xs [].

(** [range(a, b)] *)
Definition py_range (a b : Z) : list Z :=
  map (fun i => a + Z.of_nat i) (seq 0 (Z.to_nat (b - a))).

(** ** Data classes *)

Module RLEResult.
Record t : Type := mk {
  rle_raw : float;
  rle_smoothed : float;
  e_th : float;
  e_pw : float;
  rle_norm : float;
  stability : float;
  a_load : float;
  t_sustain_s : float;
  rolling_peak : float;
  collapse : Z;
  alerts : string;
  F_mu : float;
  F_q : float;
  F_s : float;
  F_p : float;
  rle_raw_ms : float;
  rle_smoothed_ms : float;
  rle_norm_ms : float;
  rle_raw_uni : float;
  rle_smoothed_uni : float;
  rle_norm_uni : float;
  T0_s : float;
  theta_index : float;
  T_sustain_hat : float;
  theta_gap : Z;
  Gamma : float;
  log_Gamma : float
}.
End RLEResult.

Module ControlDecision.
Record t : Type := mk {
  state : string;
  cpu_freq_limit_ghz : option float;
  gpu_freq_limit_ghz : option float;
  fan_speed_pct : option Z;
  power_limit_pct : option Z;
  workload_reduction_pct : option Z
}.
End ControlDecision.

(** ** The engine object

    The attributes [__init__] derives from its arguments and never writes
    again form [Config]; the attributes the methods mutate form [State]. *)

Record Config : Type := mkConfig {
  rated_power_w : float;
  temp_limit_c : float;
  max_t_sustain_s : float;
  smooth_n : Z;
  rolling_decay : float;
  drop_frac : float;
  hysteresis_s : Z;
  util_gate_pct : float;
  a_load_gate : float;
  enable_micro_scale : bool;
  sensor_temp_lsb_c : float;
  low_power_knee_w : float;
  enable_theta_clock : bool;
  theta_update_sec : float;
  theta_min_s : float;
  theta_max_s : float;
  use_theta_windows : bool;
  stability_window_theta : float;
  smooth_window_theta : option float;
  hysteresis_theta : option float;
  _rb_len : Z
}.

Record State : Type := mkState {
  util_hist : list float;
  temp_hist : list float;
  rle_hist : list float;
  rle_hist_ms : list float;
  rle_hist_uni : list float;
  rolling_peak : float;
  below_ctr : Z;
  _t0_s : float;
  _theta_index : float;
  _theta_c : float;
  _since_theta_update_s : float;
  _buf_rle_sm : list float;
  _buf_temp : list float;
  _buf_dt : list float
}.

(** The keyword defaults of [RLECore.__init__]. *)
Definition default_args : Config :=
  {| rated_power_w := 100; temp_limit_c := 85; max_t_sustain_s := 600;
     smooth_n := 5;
     rolling_decay := 0.998; drop_frac := 0.65; hysteresis_s := 7;
     util_gate_pct := 60; a_load_gate := 0.75;
     enable_micro_scale := false; sensor_temp_lsb_c := 0.1;
     low_power_knee_w := 3;
     enable_theta_clock := true; theta_update_sec := 60;
     theta_min_s := 5; theta_max_s := 600;
     use_theta_windows := false; stability_window_theta := 5;
     smooth_window_theta := None; hysteresis_theta := None;
     _rb_len := 1024 |}.

(** [RLECore.__init__]: the stored configuration (some arguments are
    floored) and the initial mutable attributes.  The [_rb_len] of the
    argument record is ignored: the attribute is always 1024. *)
Definition init_config (args : Config) : Config :=
  let tmin := py_max 1e-3 (theta_min_s args) in
  {| rated_power_w := rated_power_w args;
     temp_limit_c := temp_limit_c args;
     max_t_sustain_s := max_t_sustain_s args;
     smooth_n := Z.max 1 (smooth_n args);
     rolling_decay := rolling_decay args;
     drop_frac := drop_frac args;
     hysteresis_s := hysteresis_s args;
     util_gate_pct := util_gate_pct args;
     a_load_gate := a_load_gate args;
     enable_micro_scale := enable_micro_scale args;
     sensor_temp_lsb_c := sensor_temp_lsb_c args;
     low_power_knee_w := low_power_knee_w args;
     enable_theta_clock := enable_theta_clock args;
     theta_update_sec := py_max 5 (theta_update_sec args);
     theta_min_s := tmin;
     theta_max_s := py_max tmin (theta_max_s args);
     use_theta_windows := use_theta_windows args;
     stability_window_theta := stability_window_theta args;
     smooth_window_theta := smooth_window_theta args;
     hysteresis_theta := hysteresis_theta args;
     _rb_len := 1024 |}.

Definition init_state : State :=
  {| util_hist := []; temp_hist := []; rle_hist := [];
     rle_hist_ms := []; rle_hist_uni := [];
     rolling_peak := 0; below_ctr := 0;
     _t0_s := 60; _theta_index := 0; _theta_c := 0;
     _since_theta_update_s := 0;
     _buf_rle_sm := []; _buf_temp := []; _buf_dt := [] |}.

(** Attribute assignments. *)
Definition set_util_hist (v : list float) (s : State) : State :=
  mkState v (temp_hist s) (rle_hist s) (rle_hist_ms s) (rle_hist_uni s) (rolling_peak s) (below_ctr s) (_t0_s s) (_theta_index s) (_theta_c s) (_since_theta_update_s s) (_buf_rle_sm s) (_buf_temp s) (_buf_dt s).
Definition set_temp_hist (v : list float) (s : State) : State :=
  mkState (util_hist s) v (rle_hist s) (rle_hist_ms s) (rle_hist_uni s) (rolling_peak s) (below_ctr s) (_t0_s s) (_theta_index s) (_theta_c s) (_since_theta_update_s s) (_buf_rle_sm s) (_buf_temp s) (_buf_dt s).
Definition set_rle_hist (v : list float) (s : State) : State :=
  mkState (util_hist s) (temp_hist s) v (rle_hist_ms s) (rle_hist_uni s) (rolling_peak s) (below_ctr s) (_t0_s s) (_theta_index s) (_theta_c s) (_since_theta_update_s s) (_buf_rle_sm s) (_buf_temp s) (_buf_dt s).
Definition set_rle_hist_ms (v : list float) (s : State) : State :=
  mkState (util_hist s) (temp_hist s) (rle_hist s) v (rle_hist_uni s) (rolling_peak s) (below_ctr s) (_t0_s s) (_theta_index s) (_theta_c s) (_since_theta_update_s s) (_buf_rle_sm s) (_buf_temp s) (_buf_dt s).
Definition set_rle_hist_uni (v : list float) (s : State) : State :=
  mkState (util_hist s) (temp_hist s) (rle_hist s) (rle_hist_ms s) v (rolling_peak s) (below_ctr s) (_t0_s s) (_theta_index s) (_theta_c s) (_since_theta_update_s s) (_buf_rle_sm s) (_buf_temp s) (_buf_dt s).
Definition set_rolling_peak (v : float) (s : State) : State :=
  mkState (util_hist s) (temp_hist s) (rle_hist s) (rle_hist_ms s) (rle_hist_uni s) v (below_ctr s) (_t0_s s) (_theta_index s) (_theta_c s) (_since_theta_update_s s) (_buf_rle_sm s) (_buf_temp s) (_buf_dt s).
Definition set_below_ctr (v : Z) (s : State) : State :=
  mkState (util_hist s) (temp_hist s) (rle_hist s) (rle_hist_ms s) (rle_hist_uni s) (rolling_peak s) v (_t0_s s) (_theta_index s) (_theta_c s) (_since_theta_update_s s) (_buf_rle_sm s) (_buf_temp s) (_buf_dt s).
Definition set_t0_s (v : float) (s : State) : State :=
  mkState (util_hist s) (temp_hist s) (rle_hist s) (rle_hist_ms s) (rle_hist_uni s) (rolling_peak s) (below_ctr s) v (_theta_index s) (_theta_c s) (_since_theta_update_s s) (_buf_rle_sm s) (_buf_temp s) (_buf_dt s).
Definition set_theta_index (v : float) (s : State) : State :=
  mkState (util_hist s) (temp_hist s) (rle_hist s) (rle_hist_ms s) (rle_hist_uni s) (rolling_peak s) (below_ctr s) (_t0_s s) v (_theta_c s) (_since_theta_update_s s) (_buf_rle_sm s) (_buf_temp s) (_buf_dt s).
Definition set_theta_c (v : float) (s : State) : State :=
  mkState (util_hist s) (temp_hist s) (rle_hist s) (rle_hist_ms s) (rle_hist_uni s) (rolling_peak s) (below_ctr s) (_t0_s s) (_theta_index s) v (_since_theta_update_s s) (_buf_rle_sm s) (_buf_temp s) (_buf_dt s).
Definition set_since_theta_update_s (v : float) (s : State) : State :=
  mkState (util_hist s) (temp_hist s) (rle_hist s) (rle_hist_ms s) (rle_hist_uni s) (rolling_peak s) (below_ctr s) (_t0_s s) (_theta_index s) (_theta_c s) v (_buf_rle_sm s) (_buf_temp s) (_buf_dt s).
Definition set_buf_rle_sm (v : list float) (s : State) : State :=
  mkState (util_hist s) (temp_hist s) (rle_hist s) (rle_hist_ms s) (rle_hist_uni s) (rolling_peak s) (below_ctr s) (_t0_s s) (_theta_index s) (_theta_c s) (_since_theta_update_s s) v (_buf_temp s) (_buf_dt s).
Definition set_buf_temp (v : list float) (s : State) : State :=
  mkState (util_hist s) (temp_hist s) (rle_hist s) (rle_hist_ms s) (rle_hist_uni s) (rolling_peak s) (below_ctr s) (_t0_s s) (_theta_index s) (_theta_c s) (_since_theta_update_s s) (_buf_rle_sm s) v (_buf_dt s).
Definition set_buf_dt (v : list float) (s : State) : State :=
  mkState (util_hist s) (temp_hist s) (rle_hist s) (rle_hist_ms s) (rle_hist_uni s) (rolling_peak s) (below_ctr s) (_t0_s s) (_theta_index s) (_theta_c s) (_since_theta_update_s s) (_buf_rle_sm s) (_buf_temp s) v.

(** ** The method monad: attribute state plus exceptions *)

Definition M (A : Type) : Type := State -> result (A * State).

Definition ret {A : Type} (a : A) : M A := fun s => Ok (a, s).

Definition bind {A B : Type} (m : M A) (f : A -> M B) : M B :=
  fun s =>
    match m s with
    | Ok (a, s') => f a s'
    | Raise e => Raise e
    end.

Definition lift {A : Type} (r : result A) : M A :=
  fun s =>
    match r with
    | Ok a => Ok (a, s)
    | Raise e => Raise e
    end.

Definition get : M State := fun s => Ok (s, s).

Definition modify (f : State -> State) : M unit := fun s => Ok (tt, f s).

Declare Scope py_scope.
Delimit Scope py_scope with py.
Notation "x <- m ;; k" := (bind m (fun x => k))
  (at level 61, m at next level, right associativity) : py_scope.
Notation "m ;;; k" := (bind m (fun _ => k))
  (at level 61, right associativity) : py_scope.
Notation "x <~ r ;; k" := (rbind r (fun x => k))
  (at level 61, r at next level, right associativity) : py_scope.
Local Open Scope py_scope.

(** Appending to a ring buffer: [buf.append(x)], then [buf.pop(0)] when
    the length exceeds the capacity. *)
Definition append_capped (cap : Z) (buf : list float) (x : float) : list float :=
  let b := buf ++ [x] in
  if len b >? cap then tl b else b.

(** [x or 0.0] for an optional float. *)
Definition or_zero (x : option float) : float :=
  match x with
  | Some v => if truthy v then v else 0%float
  | None => 0%float
  end.

(** Truth value of an optional float: [None] and zero are false. *)
Definition truthy_opt (x : option float) : bool :=
  match x with
  | Some v => truthy v
  | None => false
  end.

Fixpoint mapM {A B : Type} (f : A -> result B) (l : list A) : result (list B) :=
  match l with
  | [] => Ok []
  | a :: l' => b <~ f a ;; bs <~ mapM f l' ;; Ok (b :: bs)
  end.

Fixpoint foldM {A B : Type} (f : B -> A -> result B) (l : list A) (b : B) : result B :=
  match l with
  | [] => Ok b
  | a :: l' => b' <~ f b a ;; foldM f l' b'
  end.

(** ** The methods of [RLECore] *)

(** Library functions the engine calls and this development does not
    define: [statistics.pstdev], the float power operator and [math.exp],
    [math.log].  Each may raise.  A power with a negative base and a
    fractional exponent is a complex number in Python; both call sites hand
    the power straight to [min]/[max], which raise [TypeError] on it, so
    that case is a [Raise] of [py_pow]. *)
Class PyLib : Type := {
  pstdev : list float -> result float;
  py_pow : float -> float -> result float;
  math_exp : float -> result float;
  math_log : float -> result float
}.

Section Engine.

Context {lib : PyLib}.

Definition _mean_dt (self : State) : result float :=
  match _buf_dt self with
  | [] => Ok 1%float
  | _ => fdiv (py_sum (_buf_dt self)) (Z2float (len (_buf_dt self)))
  end.

Definition _theta_window_to_n (cfg : Config) (self : State)
    (theta_window : float) : result Z :=
  dt_mean <~ _mean_dt self ;;
  dtheta_mean <~ fdiv dt_mean (py_max (_t0_s self) 1e-6) ;;
  q <~ fdiv theta_window (py_max dtheta_mean 1e-6) ;;
  n0 <~ py_round q ;;
  let n := Z.max 3 n0 in
  q' <~ fdiv (theta_update_sec cfg) (py_max dt_mean 1e-6) ;;
  samples_in_update <~ py_round q' ;;
  let cap := Z.max 12 (4 * samples_in_update) in
  Ok (Z.min n cap).

Definition _rolling_mean (data : list float) (n : Z) : result float :=
  match data with
  | [] => Ok 0%float
  | _ =>
      if len data <=? n then fdiv (py_sum data) (Z2float (len data))
      else fdiv (py_sum (slice_from (- n) data)) (Z2float n)
  end.

Definition _rolling_stdev (data : list float) (n : Z) : result float :=
  if len data <? 2 then Ok 0%float
  else pstdev (if len data >=? n then slice_from (- n) data else data).

(** Returns [(F_mu, F_q, F_s, F_p, Gamma, log_Gamma)]. *)
Definition _compute_micro_scale_factor (cfg : Config) (self : State)
    (power_w temp_c : option float) (dt_s dtheta T0_s : float)
    : result (float * float * float * float * float * float) :=
  if negb (enable_micro_scale cfg) then
    Ok (1, 1, 1, 1, 0, 0)%float
  else
    let k_B := 1.380649e-23%float in
    let T_c :=
      match temp_c with
      | Some t => t
      | None =>
          match temp_hist self with
          | [] => 25%float
          | _ => last_elt (temp_hist self)
          end
      end in
    let T_K := py_max (T_c + 273.15) 273.15 in
    let P := py_max (or_zero power_w) 1e-6 in
    let quantum_scale_J := (k_B * T_K)%float in
    Gamma <~ fdiv (P * py_max T0_s 1e-9) (py_max quantum_scale_J 1e-30) ;;
    let N_q := (Gamma * py_max dtheta 0)%float in
    ex <~ math_exp (- py_min N_q 50)%float ;;
    let F_q := (1 - ex)%float in
    sigma_T <~ (if len (temp_hist self) >=? 2
                then _rolling_stdev (temp_hist self) 5
                else Ok 1e-6%float) ;;
    ratio <~ fdiv (sensor_temp_lsb_c cfg) (py_max sigma_T 1e-6) ;;
    sq <~ py_pow ratio 2 ;;
    F_s <~ fdiv 1 (1 + sq) ;;
    F_p <~ fdiv P (P + low_power_knee_w cfg) ;;
    F_mu0 <~ py_pow (F_q * F_s * F_p) (1 / 3) ;;
    let F_mu := py_max 1e-9 (py_min 1 F_mu0) in
    log_Gamma <~ (if (0 <? Gamma)%float
                  then math_log (py_max Gamma 1e-30)
                  else Ok (-1e9)%float) ;;
    Ok (F_mu, F_q, F_s, F_p, Gamma, log_Gamma).

(** The nested helper of [_theta_update_if_needed]. *)
Definition _harmonic_mean (a b : option float) : result (option float) :=
  match a, b with
  | Some x, Some y =>
      if truthy x && truthy y && (0 <? x)%float && (0 <? y)%float
      then h <~ fdiv (2 * x * y) (x + y) ;; Ok (Some h)
      else Ok (if truthy x then a else b)
  | _, _ => Ok (if truthy_opt a then a else b)
  end.

(** The last lines of [_theta_update_if_needed]: clamp the candidate
    ([clamp_period]), smooth it against the current period, and limit the
    change. *)
Definition clamp_period (cfg : Config) (T0_candidate : float) : float :=
  py_min (py_max T0_candidate (theta_min_s cfg)) (theta_max_s cfg).

Definition t0_next (cfg : Config) (t0 T0_candidate : float) : float :=
  let cand := clamp_period cfg T0_candidate in
  let alpha := 0.2%float in
  let ema := ((1 - alpha) * t0 + alpha * cand)%float in
  let up := (t0 * 1.10)%float in
  let down := (t0 * 0.90)%float in
  py_min (py_max ema down) up.

(** One iteration of the lag loop of the autocorrelation search. *)
Definition autocorr_step (series : list float) (mean : float)
    (best : option Z * float) (k : Z) : result (option Z * float) :=
  let num := py_sum (map (fun p => ((fst p - mean) * (snd p - mean))%float)
                         (combine (skipn (Z.to_nat k) series) series)) in
  let den := py_max (py_sum (map (fun x => ((x - mean) * (x - mean))%float) series))
                    1e-12 in
  r <~ fdiv num den ;;
  Ok (if (snd best <? r)%float then (Some k, r) else best).

(** The re-estimation of [_theta_update_if_needed], from the estimate of
    the dt window statistics on: the new internal period. *)
Definition reestimate_t0 (cfg : Config) (self : State) : result float :=
  dt_mean <~ fdiv (py_sum (_buf_dt self)) (Z2float (len (_buf_dt self))) ;;
  let dt_win_s := (dt_mean * Z2float (Z.min (len (_buf_dt self)) 256))%float in
  tau_th_est <~
    (if len (_buf_temp self) >=? 8 then
       let window := slice_from (- Z.min (len (_buf_temp self)) 256) (_buf_temp self) in
       derivs <~ mapM (fun p =>
                         d <~ fdiv (fst p - snd p) (py_max dt_mean 1e-6) ;;
                         Ok (py_max d 0))
                      (combine (tl window) window) ;;
       avg_dTdt <~ fdiv (py_sum derivs) (Z2float (Z.max (len derivs) 1)) ;;
       if (1e-6 <? avg_dTdt)%float then
         rc <~ fdiv 10 avg_dTdt ;;
         Ok (Some (py_min (py_max rc (theta_min_s cfg)) (theta_max_s cfg)))
       else Ok None
     else Ok None) ;;
  let tau_sus_est : option float := None in
  tau_eff <~ _harmonic_mean tau_th_est tau_sus_est ;;
  T_peak <~
    (if len (_buf_rle_sm self) >=? 32 then
       let series := slice_from (- Z.min (len (_buf_rle_sm self)) 512) (_buf_rle_sm self) in
       let n := len series in
       mean <~ fdiv (py_sum series) (Z2float n) ;;
       var <~ fdiv (py_sum (map (fun x => ((x - mean) * (x - mean))%float) series))
                   (Z2float (Z.max n 1)) ;;
       if (0 <? var)%float then
         let min_lag_sec0 := (2 * dt_win_s)%float in
         let min_lag_sec :=
           match tau_th_est with
           | Some t => if truthy t then py_max min_lag_sec0 (1.5 * t) else min_lag_sec0
           | None => min_lag_sec0
           end in
         q <~ fdiv min_lag_sec (py_max dt_mean 1e-6) ;;
         i <~ py_int q ;;
         let min_lag := Z.max 1 i in
         let max_k := Z.min (n / 2) 256 in
         best <~ foldM (autocorr_step series mean) (py_range min_lag max_k)
                       (None, 0%float) ;;
         match fst best with
         | Some best_k =>
             if (0.3 <=? snd best)%float
             then Ok (Some (Z2float best_k * dt_mean)%float)
             else Ok None
         | None => Ok None
         end
       else Ok None
     else Ok None) ;;
  let T_peak' := match T_peak with None => tau_eff | Some _ => T_peak end in
  T0_candidate <~
    match tau_eff with
    | None => Ok T_peak'
    | Some te =>
        match T_peak' with
        | Some tp => r <~ py_pow (tp * te) 0.5 ;; Ok (Some r)
        | None => Ok tau_eff
        end
    end ;;
  let c := match T0_candidate with None => _t0_s self | Some c => c end in
  Ok (t0_next cfg (_t0_s self) c).

Definition _theta_update_if_needed (cfg : Config) (rle_sm : float)
    (temp_c : option float) (dt_s : float) : M unit :=
  if negb (enable_theta_clock cfg) then
    modify (fun s => set_buf_dt (append_capped (_rb_len cfg) (_buf_dt s) dt_s) s)
  else
    modify (fun s => set_buf_rle_sm (append_capped (_rb_len cfg) (_buf_rle_sm s) rle_sm) s) ;;;
    match temp_c with
    | Some t => modify (fun s => set_buf_temp (append_capped (_rb_len cfg) (_buf_temp s) t) s)
    | None => ret tt
    end ;;;
    modify (fun s => set_buf_dt (append_capped (_rb_len cfg) (_buf_dt s) dt_s) s) ;;;
    modify (fun s => set_since_theta_update_s (_since_theta_update_s s + dt_s) s) ;;;
    s <- get ;;
    if (_since_theta_update_s s <? theta_update_sec cfg)%float then ret tt
    else
      modify (set_since_theta_update_s 0) ;;;
      s' <- get ;;
      match _buf_dt s' with
      | [] => ret tt
      | _ => t0 <- lift (reestimate_t0 cfg s') ;; modify (set_t0_s t0)
      end.

Definition compute_t_sustain (temp_limit_c : float) (temp_hist : list float)
    (dt_s max_t : float) : result float :=
  if len temp_hist <? 2 then Ok max_t
  else
    let dT := (last_elt temp_hist - last_but_one temp_hist)%float in
    q <~ fdiv dT (py_max dt_s 1e-3) ;;
    let dTdt := py_max q 1e-3 in
    t_sustain <~ fdiv (temp_limit_c - last_elt temp_hist) dTdt ;;
    Ok (py_max (py_min t_sustain max_t) 1).

(** Whether the theta-window override of a window length applies. *)
Definition theta_window_on (cfg : Config) (w : option float) : bool :=
  enable_theta_clock cfg && use_theta_windows cfg && truthy_opt w
  && match w with Some x => (0 <? x)%float | None => false end.

(** Returns [(eta, stability, a_load, t_sustain)]. *)
Definition compute_components (cfg : Config) (util_pct : float)
    (temp_c power_w : option float) (dt_s : float)
    : M (float * float * float * float) :=
  modify (fun s => set_util_hist (util_hist s ++ [py_max 0 (py_min 100 util_pct)]) s) ;;;
  match temp_c with
  | Some t => modify (fun s => set_temp_hist (temp_hist s ++ [t]) s)
  | None => ret tt
  end ;;;
  self <- get ;;
  let eta :=
    match util_hist self with
    | [] => 0%float
    | _ => (last_elt (util_hist self) / 100)%float
    end in
  n_stab <- lift (if theta_window_on cfg (Some (stability_window_theta cfg))
                  then _theta_window_to_n cfg self (stability_window_theta cfg)
                  else Ok 5) ;;
  stdev <- lift (_rolling_stdev (util_hist self) n_stab) ;;
  stability <- lift (fdiv 1 (1 + stdev)) ;;
  let p :=
    match power_w with
    | Some pw => if (0 <? pw)%float then pw else (rated_power_w cfg * eta)%float
    | None => (rated_power_w cfg * eta)%float
    end in
  a_load <- lift (fdiv p (py_max (rated_power_w cfg) 1e-6)) ;;
  t_sustain <- lift (compute_t_sustain (temp_limit_c cfg) (temp_hist self) dt_s
                                       (max_t_sustain_s cfg)) ;;
  ret (eta, stability, a_load, t_sustain).

Definition _smooth_rle (cfg : Config) (rle_raw : float) (override_n : option Z)
    : M float :=
  modify (fun s => set_rle_hist (rle_hist s ++ [rle_raw]) s) ;;;
  self <- get ;;
  let n :=
    match override_n with
    | Some k => if k >? 0 then k else smooth_n cfg
    | None => smooth_n cfg
    end in
  lift (_rolling_mean (rle_hist self) n).

(** The expected-value curve of [normalize_rle] for given anchors. *)
Definition expected_rle (baseline optimal peak_load u : float) : float :=
  if (u <=? peak_load)%float
  then (baseline + (optimal - baseline) * (u / peak_load))%float
  else (optimal - (optimal - baseline * 0.5)
                  * ((u - peak_load) / (100 - peak_load)))%float.

Definition normalize_rle (rle util_pct : float) (device_type : string)
    : result float :=
  let '(baseline, optimal, peak_load) :=
    if String.eqb device_type "cpu"
    then (0.3, 5.0, 67.0)%float
    else (0.1, 3.0, 60.0)%float in
  let u := py_max 0 (py_min 100 util_pct) in
  let expected := expected_rle baseline optimal peak_load u in
  q <~ fdiv rle (py_max expected 1e-6) ;;
  Ok (py_max 0 (py_min 1 q)).

Definition _detect_collapse (cfg : Config) (rle_sm util_pct a_load : float)
    (temp_c : option float) (t_sustain : float) : M Z :=
  self <- get ;;
  let warm := len (rle_hist self) >=? Z.max (smooth_n cfg) 5 in
  if negb warm then
    modify (set_rolling_peak 0) ;;;
    modify (set_below_ctr 0) ;;;
    ret 0
  else
    modify (fun s => set_rolling_peak
                       (py_max rle_sm (rolling_peak s * rolling_decay cfg)) s) ;;;
    self <- get ;;
    let under_load :=
      (util_gate_pct cfg <? util_pct)%float || (a_load_gate cfg <? a_load)%float in
    let heating :=
      if (len (temp_hist self) >=? 2)
         && match temp_c with Some _ => true | None => false end
      then (0.05 <? last_elt (temp_hist self) - last_but_one (temp_hist self))%float
      else false in
    let gate := under_load && heating in
    let drop :=
      (rle_sm <? drop_frac cfg * py_max (rolling_peak self) 1e-6)%float in
    (if gate && drop
     then modify (fun s => set_below_ctr (below_ctr s + 1) s)
     else modify (set_below_ctr 0)) ;;;
    self <- get ;;
    hysteresis_samples <-
      lift (if theta_window_on cfg (hysteresis_theta cfg)
            then n <~ _theta_window_to_n cfg self
                        (match hysteresis_theta cfg with Some h => h | None => 0%float end) ;;
                 Ok (Z.max 1 n)
            else Ok (hysteresis_s cfg)) ;;
    let collapsed_flag := below_ctr self >=? hysteresis_samples in
    let thermal_evidence :=
      (t_sustain <? 60)%float
      || match temp_c with
         | Some t => (temp_limit_c cfg - 5 <? t)%float
         | None => false
         end in
    let power_evidence := (0.95 <? a_load)%float in
    ret (if collapsed_flag && (thermal_evidence || power_evidence) then 1 else 0).

(** The nested helper of [compute_rle]: blend weight from [F_mu]. *)
Definition _w_from_fmu (f : float) : float :=
  let hi := 0.98%float in
  let lo := 0.90%float in
  if (hi <=? f)%float then 0%float
  else if (f <=? lo)%float then 1%float
  else
    let span := (hi - lo)%float in
    py_max 0 (py_min 1 ((hi - f) / span)).

(** The block of [compute_rle] after the clock maintenance: the gap flag
    from the median interval, then the phase increment [dtheta], added to
    [_theta_index] with Kahan compensation.  Returns
    [(dtheta, theta_gap)]. *)
Definition theta_advance (cfg : Config) (dt_s : float) : M (float * Z) :=
  if enable_theta_clock cfg then
    self <- get ;;
    let theta_gap :=
      match _buf_dt self with
      | [] => 0
      | _ =>
          let sdt := py_sorted (_buf_dt self) in
          let med_dt := nth (Z.to_nat (len sdt / 2)) sdt 0%float in
          if (3 * py_max med_dt 1e-6 <? dt_s)%float then 1 else 0
      end in
    dtheta <- lift (fdiv dt_s (py_max (_t0_s self) 1e-6)) ;;
    let y := (dtheta - _theta_c self)%float in
    let t := (_theta_index self + y)%float in
    modify (set_theta_c ((t - _theta_index self) - y)%float) ;;;
    modify (set_theta_index t) ;;;
    ret (dtheta, theta_gap)
  else ret (0%float, 0).

Definition compute_rle (cfg : Config) (util_pct : float)
    (temp_c power_w : option float) (dt_s : float) : M RLEResult.t :=
  c <- compute_components cfg util_pct temp_c power_w dt_s ;;
  let '(eta, stability, a_load, t_sustain) := c in
  inv_ts <- lift (fdiv 1 (py_max t_sustain 1e-6)) ;;
  let denom := (py_max a_load 1e-6 * (1 + inv_ts))%float in
  rle_raw_core <- lift (fdiv (eta * stability) denom) ;;
  self <- get ;;
  n_smooth <- lift (if theta_window_on cfg (smooth_window_theta cfg)
                    then n <~ _theta_window_to_n cfg self
                                (match smooth_window_theta cfg with
                                 | Some w => w
                                 | None => 0%float
                                 end) ;;
                         Ok (Some n)
                    else Ok None) ;;
  rle_smooth_core <- _smooth_rle cfg rle_raw_core n_smooth ;;
  _theta_update_if_needed cfg rle_smooth_core temp_c dt_s ;;;
  clock <- theta_advance cfg dt_s ;;
  let '(dtheta, theta_gap) := clock in
  self <- get ;;
  ms <- lift (_compute_micro_scale_factor cfg self power_w temp_c dt_s dtheta
                                          (_t0_s self)) ;;
  let '(F_mu, F_q, F_s, F_p, Gamma, log_Gamma) := ms in
  let rle_raw_ms := (rle_raw_core * F_mu)%float in
  modify (fun s => set_rle_hist_ms (rle_hist_ms s ++ [rle_raw_ms]) s) ;;;
  let n_ms :=
    match n_smooth with
    | Some k => if k =? 0 then smooth_n cfg else k
    | None => smooth_n cfg
    end in
  self <- get ;;
  rle_smooth_ms <- lift (_rolling_mean (rle_hist_ms self) n_ms) ;;
  let w := _w_from_fmu F_mu in
  let rle_raw_uni := (rle_raw_core * (1 - w) + rle_raw_ms * w)%float in
  modify (fun s => set_rle_hist_uni (rle_hist_uni s ++ [rle_raw_uni]) s) ;;;
  self <- get ;;
  rle_smooth_uni <- lift (_rolling_mean (rle_hist_uni self) n_ms) ;;
  inv_ts' <- lift (fdiv 1 (py_max t_sustain 1e-6)) ;;
  e_th <- lift (fdiv stability (1 + inv_ts')) ;;
  e_pw <- lift (fdiv eta (py_max a_load 1e-6)) ;;
  rle_norm_core <- lift (normalize_rle rle_smooth_core util_pct "cpu") ;;
  rle_norm_ms <- lift (normalize_rle rle_smooth_ms util_pct "cpu") ;;
  rle_norm_uni <- lift (normalize_rle rle_smooth_uni util_pct "cpu") ;;
  collapsed <- _detect_collapse cfg rle_smooth_core util_pct a_load temp_c t_sustain ;;
  self <- get ;;
  let T0_s_out := if enable_theta_clock cfg then _t0_s self else 0%float in
  T_sustain_hat <- lift (if enable_theta_clock cfg && (0 <? T0_s_out)%float
                         then fdiv t_sustain (py_max T0_s_out 1e-6)
                         else Ok 0%float) ;;
  ret {| RLEResult.rle_raw := rle_raw_core;
         RLEResult.rle_smoothed := rle_smooth_core;
         RLEResult.rle_raw_ms := rle_raw_ms;
         RLEResult.rle_smoothed_ms := rle_smooth_ms;
         RLEResult.rle_raw_uni := rle_raw_uni;
         RLEResult.rle_smoothed_uni := rle_smooth_uni;
         RLEResult.e_th := e_th;
         RLEResult.e_pw := e_pw;
         RLEResult.rle_norm := rle_norm_core;
         RLEResult.rle_norm_ms := rle_norm_ms;
         RLEResult.rle_norm_uni := rle_norm_uni;
         RLEResult.stability := stability;
         RLEResult.a_load := a_load;
         RLEResult.t_sustain_s := t_sustain;
         RLEResult.rolling_peak := rolling_peak self;
         RLEResult.collapse := collapsed;
         RLEResult.alerts := "";
         RLEResult.F_mu := F_mu;
         RLEResult.F_q := F_q;
         RLEResult.F_s := F_s;
         RLEResult.F_p := F_p;
         RLEResult.T0_s := T0_s_out;
         RLEResult.theta_index := _theta_index self;
         RLEResult.T_sustain_hat := T_sustain_hat;
         RLEResult.theta_gap := theta_gap;
         RLEResult.Gamma := Gamma;
         RLEResult.log_Gamma := log_Gamma |}.

Definition control_decision (rle_current : float)
    (rle_predicted thermal_headroom_c : option float) : M ControlDecision.t :=
  let pred := match rle_predicted with Some p => p | None => rle_current end in
  let headroom_bonus :=
    match thermal_headroom_c with
    | Some h => if (5 <? h)%float then -10 else 0
    | None => 0
    end in
  if (rle_current <? 0.2)%float || (pred <? 0.1)%float then
    ret (ControlDecision.mk "emergency" (Some 0.8%float) (Some 0.2%float)
           (Some (Z.max 0 (100 + headroom_bonus))) (Some 50) (Some 50))
  else if (rle_current <? 0.4)%float || (pred <? 0.3)%float then
    ret (ControlDecision.mk "aggressive" (Some 1.2%float) (Some 0.5%float)
           (Some (Z.max 0 (80 + headroom_bonus))) (Some 70) (Some 25))
  else if (rle_current <? 0.6)%float || (pred <? 0.5)%float then
    ret (ControlDecision.mk "moderate" (Some 2.5%float) (Some 0.9%float)
           (Some (Z.max 0 (60 + headroom_bonus))) (Some 85) (Some 10))
  else
    ret (ControlDecision.mk "maintain" None None None None None).

End Engine.

(** ** Feeding a sample sequence *)

Record Sample : Type := mkSample {
  util_pct : float;
  temp_c : option float;
  power_w : option float;
  dt_s : float
}.

(** One call of the caller's loop. *)
Definition call {lib : PyLib} (cfg : Config) (x : Sample) : M RLEResult.t :=
  compute_rle cfg (util_pct x) (temp_c x) (power_w x) (dt_s x).

(** The caller's loop: one [compute_rle] per sample.  The trace pairs each
    result with the engine's attributes right after the call. *)
Fixpoint run_samples {lib : PyLib} (cfg : Config) (samples : list Sample)
    : M (list (RLEResult.t * State)) :=
  match samples with
  | [] => ret []
  | x :: rest =>
      r <- call cfg x ;;
      self <- get ;;
      tr <- run_samples cfg rest ;;
      ret ((r, self) :: tr)
  end.

(** A fresh engine fed a sample sequence. *)
Definition session {lib : PyLib} (args : Config) (samples : list Sample)
    : result (list (RLEResult.t * State)) :=
  match run_samples (init_config args) samples init_state with
  | Ok (tr, _) => Ok tr
  | Raise e => Raise e
  end.

(** ** A float instance of the library functions

    Used to run the model on concrete samples.  [pstdev_float] computes the
    population standard deviation in binary64; [exp_float] and [log_float]
    are series approximations; the theorems below hold for every [PyLib]
    and none relies on the accuracy of these. *)

Definition pstdev_float (xs : list float) : result float :=
  match xs with
  | [] => Raise StatisticsError
  | _ =>
      let n := Z2float (len xs) in
      let mu := (py_sum xs / n)%float in
      Ok (sqrt (py_sum (map (fun x => ((x - mu) * (x - mu))%float) xs) / n))
  end.

Fixpoint taylor_exp (terms : nat) (x term acc : float) (i : float) : float :=
  match terms with
  | O => acc
  | S k => let term' := (term * x / i)%float in
           taylor_exp k x term' (acc + term') (i + 1)
  end.

Fixpoint repeat_square (k : nat) (x : float) : float :=
  match k with
  | O => x
  | S k' => repeat_square k' (x * x)
  end.

Definition exp_float (x : float) : result float :=
  let r := repeat_square 10 (taylor_exp 20 (x / 1024) 1 1 1) in
  if is_infinity r && negb (is_infinity x) then Raise OverflowError else Ok r.

Fixpoint atanh_series (terms : nat) (z2 pw acc : float) (i : float) : float :=
  match terms with
  | O => acc
  | S k => let pw' := (pw * z2)%float in
           atanh_series k z2 pw' (acc + pw' / i) (i + 2)
  end.

Definition log_float (x : float) : result float :=
  if (x <=? 0)%float then Raise ValueError
  else
    let (m, e) := Z.frexp x in
    let z := ((m - 1) / (m + 1))%float in
    Ok (Z2float e * 0.6931471805599453
        + 2 * atanh_series 40 (z * z) z z 3)%float.

Definition pow_float (x y : float) : result float :=
  if (x <? 0)%float then Raise TypeError
  else if (y =? 0.5)%float then Ok (sqrt x)
  else if (y =? 2)%float then
    let r := (x * x)%float in
    if is_infinity r && negb (is_infinity x) then Raise OverflowError else Ok r
  else if (x =? 0)%float then Ok 0%float
  else l <~ log_float x ;; exp_float (y * l).

Definition float_lib : PyLib :=
  {| pstdev := pstdev_float;
     py_pow := pow_float;
     math_exp := exp_float;
     math_log := log_float |}.

(** Sample sequences used in the examples. *)
Definition idle_sample : Sample :=
  mkSample 5 (Some 40%float) (Some 10%float) 1.

Definition ramp_sample (i : nat) : Sample :=
  let x := Z2float (Z.of_nat i) in
  mkSample (20 + 0.375 * x) (Some (40 + 0.22 * x)%float) (Some (20 + 0.375 * x)%float) 1.

Definition ramp_samples (n : nat) : list Sample := map ramp_sample (seq 0 n).

(** Thirty-one ordinary one-second samples (utilization 50, no
    temperature sensor, power 10, 11, ... W), then one whose interval is
    the finite float 1e308. *)
Definition huge_dt_samples : list Sample :=
  map (fun i => mkSample 50 None (Some (10 + Z2float (Z.of_nat i))%float) 1)
      (seq 0 31)
  ++ [mkSample 50 None (Some 41%float) 1e308].

(** Constructor arguments whose period range excludes the initial 60 s. *)
Definition narrow_range_args : Config :=
  mkConfig 100 85 600 5 0.998 0.65 7 60 0.75 false 0.1 3 true 60 100 600
           false 5 None None 1024.

(** The same constructor arguments with another [enable_micro_scale]. *)
Definition with_micro_scale (b : bool) (c : Config) : Config :=
  mkConfig (rated_power_w c) (temp_limit_c c) (max_t_sustain_s c) (smooth_n c)
           (rolling_decay c) (drop_frac c) (hysteresis_s c) (util_gate_pct c)
           (a_load_gate c) b (sensor_temp_lsb_c c) (low_power_knee_w c)
           (enable_theta_clock c) (theta_update_sec c) (theta_min_s c)
           (theta_max_s c) (use_theta_windows c) (stability_window_theta c)
           (smooth_window_theta c) (hysteresis_theta c) (_rb_len c).

(** The engine attributes that do not belong to the corrected and blended
    score paths: the state with those two histories erased. *)
Definition core_view (s : State) : State :=
  set_rle_hist_ms [] (set_rle_hist_uni [] s).

(** ** Reference formulas, as the specification words them *)

(** [clamp(x, lo, hi)] *)
Definition clamp (x lo hi : float) : float := py_max (py_min x hi) lo.

(** Sustain time by the specification: the heating rate divides by [dt_s]
    itself. *)
Definition t_sustain_spec (temp_limit_c : float) (temp_hist : list float)
    (dt_s max_sustain_s : float) : float :=
  if len temp_hist <? 2 then max_sustain_s
  else
    let rate := ((last_elt temp_hist - last_but_one temp_hist) / dt_s)%float in
    clamp ((temp_limit_c - last_elt temp_hist) / py_max rate 1e-3)
          1 max_sustain_s.

(** One ladder of three ascending thresholds applied to one score. *)
Definition ladder (t_emergency t_aggressive t_moderate x : float) : string :=
  if (x <? t_emergency)%float then "emergency"
  else if (x <? t_aggressive)%float then "aggressive"
  else if (x <? t_moderate)%float then "moderate"
  else "maintain".

(** The control mapper by the specification: one ladder evaluated against
    [min(current, predicted)]. *)
Definition decide_on_min (t_emergency t_aggressive t_moderate : float)
    (current predicted : float) : string :=
  ladder t_emergency t_aggressive t_moderate (py_min current predicted).

(** Severity rank of a control state: lower is more severe. *)
Definition severity (st : string) : Z :=
  if String.eqb st "emergency" then 0
  else if String.eqb st "aggressive" then 1
  else if String.eqb st "moderate" then 2
  else 3.

Definition more_severe (a b : string) : string :=
  if severity b <? severity a then b else a.

(** Number of samples carrying a temperature reading. *)
Definition temps_of (samples : list Sample) : list float :=
  flat_map (fun x => match temp_c x with Some t => [t] | None => [] end) samples.

Definition is_number (x : float) : bool := (x =? x)%float.

(** The window length of the corrected and blended smoothing paths:
    [n_smooth if n_smooth else self.smooth_n]. *)
Definition ms_window (cfg : Config) (n_smooth : option Z) : Z :=
  match n_smooth with
  | Some k => if k =? 0 then smooth_n cfg else k
  | None => smooth_n cfg
  end.

(** The histories and ring buffers after feeding [fed] and obtaining
    [outs]: the histories keep everything, the ring buffers the latest
    1024 pushes. *)
Definition buffers_follow (cfg : Config) (fed : list Sample)
    (outs : list RLEResult.t) (st : State) : Prop :=
  util_hist st = map (fun x => py_max 0 (py_min 100 (util_pct x))) fed
  /\ temp_hist st = temps_of fed
  /\ rle_hist st = map RLEResult.rle_raw outs
  /\ rle_hist_ms st = map RLEResult.rle_raw_ms outs
  /\ rle_hist_uni st = map RLEResult.rle_raw_uni outs
  /\ _buf_dt st = slice_from (- 1024) (map dt_s fed)
  /\ _buf_rle_sm st
     = (if enable_theta_clock cfg
        then slice_from (- 1024) (map RLEResult.rle_smoothed outs)
        else [])
  /\ _buf_temp st
     = (if enable_theta_clock cfg then slice_from (- 1024) (temps_of fed) else []).

(** The engine state a trace entry was computed from: the initial state
    for the first entry, the state of the entry before for the others. *)
Definition state_before (st0 : State) (tr : list (RLEResult.t * State))
    (k : nat) : State :=
  match k with
  | O => st0
  | S j =>
      match nth_error tr j with
      | Some (_, s) => s
      | None => st0
      end
  end.

(** Two computations agree on the core from the states [s] and [t]: when
    both return, their values are related by [P] and the final states
    have the same core view. *)
Definition agree_at {A : Type} (P : A -> A -> Prop) (s t : State)
    (m1 m2 : M A) : Prop :=
  forall a s' b t',
    m1 s = Ok (a, s') -> m2 t = Ok (b, t') ->
    P a b /\ core_view s' = core_view t'.

(** The fields of a result that do not belong to the corrected and
    blended score paths. *)
Definition core_outputs (r : RLEResult.t)
    : float * float * float * float * float * float * float * float
      * float * Z * float * float * float * Z :=
  (RLEResult.rle_raw r, RLEResult.rle_smoothed r, RLEResult.e_th r,
   RLEResult.e_pw r, RLEResult.rle_norm r, RLEResult.stability r,
   RLEResult.a_load r, RLEResult.t_sustain_s r, RLEResult.rolling_peak r,
   RLEResult.collapse r, RLEResult.T0_s r, RLEResult.theta_index r,
   RLEResult.T_sustain_hat r, RLEResult.theta_gap r).

(** What a result looks like when the micro-scale correction is off: unit
    factors, and the corrected ([_ms]) and blended ([_uni]) variants equal
    to the core values. *)
Definition micro_scale_identity (r : RLEResult.t) : Prop :=
  RLEResult.F_mu r = 1%float /\ RLEResult.F_q r = 1%float
  /\ RLEResult.F_s r = 1%float /\ RLEResult.F_p r = 1%float
  /\ RLEResult.rle_raw_ms r = RLEResult.rle_raw r
  /\ RLEResult.rle_smoothed_ms r = RLEResult.rle_smoothed r
  /\ RLEResult.rle_norm_ms r = RLEResult.rle_norm r
  /\ RLEResult.rle_raw_uni r = RLEResult.rle_raw r
  /\ RLEResult.rle_smoothed_uni r = RLEResult.rle_smoothed r
  /\ RLEResult.rle_norm_uni r = RLEResult.rle_norm r.

(** ** Magnitude of binary64 values

    [sf_small k x]: [x] is NaN, a zero, or finite with [|x| < 2^k].
    [sf_big k x]: [x] is NaN, an infinity, or finite with
    [|x| >= 2^(k-1)].  Both are stated on the number of binary digits of
    the mantissa plus the exponent. *)
Definition sf_small (k : Z) (x : spec_float) : Prop :=
  match x with
  | S754_zero _ => True
  | S754_nan => True
  | S754_infinity _ => False
  | S754_finite _ m e => Zpos (digits2_pos m) + e <= k
  end.

Definition sf_big (k : Z) (x : spec_float) : Prop :=
  match x with
  | S754_zero _ => False
  | S754_nan => True
  | S754_infinity _ => True
  | S754_finite _ m e => k <= Zpos (digits2_pos m) + e
  end.

Definition small (k : Z) (x : float) : Prop := sf_small k (Prim2SF x).
Definition big (k : Z) (x : float) : Prop := sf_big k (Prim2SF x).

(** Neither infinity. *)
Definition not_infinite (x : float) : Prop :=
  match Prim2SF x with
  | S754_infinity _ => False
  | _ => True
  end.

(** NaN, a zero of either sign, or positive. *)
Definition sf_nonneg (x : spec_float) : Prop :=
  match x with
  | S754_zero _ => True
  | S754_nan => True
  | S754_infinity s => s = false
  | S754_finite s _ _ => s = false
  end.

(** Six cool low-power samples, then twelve at full power with the
    temperature rising one degree per sample: the score drops and the
    detector reports a collapse. *)
Definition collapse_samples : list Sample :=
  repeat (mkSample 90 (Some 40%float) (Some 10%float) 1) 6
  ++ map (fun i => mkSample 90 (Some (41 + Z2float (Z.of_nat i))%float)
                            (Some 100%float) 1)
         (seq 0 12).

(** Default constructor arguments with the theta clock switched off. *)
Definition clock_off_args : Config :=
  mkConfig 100 85 600 5 0.998 0.65 7 60 0.75 false 0.1 3 false 60 5 600
           false 5 None None 1024.

(** The exceptions of [int(x)] and [round(x)] on a float: [OverflowError]
    for an infinity, [ValueError] for a NaN. *)
Definition conversion_error (e : exn) : Prop :=
  e = OverflowError \/ e = ValueError.

(** What the engine relies on from [statistics.pstdev]: it returns on
    non-empty data, and what it returns is never negative (it is a square
    root; NaN is allowed). *)
Definition pstdev_returns {lib : PyLib} : Prop :=
  forall l : list float, l <> [] -> exists v, pstdev l = Ok v.

Definition pstdev_not_negative {lib : PyLib} : Prop :=
  forall (l : list float) (v : float), pstdev l = Ok v -> (v <? 0)%float = false.

(** The exceptions left once every division is known to be guarded: those
    of the int conversions, and whatever the square root [x ** 0.5] of
    the period re-estimation raises. *)
Definition engine_error {lib : PyLib} (e : exn) : Prop :=
  conversion_error e \/ exists x : float, py_pow x 0.5 = Raise e.

(** [sf_finite x]: [x] is a zero or a finite number (no NaN, no
    infinity). *)
Definition sf_finite (x : spec_float) : Prop :=
  match x with
  | S754_zero _ => True
  | S754_finite _ _ _ => True
  | _ => False
  end.

Definition finite_float (x : float) : Prop := sf_finite (Prim2SF x).

(** What the clock relies on from the power operator: a square root
    ([x ** 0.5]) of a base that is not negative returns. *)
Definition pow_half_returns {lib : PyLib} : Prop :=
  forall x : float, (x <? 0)%float = false -> exists r, py_pow x 0.5 = Ok r.

(** Sample sequences whose intervals are all 1.0, as the CSV augmenter
    feeds them. *)
Definition unit_intervals (samples : list Sample) : Prop :=
  Forall (fun x => dt_s x = 1%float) samples.

(** ** Rounding as an integer function

    [round_shift m n]: [m / 2^n] rounded to the nearest integer, ties to
    even; what the first shift-and-round stage of [binary_round_aux]
    computes on an exact mantissa. *)
Definition round_shift (m n : Z) : Z :=
  if n <=? 0 then m
  else
    let q := m / 2 ^ n in
    let r := m mod 2 ^ n in
    let h := 2 ^ (n - 1) in
    if r <? h then q
    else if h <? r then q + 1
    else if Z.even q then q else q + 1.

(** The second stage: renormalise the rounded mantissa [m] at exponent
    [e] and detect overflow. *)
Definition round_finish (s : bool) (m e : Z) : spec_float :=
  let n := Z.max (fexp prec emax (Zdigits2 m + e) - e) 0 in
  match m / 2 ^ n with
  | Z0 => S754_zero s
  | Zpos p => if e + n <=? emax - prec then S754_finite s p (e + n)
              else S754_infinity s
  | Zneg _ => S754_nan
  end.

(** The shift register after [k] single shifts of the mantissa [M]:
    quotient, round bit and sticky bit. *)
Definition shr_state (M k : Z) (R : shr_record) : Prop :=
  shr_m R = M / 2 ^ k
  /\ shr_r R = (if k =? 0 then false else Z.odd (M / 2 ^ (k - 1)))
  /\ shr_s R = (if k =? 0 then false else negb (M mod 2 ^ (k - 1) =? 0)).

(** The float a renormalised mantissa and exponent denote. *)
Definition round_out (s : bool) (m e : Z) : spec_float :=
  match m with
  | Z0 => S754_zero s
  | Zpos p => if e <=? emax - prec then S754_finite s p e
              else S754_infinity s
  | Zneg _ => S754_nan
  end.

(** [m * 2^e <= m' * 2^e'], stated on integers. *)
Definition val_le (m e m' e' : Z) : Prop :=
  m * 2 ^ (e - Z.min e e') <= m' * 2 ^ (e' - Z.min e e').

(** A positive number: finite or the positive infinity. *)
Definition sf_pos (x : spec_float) : Prop :=
  match x with
  | S754_finite false _ _ => True
  | S754_infinity false => True
  | _ => False
  end.

Definition positive_float (x : float) : Prop := sf_pos (Prim2SF x).

(** A configured period range that contains the initial period of 60 s
    and whose endpoints the smoothing step reproduces in binary64
    ([0.8 * m + 0.2 * m] computes to no less than [m] at the lower
    endpoint and to no more than [m] at the upper one); the default range
    [[5, 600]] is one. *)
Definition period_range_stable (cfg : Config) : Prop :=
  (theta_min_s cfg <=? 60)%float = true
  /\ (60 <=? theta_max_s cfg)%float = true
  /\ (theta_min_s cfg
      <=? (1 - 0.2) * theta_min_s cfg + 0.2 * theta_min_s cfg)%float = true
  /\ ((1 - 0.2) * theta_max_s cfg + 0.2 * theta_max_s cfg
      <=? theta_max_s cfg)%float = true.

(** What the clock relies on from the power operator for the values of
    the period: a square root ([x ** 0.5]) of a number, when it returns,
    is a number. *)
Definition pow_half_number {lib : PyLib} : Prop :=
  forall x r : float,
    is_number x = true -> py_pow x 0.5 = Ok r -> is_number r = true.

(** An engine with the period range [[5, 61]] that re-estimates every
    5 s, and samples 5 s apart with a slowly rising temperature: the
    candidate period is the upper endpoint at every re-estimation. *)
Definition tight_range_args : Config :=
  mkConfig 100 85 600 5 0.998 0.65 7 60 0.75 false 0.1 3 true 5 5 61
           false 5 None None 1024.

Definition warming_sample (i : nat) : Sample :=
  mkSample 50 (Some (40 + 0.1 * Z2float (Z.of_nat i))%float)
           (Some 50%float) 5.

Definition warming_samples (n : nat) : list Sample :=
  map warming_sample (seq 0 n).

(** * Properties *)

(** ** Inversion of successful monadic runs *)

Lemma bind_Ok {A B : Type} (m : M A) (f : A -> M B) s b s' :
  bind m f s = Ok (b, s') ->
  exists a s1, m s = Ok (a, s1) /\ f a s1 = Ok (b, s').
Proof.
  unfold bind. destruct (m s) as [[a s1]|e]; [|discriminate]. eauto.
Qed.

Lemma lift_Ok {A : Type} (r : result A) s a s' :
  lift r s = Ok (a, s') -> r = Ok a /\ s' = s.
Proof.
  unfold lift. destruct r; [|discriminate].
  intros H; inversion H; auto.
Qed.

Lemma ret_Ok {A : Type} (x : A) s a s' :
  ret x s = Ok (a, s') -> a = x /\ s' = s.
Proof. unfold ret. intros H; inversion H; auto. Qed.

Lemma get_Ok s a s' : get s = Ok (a, s') -> a = s /\ s' = s.
Proof. unfold get. intros H; inversion H; auto. Qed.

Lemma modify_Ok f s a s' : modify f s = Ok (a, s') -> s' = f s.
Proof. unfold modify. intros H; inversion H; auto. Qed.

Lemma rbind_Ok {A B : Type} (r : result A) (f : A -> result B) b :
  rbind r f = Ok b -> exists a, r = Ok a /\ f a = Ok b.
Proof. destruct r; [|discriminate]. simpl. eauto. Qed.

Ltac minv :=
  repeat match goal with
  | H : bind _ _ _ = Ok (_, _) |- _ =>
      let a := fresh "a" in
      let s1 := fresh "s" in
      let H1 := fresh "H" in
      let H2 := fresh "H" in
      apply bind_Ok in H; destruct H as (a & s1 & H1 & H2)
  | H : lift _ _ = Ok (_, _) |- _ =>
      apply lift_Ok in H; destruct H as [H ?]; subst
  | H : ret _ _ = Ok (_, _) |- _ =>
      apply ret_Ok in H; destruct H as [? ?]; subst
  | H : get _ = Ok (_, _) |- _ =>
      apply get_Ok in H; destruct H as [? ?]; subst
  | H : modify _ _ = Ok (_, _) |- _ => apply modify_Ok in H; subst
  end.

(** ** Order facts on binary64 numbers, from the IEEE specification *)

Lemma SFcompare_finite s1 m1 e1 s2 m2 e2 :
  SFcompare (S754_finite s1 m1 e1) (S754_finite s2 m2 e2) =
  Some match s1, s2 with
       | true, false => Lt
       | false, true => Gt
       | false, false =>
           match e1 ?= e2 with
           | Lt => Lt
           | Gt => Gt
           | Eq => (m1 ?= m2)%positive
           end
       | true, true =>
           match e1 ?= e2 with
           | Lt => Gt
           | Gt => Lt
           | Eq => CompOpp (m1 ?= m2)%positive
           end
       end.
Proof. reflexivity. Qed.

Lemma SFcompare_antisym x y :
  SFcompare y x = option_map CompOpp (SFcompare x y).
Proof.
  destruct x as [sx|sx| |sx mx ex], y as [sy|sy| |sy my ey];
    try rewrite !SFcompare_finite; simpl;
    try reflexivity;
    try (destruct sx; reflexivity); try (destruct sy; reflexivity);
    try (destruct sx, sy; reflexivity).
  destruct sx, sy; simpl; try reflexivity;
    rewrite (Z.compare_antisym ey ex), (Pos.compare_antisym my mx);
    destruct (ey ?= ex); simpl; rewrite ?CompOpp_involutive; reflexivity.
Qed.

(** A key on which the order of comparable spec floats is lexicographic. *)
Ltac cmp_cases :=
  repeat match goal with
  | H : context [(?a ?= ?b)%Z] |- _ => destruct (Z.compare_spec a b)
  | |- context [(?a ?= ?b)%Z] => destruct (Z.compare_spec a b)
  | H : context [(?a ?= ?b)%positive] |- _ => destruct (Pos.compare_spec a b)
  | |- context [(?a ?= ?b)%positive] => destruct (Pos.compare_spec a b)
  end.

Lemma SFcompare_lt_trans x y z :
  SFcompare x y = Some Lt -> SFcompare y z = Some Lt -> SFcompare x z = Some Lt.
Proof.
  destruct x as [sx|sx| |sx mx ex], y as [sy|sy| |sy my ey], z as [sz|sz| |sz mz ez];
    try rewrite !SFcompare_finite;
    simpl; try discriminate; try congruence;
    try (destruct sx; simpl; congruence);
    try (destruct sy; simpl; congruence);
    try (destruct sz; simpl; congruence);
    try (destruct sx, sy; simpl; congruence);
    try (destruct sx, sz; simpl; congruence);
    try (destruct sy, sz; simpl; congruence);
    try (destruct sx, sy, sz; simpl; congruence).
  destruct sx, sy, sz; simpl; try congruence; intros H1 H2;
    cmp_cases; simpl in *; try discriminate; try reflexivity; subst; try lia.
Qed.

Lemma ltb_trans (a b c : float) :
  (a <? b)%float = true -> (b <? c)%float = true -> (a <? c)%float = true.
Proof.
  rewrite !ltb_spec. unfold SFltb.
  destruct (SFcompare (Prim2SF a) (Prim2SF b)) as [[| |]|] eqn:E1; try discriminate.
  destruct (SFcompare (Prim2SF b) (Prim2SF c)) as [[| |]|] eqn:E2; try discriminate.
  rewrite (SFcompare_lt_trans _ _ _ E1 E2). reflexivity.
Qed.

Lemma ltb_asym (a b : float) : (a <? b)%float = true -> (b <? a)%float = false.
Proof.
  rewrite !ltb_spec. unfold SFltb.
  rewrite (SFcompare_antisym (Prim2SF a) (Prim2SF b)).
  destruct (SFcompare (Prim2SF a) (Prim2SF b)) as [[| |]|]; simpl; congruence.
Qed.

Lemma leb_not_ltb (a b : float) : (a <=? b)%float = true -> (b <? a)%float = false.
Proof.
  rewrite leb_spec, ltb_spec. unfold SFleb, SFltb.
  rewrite (SFcompare_antisym (Prim2SF a) (Prim2SF b)).
  destruct (SFcompare (Prim2SF a) (Prim2SF b)) as [[| |]|]; simpl; congruence.
Qed.

Lemma SFcompare_refl x : SFcompare x x = Some Eq \/ x = S754_nan.
Proof.
  destruct x as [s|s| |s m e]; [left|left|right|left]; try reflexivity.
  - destruct s; reflexivity.
  - rewrite SFcompare_finite. rewrite Z.compare_refl, Pos.compare_refl.
    destruct s; reflexivity.
Qed.

Lemma is_number_spec (a : float) : is_number a = true <-> Prim2SF a <> S754_nan.
Proof.
  unfold is_number. rewrite eqb_spec. unfold SFeqb.
  destruct (SFcompare_refl (Prim2SF a)) as [E|E]; rewrite E.
  - split; [|reflexivity]. intros _ H. rewrite H in E. discriminate.
  - simpl. split; [discriminate|congruence].
Qed.

Lemma SFcompare_number x y :
  x <> S754_nan -> y <> S754_nan -> SFcompare x y <> None.
Proof.
  destruct x as [sx|sx| |sx mx ex], y as [sy|sy| |sy my ey]; simpl; congruence.
Qed.

(** Among numbers, "not less" is "greater or equal". *)
Lemma not_ltb_leb (a b : float) :
  is_number a = true -> is_number b = true ->
  (a <? b)%float = false -> (b <=? a)%float = true.
Proof.
  rewrite !is_number_spec. intros Ha Hb.
  rewrite leb_spec, ltb_spec. unfold SFleb, SFltb.
  rewrite (SFcompare_antisym (Prim2SF a) (Prim2SF b)).
  pose proof (SFcompare_number _ _ Ha Hb) as Hn.
  destruct (SFcompare (Prim2SF a) (Prim2SF b)) as [[| |]|]; simpl; congruence.
Qed.

Lemma leb_is_number (a b : float) :
  (a <=? b)%float = true -> is_number a = true /\ is_number b = true.
Proof.
  rewrite leb_spec, !is_number_spec. unfold SFleb.
  destruct (Prim2SF a), (Prim2SF b); simpl; try discriminate; split; congruence.
Qed.

Lemma leb_refl (a : float) : is_number a = true -> (a <=? a)%float = true.
Proof.
  rewrite is_number_spec, leb_spec. unfold SFleb. intros H.
  destruct (SFcompare_refl (Prim2SF a)) as [E|E]; [rewrite E; reflexivity|contradiction].
Qed.

(** A float equal to zero is below every positive float. *)
Lemma eqb_zero_ltb_pos (x c : float) :
  (x =? 0)%float = true -> (0 <? c)%float = true -> (x <? c)%float = true.
Proof.
  rewrite eqb_spec, !ltb_spec. unfold SFeqb, SFltb.
  change (Prim2SF 0) with (S754_zero false).
  destruct (Prim2SF x) as [sx|sx| |sx mx ex]; simpl; try discriminate.
  - intros _ H. exact H.
  - destruct sx; discriminate.
  - destruct sx; discriminate.
Qed.

Lemma ltb_neq_zero (c : float) :
  (0 <? c)%float = true -> (c =? 0)%float = false.
Proof.
  rewrite eqb_spec, ltb_spec. unfold SFeqb, SFltb.
  rewrite (SFcompare_antisym (Prim2SF 0) (Prim2SF c)).
  destruct (SFcompare (Prim2SF 0) (Prim2SF c)) as [[| |]|]; simpl; congruence.
Qed.

(** The epsilon guard: [max(x, c)] with [c] positive is never zero. *)
Lemma py_max_guard_nonzero (x c : float) :
  (0 <? c)%float = true -> (py_max x c =? 0)%float = false.
Proof.
  intros Hc. unfold py_max.
  destruct (x <? c)%float eqn:E.
  - apply ltb_neq_zero. exact Hc.
  - destruct (x =? 0)%float eqn:E0; [|reflexivity].
    rewrite (eqb_zero_ltb_pos _ _ E0 Hc) in E. discriminate.
Qed.

Lemma fdiv_guarded (x y c : float) :
  (0 <? c)%float = true -> fdiv x (py_max y c) = Ok (x / py_max y c)%float.
Proof.
  intros Hc. unfold fdiv. rewrite (py_max_guard_nonzero _ _ Hc). reflexivity.
Qed.

Section Properties.

Context {lib : PyLib}.

(** ** One call, stage by stage *)

Lemma compute_rle_inv cfg u t p d st r st' :
  compute_rle cfg u t p d st = Ok (r, st') ->
  exists eta sA n_smooth sB sC dtheta sD,
    compute_components cfg u t p d st
      = Ok ((eta, RLEResult.stability r, RLEResult.a_load r,
             RLEResult.t_sustain_s r), sA)
    /\ (if theta_window_on cfg (smooth_window_theta cfg)
        then rbind (_theta_window_to_n cfg sA
                      (match smooth_window_theta cfg with
                       | Some w => w
                       | None => 0%float
                       end))
                   (fun n => Ok (Some n))
        else Ok None) = Ok n_smooth
    /\ _smooth_rle cfg (RLEResult.rle_raw r) n_smooth sA
       = Ok (RLEResult.rle_smoothed r, sB)
    /\ _theta_update_if_needed cfg (RLEResult.rle_smoothed r) t d sB = Ok (tt, sC)
    /\ theta_advance cfg d sC = Ok ((dtheta, RLEResult.theta_gap r), sD)
    /\ _compute_micro_scale_factor cfg sD p t d dtheta (_t0_s sD)
       = Ok (RLEResult.F_mu r, RLEResult.F_q r, RLEResult.F_s r,
             RLEResult.F_p r, RLEResult.Gamma r, RLEResult.log_Gamma r)
    /\ RLEResult.rle_raw_ms r = (RLEResult.rle_raw r * RLEResult.F_mu r)%float
    /\ _rolling_mean (rle_hist_ms sD ++ [RLEResult.rle_raw_ms r])
                     (ms_window cfg n_smooth)
       = Ok (RLEResult.rle_smoothed_ms r)
    /\ RLEResult.rle_raw_uni r
       = (RLEResult.rle_raw r * (1 - _w_from_fmu (RLEResult.F_mu r))
          + RLEResult.rle_raw_ms r * _w_from_fmu (RLEResult.F_mu r))%float
    /\ _rolling_mean (rle_hist_uni sD ++ [RLEResult.rle_raw_uni r])
                     (ms_window cfg n_smooth)
       = Ok (RLEResult.rle_smoothed_uni r)
    /\ normalize_rle (RLEResult.rle_smoothed r) u "cpu" = Ok (RLEResult.rle_norm r)
    /\ normalize_rle (RLEResult.rle_smoothed_ms r) u "cpu"
       = Ok (RLEResult.rle_norm_ms r)
    /\ normalize_rle (RLEResult.rle_smoothed_uni r) u "cpu"
       = Ok (RLEResult.rle_norm_uni r)
    /\ _detect_collapse cfg (RLEResult.rle_smoothed r) u (RLEResult.a_load r) t
                        (RLEResult.t_sustain_s r)
         (set_rle_hist_uni (rle_hist_uni sD ++ [RLEResult.rle_raw_uni r])
            (set_rle_hist_ms (rle_hist_ms sD ++ [RLEResult.rle_raw_ms r]) sD))
       = Ok (RLEResult.collapse r, st')
    /\ RLEResult.rolling_peak r = rolling_peak st'
    /\ RLEResult.T0_s r = (if enable_theta_clock cfg then _t0_s st' else 0%float)
    /\ RLEResult.theta_index r = _theta_index st'.
Proof.
  unfold compute_rle. intros H. minv.
  destruct a as [[[eta stab] a_load] ts]. minv.
  destruct a5 as [dtheta gap]. minv.
  destruct a5 as [[[[[F_mu F_q] F_s] F_p] Gamma] log_Gamma]. minv.
  destruct a4.
  exists eta, s, a2, s4, s5, dtheta, s6. simpl.
  repeat (split; [eassumption || reflexivity|]).
  reflexivity.
Qed.

(** The raw score is the guarded quotient of line 369. *)
Lemma compute_rle_raw cfg u t p d st r st' :
  compute_rle cfg u t p d st = Ok (r, st') ->
  exists eta sA inv_ts,
    compute_components cfg u t p d st
      = Ok ((eta, RLEResult.stability r, RLEResult.a_load r,
             RLEResult.t_sustain_s r), sA)
    /\ fdiv 1 (py_max (RLEResult.t_sustain_s r) 1e-6) = Ok inv_ts
    /\ fdiv (eta * RLEResult.stability r)
            (py_max (RLEResult.a_load r) 1e-6 * (1 + inv_ts))
       = Ok (RLEResult.rle_raw r).
Proof.
  unfold compute_rle. intros H. minv.
  destruct a as [[[eta stab] a_load] ts]. minv.
  destruct a5 as [dtheta gap]. minv.
  destruct a5 as [[[[[F_mu F_q] F_s] F_p] Gamma] log_Gamma]. minv.
  exists eta, s, a. simpl. auto.
Qed.

Lemma compute_components_state cfg u t p d st c st' :
  compute_components cfg u t p d st = Ok (c, st') ->
  st' = match t with
        | Some x =>
            set_temp_hist (temp_hist st ++ [x])
              (set_util_hist (util_hist st ++ [py_max 0 (py_min 100 u)]) st)
        | None => set_util_hist (util_hist st ++ [py_max 0 (py_min 100 u)]) st
        end.
Proof.
  unfold compute_components. intros H. minv.
  destruct t; minv; reflexivity.
Qed.

Lemma _smooth_rle_state cfg raw n st v st' :
  _smooth_rle cfg raw n st = Ok (v, st') ->
  st' = set_rle_hist (rle_hist st ++ [raw]) st
  /\ _rolling_mean (rle_hist st ++ [raw])
       (match n with
        | Some k => if k >? 0 then k else smooth_n cfg
        | None => smooth_n cfg
        end) = Ok v.
Proof. unfold _smooth_rle. intros H. minv. auto. Qed.

(** What [_theta_update_if_needed] leaves alone, and how it moves the
    ring buffers. *)
Lemma _theta_update_state cfg sm t d st u st' :
  _theta_update_if_needed cfg sm t d st = Ok (u, st') ->
  util_hist st' = util_hist st /\ temp_hist st' = temp_hist st
  /\ rle_hist st' = rle_hist st /\ rle_hist_ms st' = rle_hist_ms st
  /\ rle_hist_uni st' = rle_hist_uni st
  /\ rolling_peak st' = rolling_peak st /\ below_ctr st' = below_ctr st
  /\ _theta_index st' = _theta_index st /\ _theta_c st' = _theta_c st
  /\ _buf_dt st' = append_capped (_rb_len cfg) (_buf_dt st) d
  /\ _buf_rle_sm st'
     = (if enable_theta_clock cfg
        then append_capped (_rb_len cfg) (_buf_rle_sm st) sm
        else _buf_rle_sm st)
  /\ _buf_temp st'
     = (if enable_theta_clock cfg
        then match t with
             | Some x => append_capped (_rb_len cfg) (_buf_temp st) x
             | None => _buf_temp st
             end
        else _buf_temp st)
  /\ (_t0_s st' = _t0_s st
      \/ exists c, _t0_s st' = t0_next cfg (_t0_s st) c).
Proof.
  unfold _theta_update_if_needed. intros H.
  destruct (enable_theta_clock cfg); simpl in H; minv;
    [|repeat split; auto].
  destruct t; minv;
    match goal with
    | H : (if ?c then _ else _) _ = _ |- _ => destruct c
    end; minv; try (repeat split; auto; fail);
    match goal with
    | H : match ?l with [] => _ | _ => _ end _ = _ |- _ =>
        destruct l eqn:Hl
    end; minv; try (repeat split; auto; fail);
    match goal with
    | H : reestimate_t0 _ _ = Ok _ |- _ =>
        unfold reestimate_t0 in H;
        repeat (apply rbind_Ok in H; destruct H as (? & ? & H));
        inversion H; subst; clear H
    end;
    simpl; repeat split; auto; right; eexists; reflexivity.
Qed.

Lemma theta_advance_state cfg d st v st' :
  theta_advance cfg d st = Ok (v, st') ->
  util_hist st' = util_hist st /\ temp_hist st' = temp_hist st
  /\ rle_hist st' = rle_hist st /\ rle_hist_ms st' = rle_hist_ms st
  /\ rle_hist_uni st' = rle_hist_uni st
  /\ rolling_peak st' = rolling_peak st /\ below_ctr st' = below_ctr st
  /\ _t0_s st' = _t0_s st
  /\ _buf_dt st' = _buf_dt st /\ _buf_rle_sm st' = _buf_rle_sm st
  /\ _buf_temp st' = _buf_temp st.
Proof.
  unfold theta_advance. intros H.
  destruct (enable_theta_clock cfg); minv; repeat split; auto.
Qed.

Lemma _detect_collapse_state cfg sm u a t ts st c st' :
  _detect_collapse cfg sm u a t ts st = Ok (c, st') ->
  util_hist st' = util_hist st /\ temp_hist st' = temp_hist st
  /\ rle_hist st' = rle_hist st /\ rle_hist_ms st' = rle_hist_ms st
  /\ rle_hist_uni st' = rle_hist_uni st
  /\ _t0_s st' = _t0_s st
  /\ _theta_index st' = _theta_index st /\ _theta_c st' = _theta_c st
  /\ _buf_dt st' = _buf_dt st /\ _buf_rle_sm st' = _buf_rle_sm st
  /\ _buf_temp st' = _buf_temp st.
Proof.
  unfold _detect_collapse. intros H. minv.
  destruct (negb _); minv; [repeat split; auto|].
  destruct (_ && _); minv; repeat split; auto.
Qed.

(** ** Sessions: every trace entry comes from one call *)

Lemma run_samples_cons cfg x rest st tr stf :
  run_samples cfg (x :: rest) st = Ok (tr, stf) ->
  exists r st1 tr',
    call cfg x st = Ok (r, st1)
    /\ run_samples cfg rest st1 = Ok (tr', stf)
    /\ tr = (r, st1) :: tr'.
Proof.
  simpl. intros H. minv. eauto 6.
Qed.

Lemma run_samples_length cfg samples : forall st tr stf,
  run_samples cfg samples st = Ok (tr, stf) ->
  List.length tr = List.length samples.
Proof.
  induction samples as [|x rest IH]; intros st tr stf H.
  - simpl in H. minv. reflexivity.
  - apply run_samples_cons in H. destruct H as (r & st1 & tr' & _ & H & ->).
    simpl. f_equal. eauto.
Qed.

(** An invariant of the fed prefix, the results so far and the state,
    established initially and kept by every successful call, holds
    before the call that produced any given trace entry. *)
Lemma trace_entry
    (I : list Sample -> list RLEResult.t -> State -> Prop) cfg :
  (forall fed outs st x r st',
      I fed outs st -> call cfg x st = Ok (r, st') ->
      I (fed ++ [x]) (outs ++ [r]) st') ->
  forall samples st0 tr stf,
    I [] [] st0 ->
    run_samples cfg samples st0 = Ok (tr, stf) ->
    forall k r st,
      nth_error tr k = Some (r, st) ->
      exists x,
        nth_error samples k = Some x
        /\ I (firstn k samples) (map fst (firstn k tr)) (state_before st0 tr k)
        /\ call cfg x (state_before st0 tr k) = Ok (r, st).
Proof.
  intros Hstep samples. revert I Hstep.
  induction samples as [|x rest IH]; intros I Hstep st0 tr stf H0 Hrun k r st Hk.
  - simpl in Hrun. minv. destruct k; discriminate.
  - apply run_samples_cons in Hrun.
    destruct Hrun as (r0 & st1 & tr' & Hcall & Hrun & ->).
    destruct k as [|k].
    + simpl in Hk. inversion Hk; subst. exists x. simpl. auto.
    + simpl in Hk.
      destruct (IH (fun fed outs s => I (x :: fed) (r0 :: outs) s)) with
        (st0 := st1) (tr := tr') (stf := stf) (k := k) (r := r) (st := st)
        as (x' & Hx & HI & Hc); auto.
      * intros fed outs s x' r' s' HI Hc. exact (Hstep _ _ _ _ _ _ HI Hc).
      * exact (Hstep [] [] st0 x r0 st1 H0 Hcall).
      * exists x'.
        assert (Hsb : state_before st0 ((r0, st1) :: tr') (S k)
                      = state_before st1 tr' k).
        { destruct k as [|j]; simpl; [reflexivity|].
          destruct (nth_error tr' j) as [[? ?]|] eqn:Ej; [reflexivity|].
          apply nth_error_None in Ej.
          assert (S j < List.length tr')%nat by (apply nth_error_Some; congruence).
          lia. }
        rewrite Hsb. simpl. auto.
Qed.

Lemma session_inv args samples tr :
  session args samples = Ok tr ->
  exists stf, run_samples (init_config args) samples init_state = Ok (tr, stf).
Proof.
  unfold session.
  destruct (run_samples _ _ _) as [[tr' stf]|e]; [|discriminate].
  intros H; inversion H; subst. eauto.
Qed.

Lemma firstn_S_nth_error {A : Type} (l : list A) k x :
  nth_error l k = Some x -> firstn (S k) l = firstn k l ++ [x].
Proof.
  revert k. induction l as [|a l IH]; intros [|k] H; try discriminate.
  - simpl in H. inversion H. reflexivity.
  - simpl in H. simpl. f_equal. apply IH. exact H.
Qed.

(** ** Per-call facts *)

Lemma call_histories cfg x st r st' :
  call cfg x st = Ok (r, st') ->
  util_hist st' = util_hist st ++ [py_max 0 (py_min 100 (util_pct x))]
  /\ temp_hist st' = temp_hist st ++ temps_of [x]
  /\ rle_hist st' = rle_hist st ++ [RLEResult.rle_raw r]
  /\ rle_hist_ms st' = rle_hist_ms st ++ [RLEResult.rle_raw_ms r]
  /\ rle_hist_uni st' = rle_hist_uni st ++ [RLEResult.rle_raw_uni r]
  /\ _buf_dt st' = append_capped (_rb_len cfg) (_buf_dt st) (dt_s x)
  /\ _buf_rle_sm st'
     = (if enable_theta_clock cfg
        then append_capped (_rb_len cfg) (_buf_rle_sm st) (RLEResult.rle_smoothed r)
        else _buf_rle_sm st)
  /\ _buf_temp st'
     = (if enable_theta_clock cfg
        then match temp_c x with
             | Some t => append_capped (_rb_len cfg) (_buf_temp st) t
             | None => _buf_temp st
             end
        else _buf_temp st).
Proof.
  unfold call. intros H.
  apply compute_rle_inv in H.
  destruct H as (eta & sA & n_smooth & sB & sC & dtheta & sD & Hcc & _ & Hsm
                 & Hup & Hadv & _ & _ & _ & _ & _ & _ & _ & _ & Hdc & _).
  apply compute_components_state in Hcc.
  apply _smooth_rle_state in Hsm. destruct Hsm as [HsB _].
  apply _theta_update_state in Hup.
  destruct Hup as (U1 & U2 & U3 & U4 & U5 & _ & _ & _ & _ & U6 & U7 & U8 & _).
  apply theta_advance_state in Hadv.
  destruct Hadv as (A1 & A2 & A3 & A4 & A5 & _ & _ & _ & A6 & A7 & A8).
  apply _detect_collapse_state in Hdc.
  destruct Hdc as (D1 & D2 & D3 & D4 & D5 & _ & _ & _ & D6 & D7 & D8).
  simpl in D1, D2, D3, D4, D5, D6, D7, D8.
  rewrite D1, D2, D3, D4, D5, D6, D7, D8.
  rewrite A1, A2, A3, A4, A5, A6, A7, A8.
  rewrite U1, U2, U3, U4, U5, U6, U7, U8.
  subst sB sA. unfold temps_of. simpl flat_map.
  destruct (temp_c x); simpl; rewrite ?app_nil_r; repeat split; reflexivity.
Qed.

Lemma trace_inv
    (I : list Sample -> list RLEResult.t -> State -> Prop) cfg :
  (forall fed outs st x r st',
      I fed outs st -> call cfg x st = Ok (r, st') ->
      I (fed ++ [x]) (outs ++ [r]) st') ->
  forall samples st0 tr stf,
    I [] [] st0 ->
    run_samples cfg samples st0 = Ok (tr, stf) ->
    forall k r st,
      nth_error tr k = Some (r, st) ->
      I (firstn (S k) samples) (map fst (firstn (S k) tr)) st.
Proof.
  intros Hstep samples st0 tr stf H0 Hrun k r st Hk.
  destruct (trace_entry I cfg Hstep samples st0 tr stf H0 Hrun k r st Hk)
    as (x & Hx & HI & Hc).
  rewrite (firstn_S_nth_error _ _ _ Hx), (firstn_S_nth_error _ _ _ Hk).
  rewrite map_app. simpl. eauto.
Qed.

(** ** Ring buffers *)

Lemma len_app {A : Type} (l1 l2 : list A) : len (l1 ++ l2) = len l1 + len l2.
Proof. unfold len. rewrite length_app. lia. Qed.

Lemma len_nonneg {A : Type} (l : list A) : 0 <= len l.
Proof. unfold len. lia. Qed.

Lemma slice_from_neg {A : Type} (cap : Z) (l : list A) :
  1 <= cap ->
  slice_from (- cap) l = skipn (Z.to_nat (len l - cap)) l.
Proof.
  intros Hc. unfold slice_from.
  destruct (- cap <? 0) eqn:E; [|apply Z.ltb_ge in E; lia].
  f_equal. lia.
Qed.

Lemma len_slice_from_neg {A : Type} (cap : Z) (l : list A) :
  1 <= cap -> len (slice_from (- cap) l) = Z.min (len l) cap.
Proof.
  intros Hc. rewrite slice_from_neg by exact Hc.
  unfold len. rewrite length_skipn. lia.
Qed.

Lemma tl_skipn_app {A : Type} (l : list A) (x : A) : forall n,
  (n < List.length l)%nat ->
  tl (skipn n l ++ [x]) = skipn (S n) (l ++ [x]).
Proof.
  induction l as [|a l IH]; intros n Hn; simpl in Hn; [lia|].
  destruct n as [|n].
  - reflexivity.
  - change (skipn (S n) (a :: l)) with (skipn n l).
    change (skipn (S (S n)) ((a :: l) ++ [x])) with (skipn (S n) (l ++ [x])).
    apply IH. lia.
Qed.

(** Appending to a buffer holding the latest [cap] pushes leaves it
    holding the latest [cap] pushes: the element dropped is the oldest. *)
Lemma append_capped_latest (cap : Z) (l : list float) (x : float) :
  1 <= cap ->
  append_capped cap (slice_from (- cap) l) x = slice_from (- cap) (l ++ [x]).
Proof.
  intros Hc. unfold append_capped.
  rewrite len_app, len_slice_from_neg by exact Hc.
  rewrite !slice_from_neg by exact Hc.
  rewrite len_app. change (len [x]) with 1.
  pose proof (len_nonneg l) as Hl.
  destruct (Z.min (len l) cap + 1 >? cap) eqn:E.
  - apply Z.gtb_lt in E.
    replace (Z.to_nat (len l + 1 - cap)) with (S (Z.to_nat (len l - cap))) by lia.
    apply tl_skipn_app. unfold len in *. lia.
  - assert (Hlt : len l < cap).
    { destruct (Z.gtb_spec (Z.min (len l) cap + 1) cap); [discriminate|lia]. }
    replace (Z.to_nat (len l - cap)) with 0%nat by lia.
    replace (Z.to_nat (len l + 1 - cap)) with 0%nat by lia.
    reflexivity.
Qed.

Lemma temps_of_app l1 l2 : temps_of (l1 ++ l2) = temps_of l1 ++ temps_of l2.
Proof. unfold temps_of. apply flat_map_app. Qed.

Lemma buffers_follow_init cfg : buffers_follow cfg [] [] init_state.
Proof.
  unfold buffers_follow. simpl.
  destruct (enable_theta_clock cfg); repeat split; reflexivity.
Qed.

Lemma buffers_follow_step cfg fed outs st x r st' :
  _rb_len cfg = 1024 ->
  buffers_follow cfg fed outs st ->
  call cfg x st = Ok (r, st') ->
  buffers_follow cfg (fed ++ [x]) (outs ++ [r]) st'.
Proof.
  intros Hrb (I1 & I2 & I3 & I4 & I5 & I6 & I7 & I8) Hc.
  apply call_histories in Hc.
  destruct Hc as (C1 & C2 & C3 & C4 & C5 & C6 & C7 & C8).
  unfold buffers_follow.
  rewrite !map_app, temps_of_app. simpl map.
  rewrite C1, C2, C3, C4, C5, C6, C7, C8, Hrb.
  rewrite I1, I2, I3, I4, I5, I6, I7, I8.
  repeat split; try reflexivity.
  - apply append_capped_latest. lia.
  - destruct (enable_theta_clock cfg); [|reflexivity].
    apply append_capped_latest. lia.
  - destruct (enable_theta_clock cfg); [|reflexivity].
    unfold temps_of at 3. simpl.
    destruct (temp_c x); simpl.
    + apply append_capped_latest. lia.
    + rewrite app_nil_r. reflexivity.
Qed.

(** C1 (amended).  At every point of every session the five score and
    sensor histories hold every value appended so far, in order, so
    their length is the number of calls (of temperature readings for
    [temp_hist]): they have no capacity.  The three clock ring buffers
    hold exactly the latest 1024 values pushed, oldest first, so their
    length never exceeds 1024 and the value evicted is the oldest. *)
Theorem C1_histories_and_ring_buffers args samples tr :
  session args samples = Ok tr ->
  forall k r st,
    nth_error tr k = Some (r, st) ->
    let fed := firstn (S k) samples in
    let outs := map fst (firstn (S k) tr) in
    buffers_follow (init_config args) fed outs st
    /\ len (util_hist st) = Z.of_nat (S k)
    /\ len (rle_hist st) = Z.of_nat (S k)
    /\ len (rle_hist_ms st) = Z.of_nat (S k)
    /\ len (rle_hist_uni st) = Z.of_nat (S k)
    /\ len (temp_hist st) = len (temps_of fed)
    /\ len (_buf_dt st) = Z.min (Z.of_nat (S k)) 1024
    /\ len (_buf_rle_sm st) <= 1024
    /\ len (_buf_temp st) <= 1024.
Proof.
  intros Hs k r st Hk fed outs.
  apply session_inv in Hs. destruct Hs as (stf & Hrun).
  assert (HI : buffers_follow (init_config args) fed outs st).
  { apply (trace_inv (buffers_follow (init_config args)) (init_config args))
      with (st0 := init_state) (stf := stf) (r := r); auto.
    - intros. eapply buffers_follow_step; eauto.
    - apply buffers_follow_init. }
  split; [exact HI|].
  destruct HI as (I1 & I2 & I3 & I4 & I5 & I6 & I7 & I8).
  assert (Hfed : List.length fed = S k).
  { unfold fed. rewrite length_firstn.
    pose proof (run_samples_length _ _ _ _ _ Hrun) as Hl.
    assert (k < List.length tr)%nat by (apply nth_error_Some; congruence).
    lia. }
  assert (Houts : List.length outs = S k).
  { unfold outs. rewrite length_map, length_firstn.
    assert (k < List.length tr)%nat by (apply nth_error_Some; congruence).
    lia. }
  rewrite I1, I2, I3, I4, I5, I6, I7, I8.
  unfold len at 1 2 3 4. rewrite !length_map, Hfed, Houts.
  change (Z.neg 1024) with (Z.opp 1024).
  repeat split; try reflexivity.
  - rewrite len_slice_from_neg by lia. unfold len. rewrite length_map, Hfed.
    reflexivity.
  - destruct (enable_theta_clock _); [|unfold len; simpl; lia].
    rewrite len_slice_from_neg by lia. lia.
  - destruct (enable_theta_clock _); [|unfold len; simpl; lia].
    rewrite len_slice_from_neg by lia. lia.
Qed.

(** ** The collapse detector *)

Lemma _detect_collapse_warm_up cfg sm u a t ts st c st' :
  len (rle_hist st) < Z.max (smooth_n cfg) 5 ->
  _detect_collapse cfg sm u a t ts st = Ok (c, st') ->
  c = 0 /\ rolling_peak st' = 0%float /\ below_ctr st' = 0.
Proof.
  intros Hw. unfold _detect_collapse. intros H. minv.
  match goal with
  | H : (if negb ?c then _ else _) _ = _ |- _ => destruct c eqn:E; simpl in H
  end.
  - apply Z.geb_le in E. lia.
  - minv. auto.
Qed.

(** With the load gate closed the counter is reset, and a zero counter
    is below any hysteresis of at least one sample. *)
Lemma _detect_collapse_gate_closed cfg sm u a t ts st c st' :
  (util_gate_pct cfg <? u)%float = false ->
  (a_load_gate cfg <? a)%float = false ->
  1 <= hysteresis_s cfg ->
  _detect_collapse cfg sm u a t ts st = Ok (c, st') ->
  c = 0.
Proof.
  intros Hu Ha Hh. unfold _detect_collapse. intros H. minv.
  destruct (negb _); minv; [reflexivity|].
  rewrite Hu, Ha in *. simpl in *. minv. simpl.
  match goal with
  | H : _ = Ok ?n |- context [0 >=? ?n] =>
      assert (Hn : 1 <= n);
      [ destruct (theta_window_on cfg (hysteresis_theta cfg));
        [ apply rbind_Ok in H; destruct H as (k & _ & Hk);
          inversion Hk; lia
        | inversion H; lia ]
      | destruct (0 >=? n) eqn:E; [apply Z.geb_le in E; lia|reflexivity] ]
  end.
Qed.

Lemma call_detector_input cfg x st r st' :
  call cfg x st = Ok (r, st') ->
  exists sE,
    rle_hist sE = rle_hist st ++ [RLEResult.rle_raw r]
    /\ _detect_collapse cfg (RLEResult.rle_smoothed r) (util_pct x)
         (RLEResult.a_load r) (temp_c x) (RLEResult.t_sustain_s r) sE
       = Ok (RLEResult.collapse r, st')
    /\ RLEResult.rolling_peak r = rolling_peak st'.
Proof.
  unfold call. intros H.
  apply compute_rle_inv in H.
  destruct H as (eta & sA & n_smooth & sB & sC & dtheta & sD & Hcc & _ & Hsm
                 & Hup & Hadv & _ & _ & _ & _ & _ & _ & _ & _ & Hdc & Hpk & _).
  eexists. split; [|split; [exact Hdc|exact Hpk]].
  apply compute_components_state in Hcc.
  apply _smooth_rle_state in Hsm. destruct Hsm as [HsB _].
  apply _theta_update_state in Hup. destruct Hup as (_ & _ & U3 & _).
  apply theta_advance_state in Hadv. destruct Hadv as (_ & _ & A3 & _).
  simpl. rewrite A3, U3. subst sB sA. destruct (temp_c x); reflexivity.
Qed.

(** C5.  In a session, each of the first [max(smooth_n, 5) - 1] calls
    reports collapse 0 and rolling peak 0 and leaves the hysteresis
    counter at 0, whatever the samples are. *)
Theorem C5_warm_up_reports_no_collapse args samples tr :
  session args samples = Ok tr ->
  forall k r st,
    nth_error tr k = Some (r, st) ->
    Z.of_nat k < Z.max (smooth_n (init_config args)) 5 - 1 ->
    RLEResult.collapse r = 0
    /\ RLEResult.rolling_peak r = 0%float
    /\ below_ctr st = 0.
Proof.
  intros Hs k r st Hk Hlt.
  apply session_inv in Hs. destruct Hs as (stf & Hrun).
  destruct (trace_entry (buffers_follow (init_config args)) (init_config args))
    with (samples := samples) (st0 := init_state) (tr := tr) (stf := stf)
         (k := k) (r := r) (st := st)
    as (x & Hx & HI & Hc); auto.
  - intros. eapply buffers_follow_step; eauto.
  - apply buffers_follow_init.
  - destruct HI as (_ & _ & I3 & _).
    apply call_detector_input in Hc.
    destruct Hc as (sE & HE & Hdc & Hpk).
    apply _detect_collapse_warm_up in Hdc.
    + destruct Hdc as (-> & Hp & Hb). rewrite Hpk. auto.
    + assert (k < List.length tr)%nat by (apply nth_error_Some; congruence).
      rewrite HE, I3, len_app. unfold len.
      rewrite length_map, length_map, length_firstn. simpl in *. lia.
Qed.

Lemma call_gate_closed cfg x st r st' :
  util_gate_pct cfg = 60%float ->
  a_load_gate cfg = 0.75%float ->
  1 <= hysteresis_s cfg ->
  call cfg x st = Ok (r, st') ->
  (util_pct x <? 60)%float = true ->
  (RLEResult.a_load r <? 0.75)%float = true ->
  RLEResult.collapse r = 0.
Proof.
  intros Hug Hag Hh Hc Hu Ha.
  apply call_detector_input in Hc.
  destruct Hc as (sE & _ & Hdc & _).
  eapply _detect_collapse_gate_closed; [| |exact Hh|exact Hdc].
  - rewrite Hug. apply ltb_asym. exact Hu.
  - rewrite Hag. apply ltb_asym. exact Ha.
Qed.

(** C6.  With the default gate thresholds (utilization 60, load factor
    0.75, hysteresis of at least one sample; the default is 7), a
    session in which every sample has utilization below 60 and load
    factor below 0.75 reports collapse 0 at every step. *)
Theorem C6_no_collapse_while_gate_closed args samples tr :
  util_gate_pct args = 60%float ->
  a_load_gate args = 0.75%float ->
  1 <= hysteresis_s args ->
  session args samples = Ok tr ->
  Forall2 (fun x rs => (util_pct x <? 60)%float = true
                       /\ (RLEResult.a_load (fst rs) <? 0.75)%float = true)
          samples tr ->
  Forall (fun rs => RLEResult.collapse (fst rs) = 0) tr.
Proof.
  intros Hug Hag Hh Hs Hall.
  apply session_inv in Hs. destruct Hs as (stf & Hrun).
  revert Hrun Hall. generalize init_state as st0.
  revert tr. induction samples as [|x rest IH]; intros tr st0 Hrun Hall.
  - inversion Hall. constructor.
  - apply run_samples_cons in Hrun.
    destruct Hrun as (r & st1 & tr' & Hc & Hrun & ->).
    inversion Hall as [|? ? ? ? [Hu Ha] Hrest]; subst.
    constructor.
    + simpl. eapply call_gate_closed; [| | |exact Hc|exact Hu|exact Ha]; simpl; auto.
    + eapply IH; eauto.
Qed.

(** C10.  Every normalised score of every call is computed with the CPU
    anchors 0.3, 5.0 and 67: [compute_rle] has no device argument and
    calls [normalize_rle] with its default device type. *)
Theorem C10_normalisation_uses_cpu_anchors args samples tr :
  session args samples = Ok tr ->
  Forall2 (fun x rs =>
             let r := fst rs in
             let u := py_max 0 (py_min 100 (util_pct x)) in
             let expected := py_max (expected_rle 0.3 5.0 67.0 u) 1e-6 in
             let norm v := py_max 0 (py_min 1 (v / expected)) in
             RLEResult.rle_norm r = norm (RLEResult.rle_smoothed r)
             /\ RLEResult.rle_norm_ms r = norm (RLEResult.rle_smoothed_ms r)
             /\ RLEResult.rle_norm_uni r = norm (RLEResult.rle_smoothed_uni r))
          samples tr.
Proof.
  intros Hs.
  apply session_inv in Hs. destruct Hs as (stf & Hrun).
  revert Hrun. generalize init_state as st0.
  revert tr. induction samples as [|x rest IH]; intros tr st0 Hrun.
  - simpl in Hrun. minv. constructor.
  - apply run_samples_cons in Hrun.
    destruct Hrun as (r & st1 & tr' & Hc & Hrun & ->).
    constructor; [|eapply IH; eauto].
    unfold call in Hc. apply compute_rle_inv in Hc.
    destruct Hc as (eta & sA & n_smooth & sB & sC & dtheta & sD & _ & _ & _
                    & _ & _ & _ & _ & _ & _ & _ & N1 & N2 & N3 & _).
    assert (Hn : forall v w, normalize_rle v (util_pct x) "cpu" = Ok w ->
              w = py_max 0 (py_min 1
                    (v / py_max (expected_rle 0.3 5.0 67.0
                                   (py_max 0 (py_min 100 (util_pct x)))) 1e-6))).
    { intros v w. unfold normalize_rle. simpl. unfold fdiv.
      destruct (_ =? 0)%float; [discriminate|].
      simpl. intros H; inversion H; reflexivity. }
    simpl. auto.
Qed.

(** ** Sustain time *)

(** C7 (amended).  With fewer than two temperature samples the sustain
    time is [max_t]; otherwise it is
    [clamp((limit - T[-1]) / max((T[-1] - T[-2]) / max(dt_s, 1e-3), 1e-3), 1, max_t)]:
    the interval itself is floored at 1e-3 before it divides the
    temperature step.  No branch raises.  For [dt_s >= 1e-3] the floor is
    idle and the value is the formula of the specification. *)
Theorem C7_t_sustain_floors_the_interval
    (temp_limit : float) (hist : list float) (dt max_t : float) :
  compute_t_sustain temp_limit hist dt max_t
  = Ok (if len hist <? 2 then max_t
        else clamp ((temp_limit - last_elt hist)
                    / py_max ((last_elt hist - last_but_one hist)
                              / py_max dt 1e-3) 1e-3)
                   1 max_t)
  /\ ((1e-3 <=? dt)%float = true ->
      compute_t_sustain temp_limit hist dt max_t
      = Ok (t_sustain_spec temp_limit hist dt max_t)).
Proof.
  assert (Hc : compute_t_sustain temp_limit hist dt max_t
               = Ok (if len hist <? 2 then max_t
                     else clamp ((temp_limit - last_elt hist)
                                 / py_max ((last_elt hist - last_but_one hist)
                                           / py_max dt 1e-3) 1e-3)
                                1 max_t)).
  { unfold compute_t_sustain. destruct (len hist <? 2); [reflexivity|].
    rewrite fdiv_guarded by reflexivity. simpl.
    rewrite fdiv_guarded by reflexivity. reflexivity. }
  split; [exact Hc|].
  intros Hdt. rewrite Hc. unfold t_sustain_spec.
  destruct (len hist <? 2); [reflexivity|].
  unfold py_max at 2. rewrite (leb_not_ltb _ _ Hdt). reflexivity.
Qed.

(** ** Control decisions *)

Lemma control_decision_state cur pred hr st :
  exists d,
    control_decision cur pred hr st = Ok (d, st)
    /\ ControlDecision.state d
       = (let p := match pred with Some p => p | None => cur end in
          if (cur <? 0.2)%float || (p <? 0.1)%float then "emergency"
          else if (cur <? 0.4)%float || (p <? 0.3)%float then "aggressive"
          else if (cur <? 0.6)%float || (p <? 0.5)%float then "moderate"
          else "maintain")%string.
Proof.
  unfold control_decision. cbv zeta.
  destruct (_ || _); [eexists; split; reflexivity|].
  destruct (_ || _); [eexists; split; reflexivity|].
  destruct (_ || _); eexists; split; reflexivity.
Qed.

Lemma ltb_weaken (x a b : float) :
  (a <? b)%float = true -> (x <? a)%float = true -> (x <? b)%float = true.
Proof. intros Hab Hx. exact (ltb_trans _ _ _ Hx Hab). Qed.

(** C3 (amended).  [control_decision] returns without touching the engine
    state, and the same decision from every state.  Its state is the more
    severe of two ladders: the current score against 0.2/0.4/0.6 and the
    predicted score (the current one when absent) against 0.1/0.3/0.5.
    With the prediction absent this is the 0.2/0.4/0.6 ladder evaluated
    on [min(current, predicted)]. *)
Theorem C3_control_decision_two_ladders :
  (forall cur pred hr st,
      exists d,
        control_decision cur pred hr st = Ok (d, st)
        /\ (forall st2, control_decision cur pred hr st2 = Ok (d, st2))
        /\ ControlDecision.state d
           = more_severe (ladder 0.2 0.4 0.6 cur)
                         (ladder 0.1 0.3 0.5
                                 (match pred with Some p => p | None => cur end)))
  /\ (forall cur hr st,
        exists d,
          control_decision cur None hr st = Ok (d, st)
          /\ ControlDecision.state d = decide_on_min 0.2 0.4 0.6 cur cur).
Proof.
  split.
  - intros cur pred hr st.
    destruct (control_decision_state cur pred hr st) as (d & Hd & Hs).
    exists d. split; [exact Hd|]. split.
    + intros st2.
      destruct (control_decision_state cur pred hr st2) as (d2 & Hd2 & Hs2).
      unfold control_decision in *. cbv zeta in *.
      repeat match goal with
             | H : (if ?c then _ else _) _ = _ |- _ => destruct c
             end;
        unfold ret in *; inversion Hd; subst; reflexivity.
    + rewrite Hs. cbv zeta. unfold ladder.
      destruct (cur <? 0.2)%float, (cur <? 0.4)%float, (cur <? 0.6)%float;
        destruct (_ <? 0.1)%float, (_ <? 0.3)%float, (_ <? 0.5)%float;
        reflexivity.
  - intros cur hr st.
    destruct (control_decision_state cur None hr st) as (d & Hd & Hs).
    exists d. split; [exact Hd|].
    rewrite Hs. cbv zeta. unfold decide_on_min, ladder, py_min.
    assert (H12 : (cur <? 0.1)%float = true -> (cur <? 0.2)%float = true)
      by (apply ltb_weaken; reflexivity).
    assert (H34 : (cur <? 0.3)%float = true -> (cur <? 0.4)%float = true)
      by (apply ltb_weaken; reflexivity).
    assert (H56 : (cur <? 0.5)%float = true -> (cur <? 0.6)%float = true)
      by (apply ltb_weaken; reflexivity).
    destruct (cur <? cur)%float;
      destruct (cur <? 0.2)%float, (cur <? 0.1)%float; simpl;
      try reflexivity; try (specialize (H12 eq_refl); discriminate);
      destruct (cur <? 0.4)%float, (cur <? 0.3)%float; simpl;
      try reflexivity; try (specialize (H34 eq_refl); discriminate);
      destruct (cur <? 0.6)%float, (cur <? 0.5)%float; simpl;
      try reflexivity; try (specialize (H56 eq_refl); discriminate).
Qed.

(** ** The internal period *)

Lemma call_t0 cfg x st r st' :
  call cfg x st = Ok (r, st') ->
  _t0_s st' = _t0_s st \/ exists c, _t0_s st' = t0_next cfg (_t0_s st) c.
Proof.
  unfold call. intros H.
  apply compute_rle_inv in H.
  destruct H as (eta & sA & n_smooth & sB & sC & dtheta & sD & Hcc & _ & Hsm
                 & Hup & Hadv & _ & _ & _ & _ & _ & _ & _ & _ & Hdc & _).
  apply compute_components_state in Hcc.
  apply _smooth_rle_state in Hsm. destruct Hsm as [HsB _].
  apply _theta_update_state in Hup.
  destruct Hup as (_ & _ & _ & _ & _ & _ & _ & _ & _ & _ & _ & _ & U).
  apply theta_advance_state in Hadv.
  destruct Hadv as (_ & _ & _ & _ & _ & _ & _ & A & _).
  apply _detect_collapse_state in Hdc.
  destruct Hdc as (_ & _ & _ & _ & _ & D & _).
  simpl in D. rewrite D, A.
  assert (HB : _t0_s sB = _t0_s st).
  { subst sB sA. destruct (temp_c x); reflexivity. }
  rewrite HB in U. exact U.
Qed.

(** The rate limiter: a re-estimated period that is a number lies between
    the two bounds, provided the bounds are ordered. *)
Lemma t0_next_bounds cfg t0 c :
  (t0 * 0.90 <=? t0 * 1.10)%float = true ->
  is_number (t0_next cfg t0 c) = true ->
  (t0 * 0.90 <=? t0_next cfg t0 c)%float = true
  /\ (t0_next cfg t0 c <=? t0 * 1.10)%float = true.
Proof.
  intros Hord. unfold t0_next. cbv zeta.
  set (ema := ((1 - 0.2) * t0 + 0.2 * clamp_period cfg c)%float).
  set (down := (t0 * 0.90)%float) in *.
  set (up := (t0 * 1.10)%float) in *.
  destruct (leb_is_number _ _ Hord) as [Hdn Hup].
  unfold py_min, py_max.
  destruct (ema <? down)%float eqn:E1.
  - rewrite (leb_not_ltb _ _ Hord). intros _.
    split; [apply leb_refl; exact Hdn|exact Hord].
  - destruct (up <? ema)%float eqn:E2.
    + intros _. split; [exact Hord|apply leb_refl; exact Hup].
    + intros Hn. split; apply not_ltb_leb; auto.
Qed.

(** The candidate period is clamped into the configured range. *)
Lemma clamp_period_in_range cfg c :
  (theta_min_s cfg <=? theta_max_s cfg)%float = true ->
  is_number c = true ->
  (theta_min_s cfg <=? clamp_period cfg c)%float = true
  /\ (clamp_period cfg c <=? theta_max_s cfg)%float = true.
Proof.
  intros Hord Hc. unfold clamp_period.
  destruct (leb_is_number _ _ Hord) as [Hlo Hhi].
  unfold py_min, py_max.
  destruct (c <? theta_min_s cfg)%float eqn:E1.
  - rewrite (leb_not_ltb _ _ Hord).
    split; [apply leb_refl; exact Hlo|exact Hord].
  - destruct (theta_max_s cfg <? c)%float eqn:E2.
    + split; [exact Hord|apply leb_refl; exact Hhi].
    + split; apply not_ltb_leb; auto.
Qed.

End Properties.

(** ** Independence of the core outputs from the micro-scale paths *)

Lemma agree_bind {A B : Type} (P : A -> A -> Prop) (Q : B -> B -> Prop)
    s t (m1 m2 : M A) (f1 f2 : A -> M B) :
  agree_at P s t m1 m2 ->
  (forall a b s1 t1, P a b -> core_view s1 = core_view t1 ->
                     agree_at Q s1 t1 (f1 a) (f2 b)) ->
  agree_at Q s t (bind m1 f1) (bind m2 f2).
Proof.
  intros Hm Hf a s' b t' H1 H2. unfold bind in H1, H2.
  destruct (m1 s) as [[a1 s1]|] eqn:E1; [|discriminate].
  destruct (m2 t) as [[b1 t1]|] eqn:E2; [|discriminate].
  destruct (Hm a1 s1 b1 t1 E1 E2) as [HP Hc].
  exact (Hf a1 b1 s1 t1 HP Hc a s' b t' H1 H2).
Qed.

Lemma agree_get_bind {B : Type} (Q : B -> B -> Prop) s t (k1 k2 : State -> M B) :
  agree_at Q s t (k1 s) (k2 t) ->
  agree_at Q s t (bind get k1) (bind get k2).
Proof. intros H a s' b t'. unfold bind, get. apply H. Qed.

Lemma agree_ret {A : Type} (P : A -> A -> Prop) s t a b :
  core_view s = core_view t -> P a b -> agree_at P s t (ret a) (ret b).
Proof.
  intros Hc HP a' s' b' t' H1 H2. unfold ret in *.
  inversion H1; inversion H2; subst. auto.
Qed.

Lemma agree_lift {A : Type} (P : A -> A -> Prop) s t (r1 r2 : result A) :
  core_view s = core_view t ->
  (forall a b, r1 = Ok a -> r2 = Ok b -> P a b) ->
  agree_at P s t (lift r1) (lift r2).
Proof.
  intros Hc HP a s' b t' H1 H2. unfold lift in *.
  destruct r1; [|discriminate]. destruct r2; [|discriminate].
  inversion H1; inversion H2; subst. auto.
Qed.

Lemma agree_lift_eq {A : Type} s t (r1 r2 : result A) :
  core_view s = core_view t -> r1 = r2 -> agree_at eq s t (lift r1) (lift r2).
Proof.
  intros Hc ->. apply agree_lift; [exact Hc|]. congruence.
Qed.

Lemma agree_modify s t (f g : State -> State) :
  core_view (f s) = core_view (g t) ->
  agree_at (fun _ _ => True) s t (modify f) (modify g).
Proof.
  intros Hc a s' b t' H1 H2. unfold modify in *.
  inversion H1; inversion H2; subst. auto.
Qed.

Lemma agree_weaken {A : Type} (P Q : A -> A -> Prop) s t (m1 m2 : M A) :
  (forall a b, P a b -> Q a b) -> agree_at P s t m1 m2 -> agree_at Q s t m1 m2.
Proof.
  intros HPQ H a s' b t' H1 H2. destruct (H a s' b t' H1 H2). auto.
Qed.

(** The field equalities packed in an equality of core views. *)
Lemma core_view_fields s t :
  core_view s = core_view t ->
  util_hist s = util_hist t /\ temp_hist s = temp_hist t
  /\ rle_hist s = rle_hist t /\ rolling_peak s = rolling_peak t
  /\ below_ctr s = below_ctr t /\ _t0_s s = _t0_s t
  /\ _theta_index s = _theta_index t /\ _theta_c s = _theta_c t
  /\ _since_theta_update_s s = _since_theta_update_s t
  /\ _buf_rle_sm s = _buf_rle_sm t /\ _buf_temp s = _buf_temp t
  /\ _buf_dt s = _buf_dt t.
Proof.
  intros H.
  repeat split;
    match goal with
    | |- ?f s = ?f t => change (f (core_view s) = f (core_view t)); rewrite H; reflexivity
    end.
Qed.

Lemma core_view_intro s t :
  util_hist s = util_hist t -> temp_hist s = temp_hist t ->
  rle_hist s = rle_hist t -> rolling_peak s = rolling_peak t ->
  below_ctr s = below_ctr t -> _t0_s s = _t0_s t ->
  _theta_index s = _theta_index t -> _theta_c s = _theta_c t ->
  _since_theta_update_s s = _since_theta_update_s t ->
  _buf_rle_sm s = _buf_rle_sm t -> _buf_temp s = _buf_temp t ->
  _buf_dt s = _buf_dt t ->
  core_view s = core_view t.
Proof.
  intros. unfold core_view, set_rle_hist_ms, set_rle_hist_uni. simpl.
  congruence.
Qed.

(** A state function that commutes with the core view preserves equal
    core views. *)
Ltac core_step Hc :=
  let F := fresh "F" in
  pose proof (core_view_fields _ _ Hc) as F;
  destruct F as (?F & ?F & ?F & ?F & ?F & ?F & ?F & ?F & ?F & ?F & ?F & ?F);
  apply core_view_intro; simpl; congruence.

Section C9.
Context {lib : PyLib}.
Variables (cfg : Config) (b1 b2 : bool).
Let cfg1 := with_micro_scale b1 cfg.
Let cfg2 := with_micro_scale b2 cfg.

Lemma compute_components_agree u tp p d s t :
  core_view s = core_view t ->
  agree_at eq s t (compute_components cfg1 u tp p d)
                  (compute_components cfg2 u tp p d).
Proof.
  intros Hc. unfold compute_components.
  eapply agree_bind; [apply agree_modify; core_step Hc|].
  intros _ _ s1 t1 _ Hc1.
  eapply agree_bind.
  { destruct tp; [apply agree_modify; core_step Hc1|apply agree_ret; auto]. }
  intros _ _ s2 t2 _ Hc2.
  apply agree_get_bind.
  pose proof (core_view_fields _ _ Hc2) as F.
  destruct F as (F1 & F2 & F3 & F4 & F5 & F6 & F7 & F8 & F9 & F10 & F11 & F12).
  eapply agree_bind.
  { apply agree_lift_eq; [exact Hc2|].
    unfold theta_window_on, _theta_window_to_n, _mean_dt. simpl.
    rewrite F12, F6. reflexivity. }
  intros n ? s3 t3 <- Hc3.
  rewrite F1.
  eapply agree_bind; [apply agree_lift_eq; [exact Hc3|reflexivity]|].
  intros stdev ? s4 t4 <- Hc4.
  eapply agree_bind; [apply agree_lift_eq; [exact Hc4|reflexivity]|].
  intros stab ? s5 t5 <- Hc5.
  eapply agree_bind; [apply agree_lift_eq; [exact Hc5|reflexivity]|].
  intros al ? s6 t6 <- Hc6.
  rewrite F2.
  eapply agree_bind; [apply agree_lift_eq; [exact Hc6|reflexivity]|].
  intros ts ? s7 t7 <- Hc7.
  apply agree_ret; auto.
Qed.

Lemma _smooth_rle_agree raw n s t :
  core_view s = core_view t ->
  agree_at eq s t (_smooth_rle cfg1 raw n) (_smooth_rle cfg2 raw n).
Proof.
  intros Hc. unfold _smooth_rle.
  eapply agree_bind; [apply agree_modify; core_step Hc|].
  intros _ _ s1 t1 _ Hc1.
  apply agree_get_bind.
  pose proof (core_view_fields _ _ Hc1) as F.
  destruct F as (F1 & F2 & F3 & _).
  rewrite F3. apply agree_lift_eq; [exact Hc1|reflexivity].
Qed.

Lemma _theta_update_if_needed_agree sm tp d s t :
  core_view s = core_view t ->
  agree_at eq s t (_theta_update_if_needed cfg1 sm tp d)
                  (_theta_update_if_needed cfg2 sm tp d).
Proof.
  intros Hc. unfold _theta_update_if_needed.
  change (enable_theta_clock cfg1) with (enable_theta_clock cfg).
  change (enable_theta_clock cfg2) with (enable_theta_clock cfg).
  destruct (enable_theta_clock cfg); simpl.
  - eapply agree_bind; [apply agree_modify; core_step Hc|].
    intros _ _ s1 t1 _ Hc1.
    eapply agree_bind.
    { destruct tp; [apply agree_modify; core_step Hc1|apply agree_ret; auto]. }
    intros _ _ s2 t2 _ Hc2.
    eapply agree_bind; [apply agree_modify; core_step Hc2|].
    intros _ _ s3 t3 _ Hc3.
    eapply agree_bind; [apply agree_modify; core_step Hc3|].
    intros _ _ s4 t4 _ Hc4.
    apply agree_get_bind.
    pose proof (core_view_fields _ _ Hc4) as F.
    destruct F as (_ & _ & _ & _ & _ & _ & _ & _ & F9 & _).
    rewrite F9.
    destruct (_ <? _)%float.
    + apply agree_weaken with (P := eq); [auto|]. apply agree_ret; auto.
    + eapply agree_bind; [apply agree_modify; core_step Hc4|].
      intros _ _ s5 t5 _ Hc5.
      apply agree_get_bind.
      pose proof (core_view_fields _ _ Hc5) as G.
      destruct G as (_ & _ & _ & _ & _ & _ & _ & _ & _ & _ & _ & G12).
      rewrite G12.
      destruct (_buf_dt t5) eqn:Eb.
      * apply agree_ret; auto.
      * eapply agree_bind.
        { apply agree_lift_eq; [exact Hc5|].
          change (reestimate_t0 cfg (core_view s5) = reestimate_t0 cfg (core_view t5)).
          rewrite Hc5. reflexivity. }
        intros t0 ? s6 t6 <- Hc6.
        apply agree_weaken with (P := fun _ _ => True); [intros [] []; auto|].
        apply agree_modify. core_step Hc6.
  - apply agree_weaken with (P := fun _ _ => True); [intros [] []; auto|].
    apply agree_modify. core_step Hc.
Qed.

Lemma theta_advance_agree d s t :
  core_view s = core_view t ->
  agree_at eq s t (theta_advance cfg1 d) (theta_advance cfg2 d).
Proof.
  intros Hc. unfold theta_advance.
  change (enable_theta_clock cfg1) with (enable_theta_clock cfg).
  change (enable_theta_clock cfg2) with (enable_theta_clock cfg).
  destruct (enable_theta_clock cfg); [|apply agree_ret; auto].
  apply agree_get_bind.
  pose proof (core_view_fields _ _ Hc) as F.
  destruct F as (_ & _ & _ & _ & _ & F6 & F7 & F8 & _ & _ & _ & F12).
  rewrite F6, F7, F8, F12.
  eapply agree_bind; [apply agree_lift_eq; [exact Hc|reflexivity]|].
  intros dth ? s1 t1 <- Hc1.
  eapply agree_bind; [apply agree_modify; core_step Hc1|].
  intros _ _ s2 t2 _ Hc2.
  eapply agree_bind; [apply agree_modify; core_step Hc2|].
  intros _ _ s3 t3 _ Hc3.
  apply agree_ret; auto.
Qed.

Lemma _detect_collapse_agree sm u a tp ts s t :
  core_view s = core_view t ->
  agree_at eq s t (_detect_collapse cfg1 sm u a tp ts)
                  (_detect_collapse cfg2 sm u a tp ts).
Proof.
  intros Hc. unfold _detect_collapse.
  apply agree_get_bind.
  pose proof (core_view_fields _ _ Hc) as F.
  destruct F as (_ & _ & F3 & _).
  rewrite F3.
  change (smooth_n cfg1) with (smooth_n cfg).
  change (smooth_n cfg2) with (smooth_n cfg).
  destruct (negb _).
  - eapply agree_bind; [apply agree_modify; core_step Hc|].
    intros _ _ s1 t1 _ Hc1.
    eapply agree_bind; [apply agree_modify; core_step Hc1|].
    intros _ _ s2 t2 _ Hc2.
    apply agree_ret; auto.
  - eapply agree_bind; [apply agree_modify; core_step Hc|].
    intros _ _ s1 t1 _ Hc1.
    apply agree_get_bind.
    pose proof (core_view_fields _ _ Hc1) as G.
    destruct G as (_ & G2 & _ & G4 & _).
    rewrite G2, G4.
    change (util_gate_pct cfg1) with (util_gate_pct cfg).
    change (util_gate_pct cfg2) with (util_gate_pct cfg).
    change (a_load_gate cfg1) with (a_load_gate cfg).
    change (a_load_gate cfg2) with (a_load_gate cfg).
    change (drop_frac cfg1) with (drop_frac cfg).
    change (drop_frac cfg2) with (drop_frac cfg).
    eapply agree_bind.
    { destruct (_ && _); apply agree_modify; core_step Hc1. }
    intros _ _ s2 t2 _ Hc2.
    apply agree_get_bind.
    pose proof (core_view_fields _ _ Hc2) as K.
    destruct K as (_ & _ & _ & _ & K5 & _).
    eapply agree_bind.
    { apply agree_lift_eq; [exact Hc2|].
      change (theta_window_on cfg1) with (theta_window_on cfg).
      change (theta_window_on cfg2) with (theta_window_on cfg).
      change (hysteresis_theta cfg1) with (hysteresis_theta cfg).
      change (hysteresis_theta cfg2) with (hysteresis_theta cfg).
      change (_theta_window_to_n cfg1 s2) with (_theta_window_to_n cfg (core_view s2)).
      change (_theta_window_to_n cfg2 t2) with (_theta_window_to_n cfg (core_view t2)).
      rewrite Hc2. reflexivity. }
    intros hs ? s3 t3 <- Hc3.
    rewrite K5.
    apply agree_ret; auto.
Qed.

Lemma agree_lift_any {A : Type} s t (r1 r2 : result A) :
  core_view s = core_view t ->
  agree_at (fun _ _ => True) s t (lift r1) (lift r2).
Proof. intros Hc. apply agree_lift; auto. Qed.

Lemma compute_rle_agree u tp p d s t :
  core_view s = core_view t ->
  agree_at (fun r1 r2 => core_outputs r1 = core_outputs r2) s t
           (compute_rle cfg1 u tp p d) (compute_rle cfg2 u tp p d).
Proof.
  intros Hc. unfold compute_rle.
  eapply agree_bind; [apply compute_components_agree; exact Hc|].
  intros [[[eta stab] al] ts] ? s1 t1 <- Hc1.
  eapply agree_bind; [apply agree_lift_eq; [exact Hc1|reflexivity]|].
  intros inv ? s2 t2 <- Hc2.
  eapply agree_bind; [apply agree_lift_eq; [exact Hc2|reflexivity]|].
  intros raw ? s3 t3 <- Hc3.
  apply agree_get_bind.
  eapply agree_bind.
  { apply agree_lift_eq; [exact Hc3|].
    change (theta_window_on cfg1) with (theta_window_on cfg).
    change (theta_window_on cfg2) with (theta_window_on cfg).
    change (smooth_window_theta cfg1) with (smooth_window_theta cfg).
    change (smooth_window_theta cfg2) with (smooth_window_theta cfg).
    change (_theta_window_to_n cfg1 s3) with (_theta_window_to_n cfg (core_view s3)).
    change (_theta_window_to_n cfg2 t3) with (_theta_window_to_n cfg (core_view t3)).
    rewrite Hc3. reflexivity. }
  intros n_smooth ? s4 t4 <- Hc4.
  eapply agree_bind; [apply _smooth_rle_agree; exact Hc4|].
  intros sm ? s5 t5 <- Hc5.
  eapply agree_bind; [apply _theta_update_if_needed_agree; exact Hc5|].
  intros [] ? s6 t6 <- Hc6.
  eapply agree_bind; [apply theta_advance_agree; exact Hc6|].
  intros [dtheta gap] ? s7 t7 <- Hc7.
  apply agree_get_bind.
  eapply agree_bind; [apply agree_lift_any; exact Hc7|].
  intros [[[[[Fm1 Fq1] Fs1] Fp1] G1] lG1] [[[[[Fm2 Fq2] Fs2] Fp2] G2] lG2]
         s8 t8 _ Hc8.
  eapply agree_bind; [apply agree_modify; core_step Hc8|].
  intros _ _ s9 t9 _ Hc9.
  apply agree_get_bind.
  eapply agree_bind; [apply agree_lift_any; exact Hc9|].
  intros sms1 sms2 s10 t10 _ Hc10.
  eapply agree_bind; [apply agree_modify; core_step Hc10|].
  intros _ _ s11 t11 _ Hc11.
  apply agree_get_bind.
  eapply agree_bind; [apply agree_lift_any; exact Hc11|].
  intros su1 su2 s12 t12 _ Hc12.
  eapply agree_bind; [apply agree_lift_eq; [exact Hc12|reflexivity]|].
  intros inv' ? s13 t13 <- Hc13.
  eapply agree_bind; [apply agree_lift_eq; [exact Hc13|reflexivity]|].
  intros eth ? s14 t14 <- Hc14.
  eapply agree_bind; [apply agree_lift_eq; [exact Hc14|reflexivity]|].
  intros epw ? s15 t15 <- Hc15.
  eapply agree_bind; [apply agree_lift_eq; [exact Hc15|reflexivity]|].
  intros nc ? s16 t16 <- Hc16.
  eapply agree_bind; [apply agree_lift_any; exact Hc16|].
  intros nm1 nm2 s17 t17 _ Hc17.
  eapply agree_bind; [apply agree_lift_any; exact Hc17|].
  intros nu1 nu2 s18 t18 _ Hc18.
  eapply agree_bind; [apply _detect_collapse_agree; exact Hc18|].
  intros col ? s19 t19 <- Hc19.
  apply agree_get_bind.
  pose proof (core_view_fields _ _ Hc19) as F.
  destruct F as (_ & _ & _ & F4 & _ & F6 & F7 & _).
  change (enable_theta_clock cfg1) with (enable_theta_clock cfg).
  change (enable_theta_clock cfg2) with (enable_theta_clock cfg).
  rewrite F6.
  eapply agree_bind; [apply agree_lift_eq; [exact Hc19|reflexivity]|].
  intros hat ? s20 t20 <- Hc20.
  apply agree_ret; [exact Hc20|].
  unfold core_outputs. simpl. rewrite F4, F7. reflexivity.
Qed.
End C9.

Section C9b.
Context {lib : PyLib}.

Lemma init_config_with_micro_scale b args :
  init_config (with_micro_scale b args) = with_micro_scale b (init_config args).
Proof. reflexivity. Qed.

Lemma run_samples_agree cfg b1 b2 samples : forall s t tr1 sf1 tr2 sf2,
  core_view s = core_view t ->
  run_samples (with_micro_scale b1 cfg) samples s = Ok (tr1, sf1) ->
  run_samples (with_micro_scale b2 cfg) samples t = Ok (tr2, sf2) ->
  map (fun rs => core_outputs (fst rs)) tr1
  = map (fun rs => core_outputs (fst rs)) tr2.
Proof.
  induction samples as [|x rest IH]; intros s t tr1 sf1 tr2 sf2 Hc H1 H2.
  - simpl in H1, H2. unfold ret in *. inversion H1; inversion H2. reflexivity.
  - apply run_samples_cons in H1. destruct H1 as (r1 & s1 & tr1' & C1 & R1 & ->).
    apply run_samples_cons in H2. destruct H2 as (r2 & t1 & tr2' & C2 & R2 & ->).
    destruct (compute_rle_agree cfg b1 b2 _ _ _ _ s t Hc _ _ _ _ C1 C2) as [Ho Hc1].
    simpl. f_equal; [exact Ho|]. eapply IH; eauto.
Qed.
End C9b.

(** C9.  Two sessions over the same samples whose constructor arguments
    differ at most in [enable_micro_scale] report the same collapse flag
    at every step, and more generally the same value of every output that
    does not belong to the corrected and blended score paths. *)
Theorem C9_collapse_ignores_micro_scale {lib : PyLib}
    (args : Config) (b1 b2 : bool) (samples : list Sample) tr1 tr2 :
  session (with_micro_scale b1 args) samples = Ok tr1 ->
  session (with_micro_scale b2 args) samples = Ok tr2 ->
  map (fun rs => RLEResult.collapse (fst rs)) tr1
  = map (fun rs => RLEResult.collapse (fst rs)) tr2
  /\ map (fun rs => core_outputs (fst rs)) tr1
     = map (fun rs => core_outputs (fst rs)) tr2.
Proof.
  intros H1 H2.
  apply session_inv in H1. destruct H1 as (sf1 & H1).
  apply session_inv in H2. destruct H2 as (sf2 & H2).
  rewrite init_config_with_micro_scale in H1, H2.
  pose proof (run_samples_agree _ _ _ _ _ _ _ _ _ _ eq_refl H1 H2) as H.
  split; [|exact H].
  assert (Hp : forall tr : list (RLEResult.t * State),
             map (fun rs => RLEResult.collapse (fst rs)) tr
             = map (fun o => snd (fst (fst (fst (fst o)))))
                   (map (fun rs => core_outputs (fst rs)) tr)).
  { intros tr. rewrite map_map. reflexivity. }
  rewrite (Hp tr1), (Hp tr2), H. reflexivity.
Qed.

(** ** Magnitude bounds through the IEEE operations *)

Lemma digits2_pos_size p : digits2_pos p = Pos.size p.
Proof. induction p; simpl; congruence. Qed.

Lemma digits2_pos_bounds p :
  2 ^ (Zpos (digits2_pos p) - 1) <= Zpos p < 2 ^ Zpos (digits2_pos p).
Proof.
  rewrite digits2_pos_size. split.
  - pose proof (Pos.size_le p) as H.
    assert (H2 : 2 ^ Zpos (Pos.size p) <= 2 * Zpos p).
    { change (2 * Zpos p) with (Zpos (p~0)).
      rewrite <- Pos2Z.inj_pow. apply Pos2Z.pos_le_pos. exact H. }
    replace (Zpos (Pos.size p)) with (Z.succ (Zpos (Pos.size p) - 1)) in H2 by lia.
    rewrite Z.pow_succ_r in H2 by lia. lia.
  - pose proof (Pos.size_gt p) as H.
    change 2 with (Zpos 2). rewrite <- Pos2Z.inj_pow.
    apply Pos2Z.pos_lt_pos. exact H.
Qed.

(** Digit count against a power of two. *)
Lemma digits_le_of_lt p d : 0 <= d -> Zpos p < 2 ^ d -> Zpos (digits2_pos p) <= d.
Proof.
  intros Hd H. destruct (digits2_pos_bounds p) as [Hlo _].
  destruct (Z_le_gt_dec (Zpos (digits2_pos p)) d) as [|Hgt]; [assumption|].
  assert (2 ^ d <= 2 ^ (Zpos (digits2_pos p) - 1)) by (apply Z.pow_le_mono_r; lia).
  lia.
Qed.

Lemma digits_ge_of_le p d : 2 ^ (d - 1) <= Zpos p -> d <= Zpos (digits2_pos p).
Proof.
  intros H. destruct (digits2_pos_bounds p) as [_ Hhi].
  destruct (Z_le_gt_dec d (Zpos (digits2_pos p))) as [|Hgt]; [assumption|].
  assert (2 ^ Zpos (digits2_pos p) <= 2 ^ (d - 1)) by (apply Z.pow_le_mono_r; lia).
  lia.
Qed.

Lemma Zdigits2_nonneg m : 0 <= Zdigits2 m.
Proof. destruct m; simpl; lia. Qed.

Lemma Zdigits2_le_of_lt m d : 0 <= m -> 0 <= d -> m < 2 ^ d -> Zdigits2 m <= d.
Proof.
  intros Hm Hd H. destruct m as [|p|p]; simpl; [lia| |lia].
  apply digits_le_of_lt; assumption.
Qed.

Lemma Zdigits2_lt m : 0 <= m -> m < 2 ^ Zdigits2 m.
Proof.
  intros Hm. destruct m as [|p|p]; simpl; [lia| |lia].
  apply digits2_pos_bounds.
Qed.

Lemma Zdigits2_ge m : 0 < m -> 2 ^ (Zdigits2 m - 1) <= m.
Proof.
  intros Hm. destruct m as [|p|p]; simpl; try lia.
  apply digits2_pos_bounds.
Qed.

Lemma Zdigits2_pos m : 0 < m -> 1 <= Zdigits2 m.
Proof. destruct m; simpl; lia. Qed.

Lemma Zdigits2_mono a b : 0 <= a <= b -> Zdigits2 a <= Zdigits2 b.
Proof.
  intros [Ha Hab]. apply Zdigits2_le_of_lt; [lia|apply Zdigits2_nonneg|].
  pose proof (Zdigits2_lt b). lia.
Qed.

(** *** Right shifts *)

Lemma shr_1_m r : 0 <= shr_m r -> shr_m (shr_1 r) = shr_m r / 2.
Proof.
  destruct r as [m rb sb]. simpl. intros Hm.
  destruct m as [|[p|p|]|p]; simpl; try lia; try reflexivity.
  - rewrite Pos2Z.inj_xI. apply Z.div_unique with (r := 1); lia.
  - rewrite Pos2Z.inj_xO. apply Z.div_unique with (r := 0); lia.
Qed.

Lemma iter_shr_1_m n : forall r,
  0 <= shr_m r -> shr_m (iter_pos shr_1 n r) = shr_m r / 2 ^ Zpos n.
Proof.
  assert (Hp : forall k, 0 < 2 ^ Zpos k) by (intros; apply Z.pow_pos_nonneg; lia).
  induction n as [n IH|n IH|]; intros r Hr; simpl iter_pos.
  - assert (H1 : 0 <= shr_m (shr_1 r)) by (rewrite shr_1_m by lia; apply Z.div_pos; lia).
    assert (H2 : 0 <= shr_m (iter_pos shr_1 n (shr_1 r)))
      by (rewrite IH by lia; apply Z.div_pos; [lia|apply Hp]).
    assert (E : 2 ^ Z.pos n~1 = 2 * 2 ^ Z.pos n * 2 ^ Z.pos n).
    { replace (Z.pos n~1) with (1 + Z.pos n + Z.pos n) by lia.
      rewrite !Z.pow_add_r by lia. reflexivity. }
    pose proof (Hp n).
    rewrite IH, IH, shr_1_m, E by lia.
    rewrite !Z.div_div by lia. f_equal. ring.
  - assert (H2 : 0 <= shr_m (iter_pos shr_1 n r))
      by (rewrite IH by lia; apply Z.div_pos; [lia|apply Hp]).
    assert (E : 2 ^ Z.pos n~0 = 2 ^ Z.pos n * 2 ^ Z.pos n).
    { replace (Z.pos n~0) with (Z.pos n + Z.pos n) by lia.
      rewrite Z.pow_add_r by lia. reflexivity. }
    pose proof (Hp n).
    rewrite IH, IH, E by lia.
    rewrite !Z.div_div by lia. reflexivity.
  - rewrite shr_1_m by lia. reflexivity.
Qed.

Lemma shr_spec r e n :
  0 <= shr_m r ->
  shr_m (fst (shr r e n)) = shr_m r / 2 ^ Z.max n 0
  /\ snd (shr r e n) = e + Z.max n 0.
Proof.
  intros Hr. unfold shr. destruct n as [|p|p]; simpl fst; simpl snd.
  - rewrite Z.div_1_r. split; [reflexivity|lia].
  - rewrite iter_shr_1_m by lia. split; [reflexivity|lia].
  - rewrite Z.div_1_r. split; [reflexivity|lia].
Qed.

Lemma shr_record_of_loc_m m l : shr_m (shr_record_of_loc m l) = m.
Proof. destruct l as [|[| |]]; reflexivity. Qed.

Lemma round_nearest_even_bounds m l :
  m <= round_nearest_even m l <= m + 1.
Proof.
  unfold round_nearest_even. destruct l as [|[| |]]; try lia.
  destruct (Z.even m); lia.
Qed.

(** *** Rounding *)

Lemma fexp_eq z : fexp prec emax z = Z.max (z - 53) (-1074).
Proof. reflexivity. Qed.

Lemma shr_fexp_spec m e l :
  0 <= m ->
  let n := Z.max (fexp prec emax (Zdigits2 m + e) - e) 0 in
  shr_m (fst (shr_fexp prec emax m e l)) = m / 2 ^ n
  /\ snd (shr_fexp prec emax m e l) = e + n.
Proof.
  intros Hm n. unfold shr_fexp.
  pose proof (shr_spec (shr_record_of_loc m l) e
                (fexp prec emax (Zdigits2 m + e) - e)) as H.
  rewrite shr_record_of_loc_m in H. apply H. exact Hm.
Qed.

(** The two stages of [binary_round_aux], in terms of the mantissa fed to
    the final case distinction and its exponent. *)
Lemma binary_round_aux_stages s mx ex lx :
  0 <= mx ->
  exists m1 m2 e1 e2,
    e1 = ex + Z.max (fexp prec emax (Zdigits2 mx + ex) - ex) 0
    /\ mx / 2 ^ (e1 - ex) <= m1 <= mx / 2 ^ (e1 - ex) + 1
    /\ e2 = e1 + Z.max (fexp prec emax (Zdigits2 m1 + e1) - e1) 0
    /\ m2 = m1 / 2 ^ (e2 - e1)
    /\ binary_round_aux prec emax s mx ex lx
       = match m2 with
         | Z0 => S754_zero s
         | Zpos m => if e2 <=? emax - prec then S754_finite s m e2
                     else S754_infinity s
         | Zneg _ => S754_nan
         end.
Proof.
  intros Hm. unfold binary_round_aux.
  destruct (shr_fexp_spec mx ex lx Hm) as [Hm1 He1].
  destruct (shr_fexp prec emax mx ex lx) as [mrs' e'] eqn:E1.
  simpl fst in Hm1. simpl snd in He1.
  set (m1 := round_nearest_even (shr_m mrs') (loc_of_shr_record mrs')).
  assert (Hb : shr_m mrs' <= m1 <= shr_m mrs' + 1)
    by apply round_nearest_even_bounds.
  assert (Hm1pos : 0 <= shr_m mrs').
  { rewrite Hm1. apply Z.div_pos; [lia|apply Z.pow_pos_nonneg; lia]. }
  destruct (shr_fexp_spec m1 e' loc_Exact ltac:(lia)) as [Hm2 He2].
  destruct (shr_fexp prec emax m1 e' loc_Exact) as [mrs'' e''] eqn:E2.
  simpl fst in Hm2. simpl snd in He2.
  exists m1, (shr_m mrs''), e', e''.
  replace (e' - ex) with (Z.max (fexp prec emax (Zdigits2 mx + ex) - ex) 0) by lia.
  replace (e'' - e') with (Z.max (fexp prec emax (Zdigits2 m1 + e') - e') 0) by lia.
  rewrite <- Hm1. repeat split; try assumption; try lia.
Qed.

Lemma div_pow2_lt m d n :
  0 <= m -> 0 <= n -> 0 <= d -> m < 2 ^ d -> m / 2 ^ n < 2 ^ Z.max (d - n) 0.
Proof.
  intros Hm Hn Hd H.
  assert (Hp : 0 < 2 ^ n) by (apply Z.pow_pos_nonneg; lia).
  apply Z.div_lt_upper_bound; [exact Hp|].
  destruct (Z_le_gt_dec n d) as [Hle|Hgt].
  - rewrite Z.max_l by lia. rewrite <- Z.pow_add_r by lia.
    replace (n + (d - n)) with d by lia. exact H.
  - rewrite Z.max_r by lia. simpl.
    assert (2 ^ d <= 2 ^ n) by (apply Z.pow_le_mono_r; lia). lia.
Qed.

Lemma div_pow2_ge m d n :
  0 <= n -> n <= d - 1 -> 2 ^ (d - 1) <= m -> 2 ^ (d - 1 - n) <= m / 2 ^ n.
Proof.
  intros Hn Hd H.
  assert (Hp : 0 < 2 ^ n) by (apply Z.pow_pos_nonneg; lia).
  apply Z.div_le_lower_bound; [exact Hp|].
  rewrite <- Z.pow_add_r by lia.
  replace (n + (d - 1 - n)) with (d - 1) by lia. exact H.
Qed.

(** Upper bound: rounding a value below [2^k] gives a value below
    [2^(k+1)], in particular no infinity. *)
Lemma binary_round_aux_small s mx ex lx k :
  0 <= mx -> Zdigits2 mx + ex <= k -> ex <= k -> -1074 <= k -> k <= 971 ->
  sf_small (k + 1) (binary_round_aux prec emax s mx ex lx).
Proof.
  intros Hm HD Hex Hk1 Hk2.
  destruct (binary_round_aux_stages s mx ex lx Hm)
    as (m1 & m2 & e1 & e2 & He1 & Hm1 & He2 & Hm2 & ->).
  rewrite fexp_eq in He1, He2.
  pose proof (Zdigits2_nonneg mx) as Hdx.
  assert (Hn1 : 0 <= e1 - ex) by lia.
  assert (Hq : mx / 2 ^ (e1 - ex) < 2 ^ Z.max (Zdigits2 mx - (e1 - ex)) 0).
  { apply div_pow2_lt; try lia. apply Zdigits2_lt. exact Hm. }
  assert (Hq0 : 0 <= mx / 2 ^ (e1 - ex))
    by (apply Z.div_pos; [lia|apply Z.pow_pos_nonneg; lia]).
  assert (Hm1d : Zdigits2 m1 <= Z.max (Zdigits2 mx - (e1 - ex)) 0 + 1).
  { apply Zdigits2_le_of_lt; try lia.
    rewrite Z.pow_add_r by lia. simpl (2 ^ 1). lia. }
  assert (Hn2 : 0 <= e2 - e1) by lia.
  assert (He1k : e1 <= k) by lia.
  assert (He2k : e2 <= 971) by lia.
  change (emax - prec) with 971.
  destruct m2 as [|p|p]; cbn [sf_small]; auto.
  destruct (e2 <=? 971) eqn:E.
  - cbn [sf_small].
    assert (Hp : Zpos p < 2 ^ Z.max (Zdigits2 m1 - (e2 - e1)) 0).
    { rewrite Hm2. apply div_pow2_lt; try lia.
      - apply Zdigits2_nonneg.
      - apply Zdigits2_lt. lia. }
    assert (Hpd : Zpos (digits2_pos p) <= Z.max (Zdigits2 m1 - (e2 - e1)) 0)
      by (apply digits_le_of_lt; lia).
    destruct (Z_le_gt_dec (Zdigits2 m1 - (e2 - e1)) 0) as [Hz|Hz].
    + (* the quotient would be zero *)
      rewrite Z.max_r in Hp by lia. simpl in Hp. lia.
    + lia.
  - apply Z.leb_gt in E. lia.
Qed.

(** Lower bound: rounding a positive value of at least [2^(k-1)] in the
    normal range gives at least [2^(k-1)]. *)
Lemma binary_round_aux_big s mx ex lx k :
  0 < mx -> k <= Zdigits2 mx + ex -> -1021 <= k ->
  sf_big k (binary_round_aux prec emax s mx ex lx).
Proof.
  intros Hm HD Hk.
  destruct (binary_round_aux_stages s mx ex lx ltac:(lia))
    as (m1 & m2 & e1 & e2 & He1 & Hm1 & He2 & Hm2 & ->).
  rewrite fexp_eq in He1, He2.
  pose proof (Zdigits2_ge mx Hm) as Hlo.
  pose proof (Zdigits2_pos mx Hm) as Hdx1.
  set (dx := Zdigits2 mx) in *.
  assert (Hn1 : e1 - ex = Z.max (dx - 53) 0) by lia.
  assert (Hq : 2 ^ (dx - 1 - (e1 - ex)) <= mx / 2 ^ (e1 - ex)).
  { apply div_pow2_ge; [lia|lia|exact Hlo]. }
  assert (Hpos1 : 0 < 2 ^ (dx - 1 - (e1 - ex))) by (apply Z.pow_pos_nonneg; lia).
  assert (Hm1pos : 0 < m1) by lia.
  assert (Hd1 : dx - (e1 - ex) <= Zdigits2 m1).
  { destruct m1 as [|p1|p1]; try lia. cbn [Zdigits2].
    apply digits_ge_of_le.
    replace (dx - (e1 - ex) - 1) with (dx - 1 - (e1 - ex)) by lia. lia. }
  pose proof (Zdigits2_ge m1 Hm1pos) as Hlo1.
  pose proof (Zdigits2_pos m1 Hm1pos) as Hd11.
  set (d1 := Zdigits2 m1) in *.
  assert (Hn2 : e2 - e1 = Z.max (d1 - 53) 0) by lia.
  assert (Hq2 : 2 ^ (d1 - 1 - (e2 - e1)) <= m2).
  { rewrite Hm2. apply div_pow2_ge; [lia|lia|exact Hlo1]. }
  assert (Hpos2 : 0 < 2 ^ (d1 - 1 - (e2 - e1))) by (apply Z.pow_pos_nonneg; lia).
  destruct m2 as [|p|p]; try lia.
  destruct (e2 <=? emax - prec); cbn [sf_big]; auto.
  assert (d1 - (e2 - e1) <= Zpos (digits2_pos p)).
  { apply digits_ge_of_le.
    replace (d1 - (e2 - e1) - 1) with (d1 - 1 - (e2 - e1)) by lia. lia. }
  lia.
Qed.

(** *** Valid mantissas *)

Lemma valid_finite s m e :
  valid_binary (S754_finite s m e) = true ->
  e = Z.max (Zpos (digits2_pos m) + e - 53) (-1074) /\ e <= 971.
Proof.
  unfold SpecFloat.valid_binary, bounded, canonical_mantissa.
  rewrite andb_true_iff, Z.eqb_eq, Z.leb_le, fexp_eq.
  change (emax - prec) with 971. intros [H1 H2]. split; [symmetry; exact H1|exact H2].
Qed.

Lemma digits2_pos_shift m k :
  0 <= k ->
  forall p, Zpos p = Zpos m * 2 ^ k ->
  Zpos (digits2_pos p) = Zpos (digits2_pos m) + k.
Proof.
  intros Hk p Hp.
  destruct (digits2_pos_bounds m) as [Hlo Hhi].
  assert (H2 : 0 < 2 ^ k) by (apply Z.pow_pos_nonneg; lia).
  apply Z.le_antisymm.
  - apply digits_le_of_lt; [lia|].
    rewrite Hp, Z.pow_add_r by lia. nia.
  - apply digits_ge_of_le. rewrite Hp.
    replace (Zpos (digits2_pos m) + k - 1) with (Zpos (digits2_pos m) - 1 + k) by lia.
    rewrite Z.pow_add_r by lia. nia.
Qed.

(** *** Exact right shifts *)

Lemma shr_1_even K :
  0 < K ->
  shr_1 (Build_shr_record (2 * K) false false) = Build_shr_record K false false.
Proof. intros HK. destruct K as [|p|p]; try lia. reflexivity. Qed.

Lemma iter_shr_1_exact n : forall M,
  0 < M ->
  iter_pos shr_1 n (Build_shr_record (M * 2 ^ Zpos n) false false)
  = Build_shr_record M false false.
Proof.
  assert (Hp : forall k, 0 < 2 ^ Zpos k) by (intros; apply Z.pow_pos_nonneg; lia).
  induction n as [n IH|n IH|]; intros M HM.
  - replace (M * 2 ^ Z.pos n~1) with (2 * ((M * 2 ^ Z.pos n) * 2 ^ Z.pos n)).
    + pose proof (Hp n). cbn [iter_pos]. rewrite shr_1_even by nia.
      rewrite IH by nia. apply IH. exact HM.
    + replace (Z.pos n~1) with (1 + Z.pos n + Z.pos n) by lia.
      rewrite !Z.pow_add_r by lia. change (2 ^ 1) with 2. ring.
  - replace (M * 2 ^ Z.pos n~0) with ((M * 2 ^ Z.pos n) * 2 ^ Z.pos n).
    + pose proof (Hp n). cbn [iter_pos]. rewrite IH by nia. apply IH. exact HM.
    + replace (Z.pos n~0) with (Z.pos n + Z.pos n) by lia.
      rewrite !Z.pow_add_r by lia. ring.
  - change (2 ^ 1) with 2. rewrite Z.mul_comm. cbn [iter_pos].
    apply shr_1_even. exact HM.
Qed.

(** Rounding an exactly representable product back to its factor. *)
Lemma binary_round_aux_exact s m e k :
  valid_binary (S754_finite s m e) = true ->
  0 < k ->
  forall p, Zpos p = Zpos m * 2 ^ k ->
  binary_round_aux prec emax s (Zpos p) (e - k) loc_Exact = S754_finite s m e.
Proof.
  intros Hv Hk p Hp.
  destruct (valid_finite _ _ _ Hv) as [Hc He].
  pose proof (digits2_pos_shift m k ltac:(lia) p Hp) as Hd.
  unfold binary_round_aux.
  assert (E1 : shr_fexp prec emax (Zpos p) (e - k) loc_Exact
               = (Build_shr_record (Zpos m) false false, e)).
  { unfold shr_fexp. cbn [Zdigits2 shr_record_of_loc]. rewrite fexp_eq, Hd.
    replace (Z.max (Z.pos (digits2_pos m) + k + (e - k) - 53) (-1074) - (e - k))
      with k by lia.
    unfold shr. destruct k as [|q|q]; try lia.
    rewrite Hp, iter_shr_1_exact by lia. f_equal. lia. }
  rewrite E1. cbn [shr_m loc_of_shr_record round_nearest_even].
  assert (E2 : shr_fexp prec emax (Zpos m) e loc_Exact
               = (Build_shr_record (Zpos m) false false, e)).
  { unfold shr_fexp. cbn [Zdigits2 shr_record_of_loc]. rewrite fexp_eq.
    replace (Z.max (Z.pos (digits2_pos m) + e - 53) (-1074) - e) with 0 by lia.
    reflexivity. }
  rewrite E2. cbn [shr_m]. change (emax - prec) with 971.
  destruct (e <=? 971) eqn:E; [reflexivity|]. apply Z.leb_gt in E. lia.
Qed.

(** *** Exact identities *)

Lemma Prim2SF_one : Prim2SF 1 = S754_finite false 4503599627370496 (-52).
Proof. reflexivity. Qed.

Lemma Prim2SF_zero : Prim2SF 0 = S754_zero false.
Proof. reflexivity. Qed.

(** [x * 1.0] is [x], bit for bit. *)
Lemma mul_one_r (x : float) : (x * 1)%float = x.
Proof.
  apply Prim2SF_inj. rewrite mul_spec, Prim2SF_one.
  pose proof (Prim2SF_valid x) as Hv.
  destruct (Prim2SF x) as [s|s| |s m e]; unfold SF64mul, SFmul.
  - rewrite xorb_false_r. reflexivity.
  - rewrite xorb_false_r. reflexivity.
  - reflexivity.
  - rewrite xorb_false_r.
    change (e + -52) with (e - 52).
    apply binary_round_aux_exact; [exact Hv|lia|].
    rewrite Pos2Z.inj_mul. reflexivity.
Qed.

(** [x + x * 0.0] is [x] unless [x] is an infinity. *)
Lemma add_mul_zero (x : float) : not_infinite x -> (x + x * 0)%float = x.
Proof.
  unfold not_infinite. intros Hx.
  apply Prim2SF_inj. rewrite add_spec, mul_spec, Prim2SF_zero.
  destruct (Prim2SF x) as [s|s| |s m e]; unfold SF64mul, SFmul, SF64add, SFadd.
  - rewrite xorb_false_r. destruct s; reflexivity.
  - contradiction.
  - reflexivity.
  - reflexivity.
Qed.

(** *** Bounds through multiplication, division and addition *)

Lemma digits2_pos_mul_le mx my :
  Zpos (digits2_pos (mx * my)) <= Zpos (digits2_pos mx) + Zpos (digits2_pos my).
Proof.
  destruct (digits2_pos_bounds mx) as [_ Hx].
  destruct (digits2_pos_bounds my) as [_ Hy].
  apply digits_le_of_lt; [lia|].
  rewrite Pos2Z.inj_mul, Z.pow_add_r by lia. nia.
Qed.

Lemma digits2_pos_mul_ge mx my :
  Zpos (digits2_pos mx) + Zpos (digits2_pos my) - 1
  <= Zpos (digits2_pos (mx * my)).
Proof.
  destruct (digits2_pos_bounds mx) as [Hx _].
  destruct (digits2_pos_bounds my) as [Hy _].
  apply digits_ge_of_le.
  replace (Zpos (digits2_pos mx) + Zpos (digits2_pos my) - 1 - 1)
    with ((Zpos (digits2_pos mx) - 1) + (Zpos (digits2_pos my) - 1)) by lia.
  rewrite Pos2Z.inj_mul, Z.pow_add_r by lia.
  assert (0 < 2 ^ (Zpos (digits2_pos mx) - 1)) by (apply Z.pow_pos_nonneg; lia).
  assert (0 < 2 ^ (Zpos (digits2_pos my) - 1)) by (apply Z.pow_pos_nonneg; lia).
  nia.
Qed.

Lemma SFmul_small a b x y :
  sf_small a x -> sf_small b y -> -1074 <= a + b -> a + b <= 971 ->
  sf_small (a + b + 1) (SF64mul x y).
Proof.
  intros Hx Hy Hlo Hhi.
  destruct x as [sx|sx| |sx mx ex], y as [sy|sy| |sy my ey];
    unfold SF64mul, SFmul; cbn [sf_small] in *; auto; try contradiction.
  apply binary_round_aux_small; try lia.
  cbn [Zdigits2]. pose proof (digits2_pos_mul_le mx my). lia.
Qed.

Lemma SFmul_big a b x y :
  sf_big a x -> sf_big b y -> -1020 <= a + b ->
  sf_big (a + b - 1) (SF64mul x y).
Proof.
  intros Hx Hy Hlo.
  destruct x as [sx|sx| |sx mx ex], y as [sy|sy| |sy my ey];
    unfold SF64mul, SFmul; cbn [sf_big] in *; auto; try contradiction.
  apply binary_round_aux_big; try lia.
  cbn [Zdigits2]. pose proof (digits2_pos_mul_ge mx my). lia.
Qed.

Lemma shifted_mantissa mx s :
  0 <= s ->
  match s with
  | 0 => Zpos mx
  | Zpos _ => Z.shiftl (Zpos mx) s
  | Zneg _ => 0
  end = Zpos mx * 2 ^ s.
Proof.
  intros Hs. destruct s as [|p|p]; try lia.
  rewrite Z.shiftl_mul_pow2 by lia. reflexivity.
Qed.

Lemma SFdiv_core_binary_bounds mx ex my ey :
  let '(q, e', l) := SFdiv_core_binary prec emax (Zpos mx) ex (Zpos my) ey in
  let D := (Zpos (digits2_pos mx) + ex) - (Zpos (digits2_pos my) + ey) in
  0 <= q /\ e' <= Z.max (D - 53) (-1074) /\ Zdigits2 q + e' <= Z.max (D + 1) e'.
Proof.
  unfold SFdiv_core_binary. cbn [Zdigits2]. rewrite fexp_eq.
  set (dx := Zpos (digits2_pos mx)). set (dy := Zpos (digits2_pos my)).
  set (e' := Z.min (Z.max (dx + ex - (dy + ey) - 53) (-1074)) (ex - ey)).
  set (s := ex - ey - e').
  assert (Hs : 0 <= s) by (unfold s, e'; lia).
  set (m' := match s with
             | 0 => Zpos mx
             | Zpos _ => Z.shiftl (Zpos mx) s
             | Zneg _ => 0
             end).
  assert (Hm' : m' = Zpos mx * 2 ^ s).
  { unfold m'. apply shifted_mantissa. exact Hs. }
  pose proof (Z_div_mod m' (Zpos my) ltac:(lia)) as Hdm.
  destruct (Z.div_eucl m' (Zpos my)) as [q r] eqn:Eq.
  destruct Hdm as [Hdm Hr].
  destruct (digits2_pos_bounds mx) as [_ Hx]. fold dx in Hx.
  destruct (digits2_pos_bounds my) as [Hy _]. fold dy in Hy.
  assert (H2s : 0 < 2 ^ s) by (apply Z.pow_pos_nonneg; lia).
  assert (Hdy : 0 < 2 ^ (dy - 1)) by (apply Z.pow_pos_nonneg; unfold dy; lia).
  assert (Hq0 : 0 <= q) by nia.
  split; [exact Hq0|]. split; [unfold e'; lia|].
  assert (Hq : q < 2 ^ Z.max (dx + s - (dy - 1)) 0).
  { destruct (Z_le_gt_dec (dy - 1) (dx + s)) as [Hle|Hgt].
    - rewrite Z.max_l by lia.
      assert (Hpow : 2 ^ (dx + s) = 2 ^ (dx + s - (dy - 1)) * 2 ^ (dy - 1)).
      { rewrite <- Z.pow_add_r by (unfold dy; lia). f_equal. lia. }
      assert (Hm'lt : m' < 2 ^ (dx + s)).
      { rewrite Hm', Z.pow_add_r by (unfold dx; lia). nia. }
      assert (0 < 2 ^ (dx + s - (dy - 1))) by (apply Z.pow_pos_nonneg; lia).
      nia.
    - rewrite Z.max_r by lia. change (2 ^ 0) with 1.
      assert (Hm'lt : m' < 2 ^ (dx + s)).
      { rewrite Hm', Z.pow_add_r by (unfold dx; lia). nia. }
      assert (2 ^ (dx + s) <= 2 ^ (dy - 1))
        by (apply Z.pow_le_mono_r; unfold dx; lia).
      nia. }
  assert (Hdq : Zdigits2 q <= Z.max (dx + s - (dy - 1)) 0).
  { apply Zdigits2_le_of_lt; lia. }
  unfold s in Hdq. lia.
Qed.

Lemma SFdiv_small a b x y :
  sf_small a x -> sf_big b y -> -1075 <= a - b -> a - b <= 970 ->
  sf_small (a - b + 2) (SF64div x y).
Proof.
  intros Hx Hy Hlo Hhi.
  destruct x as [sx|sx| |sx mx ex], y as [sy|sy| |sy my ey];
    unfold SF64div, SFdiv; cbn [sf_small sf_big] in *; auto; try contradiction.
  pose proof (SFdiv_core_binary_bounds mx ex my ey) as H.
  destruct (SFdiv_core_binary prec emax (Zpos mx) ex (Zpos my) ey) as [[q e'] l].
  cbv zeta in H. destruct H as (Hq & He & HD).
  replace (a - b + 2) with ((a - b + 1) + 1) by lia.
  apply binary_round_aux_small; lia.
Qed.

(** The sign of a rounded value. *)
Lemma binary_round_aux_nonneg mx ex lx :
  sf_nonneg (binary_round_aux prec emax false mx ex lx).
Proof.
  unfold binary_round_aux.
  destruct (shr_fexp prec emax mx ex lx) as [mrs' e'].
  destruct (shr_fexp prec emax _ e' loc_Exact) as [mrs'' e''].
  destruct (shr_m mrs'') as [|p|p]; cbn [sf_nonneg]; auto.
  destruct (e'' <=? emax - prec); cbn [sf_nonneg]; auto.
Qed.

Lemma SFdiv_one_nonneg k y :
  sf_nonneg y -> sf_big k y -> sf_nonneg (SF64div (Prim2SF 1) y).
Proof.
  rewrite Prim2SF_one. intros Hy Hb.
  destruct y as [sy|sy| |sy my ey]; unfold SF64div, SFdiv;
    cbn [sf_nonneg sf_big] in *; subst; auto; try contradiction.
  destruct (SFdiv_core_binary _ _ _ _ _ _) as [[q e'] l].
  apply binary_round_aux_nonneg.
Qed.

Lemma shl_align_spec mx ex ex' :
  let '(m, e) := shl_align mx ex ex' in
  e <= ex /\ Zpos m = Zpos mx * 2 ^ (ex - e).
Proof.
  unfold shl_align.
  destruct (ex' - ex) as [|d|d] eqn:E.
  - rewrite Z.sub_diag. change (2 ^ 0) with 1. lia.
  - rewrite Z.sub_diag. change (2 ^ 0) with 1. lia.
  - replace (ex - ex') with (Zpos d) by lia.
    split; [lia|].
    rewrite (Pos.iter_swap_gen _ _ Zpos xO (fun z => 2 * z)) by reflexivity.
    clear E. induction d using Pos.peano_ind.
    + simpl. lia.
    + rewrite Pos.iter_succ, IHd, Pos2Z.inj_succ, Z.pow_succ_r by lia. ring.
Qed.

Lemma shl_align_down mx ex ex' :
  ex' <= ex -> Zpos (fst (shl_align mx ex ex')) = Zpos mx * 2 ^ (ex - ex').
Proof.
  intros Hle. pose proof (shl_align_spec mx ex ex') as H.
  unfold shl_align in *.
  destruct (ex' - ex) as [|d|d] eqn:E; cbn [fst]; try lia;
    first [ apply H
          | replace (ex - ex') with 0 by lia; change (2 ^ 0) with 1; lia ].
Qed.

Lemma shl_align_digits mx ex ex' :
  let '(m, e) := shl_align mx ex ex' in
  Zpos (digits2_pos m) + e = Zpos (digits2_pos mx) + ex.
Proof.
  pose proof (shl_align_spec mx ex ex') as H.
  destruct (shl_align mx ex ex') as [m e]. destruct H as [He Hm].
  rewrite (digits2_pos_shift mx (ex - e) ltac:(lia) m Hm). lia.
Qed.

Lemma binary_round_big s mx ex k :
  k <= Zpos (digits2_pos mx) + ex -> -1021 <= k ->
  sf_big k (binary_round prec emax s mx ex).
Proof.
  intros HD Hk. unfold binary_round.
  pose proof (shl_align_digits mx ex
                (fexp prec emax (Zpos (digits2_pos mx) + ex))) as H.
  destruct (shl_align mx ex _) as [mz ez].
  apply binary_round_aux_big; [lia| |exact Hk].
  cbn [Zdigits2]. lia.
Qed.

(** Adding a non-negative number to 1.0 gives at least 1.0. *)
Lemma SFadd_one_big z :
  sf_nonneg z -> sf_big 1 (SF64add (Prim2SF 1) z).
Proof.
  rewrite Prim2SF_one. intros Hz.
  destruct z as [sz|sz| |sz mz ez]; unfold SF64add, SFadd;
    cbn [sf_nonneg sf_big] in *; auto.
  - vm_compute. discriminate.
  - subst sz. cbn [cond_Zopp].
    set (e := Z.min (-52) ez).
    pose proof (shl_align_down 4503599627370496 (-52) e ltac:(lia)) as Ha.
    pose proof (shl_align_down mz ez e ltac:(lia)) as Hb.
    set (a := fst (shl_align 4503599627370496 (-52) e)) in *.
    set (b := fst (shl_align mz ez e)) in *.
    change (Zpos a + Zpos b) with (Zpos (a + b)).
    unfold binary_normalize.
    apply binary_round_big; [|lia].
    assert (He : 0 <= -52 - e) by lia.
    assert (Hp : 0 < 2 ^ (-52 - e)) by (apply Z.pow_pos_nonneg; lia).
    assert (Hd : -52 - e + 53 <= Zpos (digits2_pos (a + b))).
    { apply digits_ge_of_le. rewrite Pos2Z.inj_add, Ha.
      replace (-52 - e + 53 - 1) with (52 + (-52 - e)) by lia.
      rewrite Z.pow_add_r by lia. change (2 ^ 52) with 4503599627370496. lia. }
    lia.
Qed.

(** *** Comparisons against a positive constant *)

Lemma pos_compare_digits m mc :
  (m ?= mc)%positive <> Lt -> Zpos (digits2_pos mc) <= Zpos (digits2_pos m).
Proof.
  intros H. assert (Hle : Zpos mc <= Zpos m).
  { destruct (Pos.compare_spec m mc); try congruence; subst; lia. }
  pose proof (Zdigits2_mono (Zpos mc) (Zpos m) ltac:(lia)) as Hm.
  exact Hm.
Qed.

(** Not below a positive constant: at least as large, and non-negative. *)
Lemma not_below_big T mc ec :
  valid_binary T = true ->
  valid_binary (S754_finite false mc ec) = true ->
  SFltb T (S754_finite false mc ec) = false ->
  sf_big (Zpos (digits2_pos mc) + ec) T /\ sf_nonneg T.
Proof.
  intros HvT HvC. unfold SFltb.
  destruct T as [s|s| |s m e]; cbn [sf_big sf_nonneg]; auto.
  - simpl. discriminate.
  - simpl. destruct s; [discriminate|auto].
  - rewrite SFcompare_finite.
    destruct (valid_finite _ _ _ HvT) as [He _].
    destruct (valid_finite _ _ _ HvC) as [Hec _].
    destruct s; [discriminate|].
    destruct (Z.compare_spec e ec) as [Heq|Hlt|Hgt]; try discriminate.
    + intros H. split; [|reflexivity]. subst ec.
      assert (Hd : Zpos (digits2_pos mc) <= Zpos (digits2_pos m)).
      { apply pos_compare_digits. intros E. rewrite E in H. discriminate. }
      lia.
    + intros _. split; [lia|reflexivity].
Qed.

(** Positive and below a normal constant: smaller in magnitude. *)
Lemma below_small T mc ec :
  valid_binary T = true ->
  Zpos (digits2_pos mc) = 53 ->
  SFltb (S754_zero false) T = true ->
  SFltb T (S754_finite false mc ec) = true ->
  sf_small (53 + ec) T.
Proof.
  intros HvT Hmc. unfold SFltb.
  destruct T as [s|s| |s m e]; cbn [sf_small]; auto.
  - simpl. destruct s; discriminate.
  - rewrite SFcompare_finite. simpl SFcompare at 1.
    destruct (valid_finite _ _ _ HvT) as [He _].
    destruct s; [discriminate|]. intros _.
    destruct (Z.compare_spec e ec) as [Heq|Hlt|Hgt]; try discriminate.
    + destruct (Pos.compare_spec m mc) as [?|Hm|?]; try discriminate.
      intros _. subst ec.
      pose proof (Zdigits2_mono (Zpos m) (Zpos mc) ltac:(lia)) as Hd.
      cbn [Zdigits2] in Hd. lia.
    + intros _. lia.
Qed.

Lemma ltb_zero_false_nonneg (v : float) :
  (v <? 0)%float = false -> sf_nonneg (Prim2SF v).
Proof.
  rewrite ltb_spec, Prim2SF_zero. unfold SFltb.
  destruct (Prim2SF v) as [s|s| |s m e]; cbn [sf_nonneg]; auto; simpl;
    destruct s; try discriminate; auto.
Qed.

(** *** The same bounds on primitive floats *)

Lemma small_not_infinite k x : small k x -> not_infinite x.
Proof.
  unfold small, not_infinite. destruct (Prim2SF x); cbn [sf_small]; auto.
Qed.

Lemma py_max_eps_big (t : float) :
  big (-19) (py_max t 1e-6) /\ sf_nonneg (Prim2SF (py_max t 1e-6)).
Proof.
  unfold py_max, big.
  destruct (t <? 1e-6)%float eqn:E.
  - split; vm_compute; [discriminate|reflexivity].
  - rewrite ltb_spec in E.
    change (Prim2SF 1e-6) with (S754_finite false 4722366482869645 (-72)) in E.
    apply (not_below_big _ 4722366482869645 (-72) (Prim2SF_valid t) eq_refl E).
Qed.

Lemma clamp_util_small (u : float) : small 7 (py_max 0 (py_min 100 u)).
Proof.
  unfold py_max, py_min, small.
  destruct (u <? 100)%float eqn:E1.
  - destruct (0 <? u)%float eqn:E2; [|exact I].
    rewrite ltb_spec in E1, E2. rewrite Prim2SF_zero in E2.
    change (Prim2SF 100) with (S754_finite false 7036874417766400 (-46)) in E1.
    apply (below_small _ 7036874417766400 (-46) (Prim2SF_valid u) eq_refl E2 E1).
  - destruct (0 <? 100)%float; [|exact I].
    vm_compute. discriminate.
Qed.

Lemma eta_small (u : float) : small 2 (py_max 0 (py_min 100 u) / 100)%float.
Proof.
  unfold small. rewrite div_spec.
  apply (SFdiv_small 7 7); try lia.
  - apply clamp_util_small.
  - vm_compute. discriminate.
Qed.

Lemma sf_big_weaken k k' x : k' <= k -> sf_big k x -> sf_big k' x.
Proof.
  intros Hk. destruct x; cbn [sf_big]; auto. lia.
Qed.

(** [1.0 + y] is either a zero or at least [2^-53] in magnitude, whatever
    the sign of [y]: the two operands are multiples of a common unit. *)
Lemma SFadd_one_any y :
  valid_binary y = true ->
  (exists s, SF64add (Prim2SF 1) y = S754_zero s)
  \/ sf_big (-52) (SF64add (Prim2SF 1) y).
Proof.
  intros Hv. destruct y as [sy|sy| |[|] my ey].
  - right. rewrite Prim2SF_one. vm_compute. discriminate.
  - right. rewrite Prim2SF_one. exact I.
  - right. rewrite Prim2SF_one. exact I.
  - rewrite Prim2SF_one. unfold SF64add, SFadd. cbn [cond_Zopp].
    destruct (valid_finite _ _ _ Hv) as [Hey _].
    set (e := Z.min (-52) ey).
    pose proof (shl_align_down 4503599627370496 (-52) e ltac:(lia)) as Ha.
    pose proof (shl_align_down my ey e ltac:(lia)) as Hb.
    set (a := fst (shl_align 4503599627370496 (-52) e)) in *.
    set (b := fst (shl_align my ey e)) in *.
    change (- Zpos b) with (Zneg b).
    assert (Hz : Zpos a + Zneg b = Zpos a - Zpos b) by lia.
    unfold binary_normalize.
    destruct (Zpos a + Zneg b) as [|p|p] eqn:E.
    + left. eexists. reflexivity.
    + right. apply binary_round_big; [|lia].
      destruct (Z_le_gt_dec (-53) ey) as [Hge|Hlt].
      * pose proof (Pos2Z.is_pos (digits2_pos p)). lia.
      * assert (He : e = ey) by lia.
        rewrite He in *. rewrite Z.sub_diag in Hb.
        change (2 ^ 0) with 1 in Hb.
        assert (Hmy : Zpos my < 2 ^ 53).
        { destruct (digits2_pos_bounds my) as [_ Hhi].
          eapply Z.lt_le_trans; [exact Hhi|].
          apply Z.pow_le_mono_r; lia. }
        assert (Hd : - ey <= Zpos (digits2_pos p)).
        { apply digits_ge_of_le.
          assert (Hpa : Zpos a = 2 ^ (- ey)).
          { rewrite Ha. change 4503599627370496 with (2 ^ 52).
            rewrite <- Z.pow_add_r by lia. f_equal. lia. }
          assert (Hs : 2 ^ (- ey) = 2 * 2 ^ (- ey - 1)).
          { rewrite <- Z.pow_succ_r by lia. f_equal. lia. }
          assert (Hm : 2 ^ 53 <= 2 ^ (- ey - 1)) by (apply Z.pow_le_mono_r; lia).
          lia. }
        lia.
    + right. apply binary_round_big; [|lia].
      pose proof (Pos2Z.is_pos (digits2_pos p)).
      destruct (Z_le_gt_dec (-52) ey) as [Hge|Hlt]; [lia|].
      exfalso.
      assert (He : e = ey) by lia.
      rewrite He in *. rewrite Z.sub_diag in Hb.
      change (2 ^ 0) with 1 in Hb.
      assert (Hmy : Zpos my < 2 ^ 53).
      { destruct (digits2_pos_bounds my) as [_ Hhi].
        eapply Z.lt_le_trans; [exact Hhi|].
        apply Z.pow_le_mono_r; lia. }
      assert (Hpa : Zpos a = 2 ^ (- ey)).
      { rewrite Ha. change 4503599627370496 with (2 ^ 52).
        rewrite <- Z.pow_add_r by lia. f_equal. lia. }
      assert (Hm : 2 ^ 53 <= 2 ^ (- ey)) by (apply Z.pow_le_mono_r; lia).
      lia.
  - right. apply (sf_big_weaken 1); [lia|].
    apply SFadd_one_big. reflexivity.
Qed.

Lemma eqb_false_not_zero (x : float) s :
  (x =? 0)%float = false -> Prim2SF x <> S754_zero s.
Proof.
  rewrite eqb_spec, Prim2SF_zero. intros H E. rewrite E in H.
  destruct s; discriminate.
Qed.

Lemma stability_small (sd : float) :
  (1 + sd =? 0)%float = false -> small 55 (1 / (1 + sd))%float.
Proof.
  intros Hnz. unfold small. rewrite div_spec.
  apply (SFdiv_small 1 (-52)); try lia.
  - vm_compute. discriminate.
  - rewrite add_spec.
    destruct (SFadd_one_any (Prim2SF sd) (Prim2SF_valid sd)) as [[s Hs]|Hb];
      [|exact Hb].
    exfalso. apply (eqb_false_not_zero (1 + sd) s Hnz).
    rewrite add_spec. exact Hs.
Qed.

(** The raw score of [compute_rle] is never an infinity. *)
Lemma raw_score_small (u sd a_load ts : float) :
  (1 + sd =? 0)%float = false ->
  small 79 ((py_max 0 (py_min 100 u) / 100 * (1 / (1 + sd)))
            / (py_max a_load 1e-6 * (1 + 1 / py_max ts 1e-6)))%float.
Proof.
  intros Hsd. unfold small.
  rewrite div_spec.
  apply (SFdiv_small 58 (-19)); try lia.
  - rewrite mul_spec. apply (SFmul_small 2 55); try lia.
    + apply eta_small.
    + apply stability_small. exact Hsd.
  - rewrite mul_spec. apply (SFmul_big (-19) 1); try lia.
    + apply py_max_eps_big.
    + rewrite add_spec. apply SFadd_one_big.
      rewrite div_spec.
      destruct (py_max_eps_big ts) as [Hb Hn].
      apply (SFdiv_one_nonneg (-19)); assumption.
Qed.

(** ** The disabled correction is the identity *)

Section Disabled.

Context {lib : PyLib}.

Lemma last_elt_app l x : last_elt (l ++ [x]) = x.
Proof. unfold last_elt. apply last_last. Qed.

Lemma fdiv_Ok x y q :
  fdiv x y = Ok q -> (y =? 0)%float = false /\ q = (x / y)%float.
Proof.
  unfold fdiv. destruct (y =? 0)%float; [discriminate|].
  intros H. injection H as <-. auto.
Qed.

Lemma compute_components_values cfg u t p d st eta stab al ts sA :
  compute_components cfg u t p d st = Ok ((eta, stab, al, ts), sA) ->
  eta = (py_max 0 (py_min 100 u) / 100)%float
  /\ exists sd, fdiv 1 (1 + sd) = Ok stab.
Proof.
  unfold compute_components. intros H. minv.
  match goal with
  | H : (_, _, _, _) = (_, _, _, _) |- _ => injection H as -> -> _ _
  end.
  assert (Hu : util_hist s0 = util_hist st ++ [py_max 0 (py_min 100 u)]).
  { destruct t; minv; reflexivity. }
  rewrite Hu. split.
  - rewrite last_elt_app. destruct (util_hist st); reflexivity.
  - eauto.
Qed.

Lemma _theta_window_to_n_min cfg self w n :
  _theta_window_to_n cfg self w = Ok n -> 3 <= n.
Proof.
  unfold _theta_window_to_n. intros H.
  repeat match goal with
  | H : rbind _ _ = Ok _ |- _ =>
      apply rbind_Ok in H; destruct H as (? & ? & H)
  end.
  injection H as <-. lia.
Qed.

(** The raw score is never an infinity. *)
Lemma rle_raw_not_infinite cfg u t p d st r st' :
  compute_rle cfg u t p d st = Ok (r, st') -> not_infinite (RLEResult.rle_raw r).
Proof.
  intros H.
  destruct (compute_rle_raw _ _ _ _ _ _ _ _ H)
    as (eta & sA & inv_ts & Hc & Hinv & Hraw).
  destruct (compute_components_values _ _ _ _ _ _ _ _ _ _ _ Hc)
    as (-> & sd & Hsd).
  apply fdiv_Ok in Hinv; destruct Hinv as [_ ->].
  apply fdiv_Ok in Hraw; destruct Hraw as [_ Hraw].
  apply fdiv_Ok in Hsd; destruct Hsd as [Hnz Hst].
  rewrite Hraw, Hst.
  eapply small_not_infinite. apply raw_score_small. exact Hnz.
Qed.

(** One call with the correction off, on a state whose corrected and
    blended histories are copies of the core history. *)
Lemma call_disabled cfg x st r st' :
  enable_micro_scale cfg = false ->
  rle_hist_ms st = rle_hist st -> rle_hist_uni st = rle_hist st ->
  call cfg x st = Ok (r, st') ->
  micro_scale_identity r
  /\ rle_hist_ms st' = rle_hist st' /\ rle_hist_uni st' = rle_hist st'.
Proof.
  intros Hoff Hms Huni Hcall.
  pose proof (call_histories _ _ _ _ _ Hcall)
    as (_ & _ & Hh & Hhms & Hhuni & _).
  unfold call in Hcall.
  pose proof (rle_raw_not_infinite _ _ _ _ _ _ _ _ Hcall) as Hfin.
  destruct (compute_rle_inv _ _ _ _ _ _ _ _ Hcall)
    as (eta & sA & n_smooth & sB & sC & dtheta & sD
        & Hc & Hn & Hsm & Hup & Hadv & Hmu & Hrms & Hsms & Hruni & Hsuni
        & Hnorm & Hnms & Hnuni & Hdet).
  unfold _compute_micro_scale_factor in Hmu. rewrite Hoff in Hmu.
  cbn [negb] in Hmu.
  injection Hmu as HFmu HFq HFs HFp _ _.
  rewrite <- HFmu in Hrms, Hruni.
  rewrite mul_one_r in Hrms.
  assert (Hw : _w_from_fmu 1 = 0%float) by reflexivity.
  rewrite Hw, Hrms in Hruni.
  change (1 - 0)%float with 1%float in Hruni.
  rewrite mul_one_r, (add_mul_zero _ Hfin) in Hruni.
  (* the histories at the point of use *)
  pose proof (compute_components_state _ _ _ _ _ _ _ _ Hc) as HsA.
  destruct (_smooth_rle_state _ _ _ _ _ _ Hsm) as [HsB Hmean].
  destruct (_theta_update_state _ _ _ _ _ _ _ Hup)
    as (_ & _ & _ & HmsC & HuniC & _).
  destruct (theta_advance_state _ _ _ _ _ Hadv)
    as (_ & _ & _ & HmsD & HuniD & _).
  assert (HA : rle_hist sA = rle_hist st /\ rle_hist_ms sA = rle_hist_ms st
               /\ rle_hist_uni sA = rle_hist_uni st).
  { rewrite HsA. destruct (temp_c x); auto. }
  destruct HA as (HA1 & HA2 & HA3).
  assert (HmsD' : rle_hist_ms sD = rle_hist sA).
  { rewrite HmsD, HmsC, HsB. simpl. congruence. }
  assert (HuniD' : rle_hist_uni sD = rle_hist sA).
  { rewrite HuniD, HuniC, HsB. simpl. congruence. }
  assert (Hwin : ms_window cfg n_smooth
                 = match n_smooth with
                   | Some k => if k >? 0 then k else smooth_n cfg
                   | None => smooth_n cfg
                   end).
  { unfold ms_window. destruct (theta_window_on cfg (smooth_window_theta cfg)).
    - apply rbind_Ok in Hn. destruct Hn as (n & Hn & Hs).
      injection Hs as <-. apply _theta_window_to_n_min in Hn.
      destruct (Z.eqb_spec n 0); [lia|].
      destruct (Z.gtb_spec n 0); [reflexivity|lia].
    - injection Hn as <-. reflexivity. }
  rewrite HmsD', Hrms, Hwin, Hmean in Hsms.
  rewrite HuniD', Hruni, Hwin, Hmean in Hsuni.
  injection Hsms as Hsms. injection Hsuni as Hsuni.
  rewrite <- Hsms, Hnorm in Hnms. rewrite <- Hsuni, Hnorm in Hnuni.
  injection Hnms as Hnms. injection Hnuni as Hnuni.
  split; [|split].
  - unfold micro_scale_identity. repeat split; congruence.
  - rewrite Hhms, Hh, Hms, Hrms. reflexivity.
  - rewrite Hhuni, Hh, Huni, Hruni. reflexivity.
Qed.

End Disabled.

(** C2.  With [enable_micro_scale] off, every result of a session has the
    four factors equal to 1.0 and its corrected and blended raw, smoothed
    and normalised scores equal to the core ones as binary64 values (the
    model has one NaN, so NaN payloads are not distinguished).  The raw
    blend is [raw * 1.0 + raw * 0.0], which is [raw] because the raw score
    is never an infinity. *)
Theorem C2_disabled_micro_scale_is_identity {lib : PyLib}
    (args : Config) (samples : list Sample) tr :
  enable_micro_scale args = false ->
  session args samples = Ok tr ->
  Forall (fun rs => micro_scale_identity (fst rs)) tr.
Proof.
  intros Hoff Hs. destruct (session_inv _ _ _ Hs) as [stf Hrun].
  apply Forall_forall. intros [r st] Hin.
  destruct (In_nth_error _ _ Hin) as [k Hk].
  destruct (trace_entry
              (fun _ _ s => rle_hist_ms s = rle_hist s
                            /\ rle_hist_uni s = rle_hist s)
              (init_config args)) with (samples := samples) (st0 := init_state)
              (tr := tr) (stf := stf) (k := k) (r := r) (st := st)
    as (x & _ & [Hms Huni] & Hcall).
  - intros fed outs s x r0 s' [Hms Huni] Hcall.
    exact (proj2 (call_disabled (init_config args) _ _ _ _ Hoff Hms Huni Hcall)).
  - split; reflexivity.
  - exact Hrun.
  - exact Hk.
  - exact (proj1 (call_disabled (init_config args) _ _ _ _ Hoff Hms Huni Hcall)).
Qed.

(** ** Concrete sessions *)

(** Evaluates a concrete session whose result is not yet known. *)
Ltac run_session E :=
  vm_compute in E;
  first [discriminate E | inversion E; subst; clear E].

(** C1, witness: three idle samples on a default engine. *)
Lemma C1_histories_and_ring_buffers_witness :
  match session (lib := float_lib) default_args (repeat idle_sample 3) with
  | Ok tr =>
      match nth_error tr 2 with
      | Some (r, st) => len (util_hist st) = 3 /\ len (_buf_dt st) = 3
      | None => False
      end
  | Raise _ => False
  end.
Proof.
  destruct (session (lib := float_lib) default_args (repeat idle_sample 3))
    as [tr|e] eqn:E.
  - destruct (nth_error tr 2) as [[r st]|] eqn:Hk.
    + pose proof (C1_histories_and_ring_buffers (lib := float_lib)
                    default_args _ tr E 2 r st Hk) as H.
      simpl in H. destruct H as (_ & H1 & _ & _ & _ & _ & H6 & _).
      split; [exact H1|exact H6].
    + run_session E. discriminate Hk.
  - run_session E.
Defined.

(** C1, counterexample: after 1025 calls on a default engine every score
    and sensor history holds 1025 values, more than the 1024 of the ring
    buffers, the largest capacity the engine has. *)
Lemma C1_histories_exceed_any_capacity :
  match session (lib := float_lib) default_args (repeat idle_sample 1025) with
  | Ok tr =>
      match nth_error tr 1024 with
      | Some (_, st) =>
          (len (util_hist st) =? 1025) && (len (temp_hist st) =? 1025)
          && (len (rle_hist st) =? 1025) && (len (rle_hist_ms st) =? 1025)
          && (len (rle_hist_uni st) =? 1025)
          && (_rb_len (init_config default_args) <? len (util_hist st))
      | None => false
      end
  | Raise _ => false
  end = true.
Proof. vm_compute. reflexivity. Qed.

(** C5, witness: the fourth of five idle samples on a default engine. *)
Lemma C5_warm_up_reports_no_collapse_witness :
  match session (lib := float_lib) default_args (repeat idle_sample 5) with
  | Ok tr =>
      match nth_error tr 3 with
      | Some (r, st) =>
          RLEResult.collapse r = 0 /\ RLEResult.rolling_peak r = 0%float
          /\ below_ctr st = 0
      | None => False
      end
  | Raise _ => False
  end.
Proof.
  destruct (session (lib := float_lib) default_args (repeat idle_sample 5))
    as [tr|e] eqn:E.
  - destruct (nth_error tr 3) as [[r st]|] eqn:Hk.
    + apply (C5_warm_up_reports_no_collapse (lib := float_lib)
               default_args _ tr E 3 r st Hk).
      vm_compute. reflexivity.
    + run_session E. discriminate Hk.
  - run_session E.
Defined.

(** C6, witness: eight idle samples (utilization 5, load factor 0.1). *)
Lemma C6_no_collapse_while_gate_closed_witness :
  match session (lib := float_lib) default_args (repeat idle_sample 8) with
  | Ok tr => Forall (fun rs => RLEResult.collapse (fst rs) = 0) tr
  | Raise _ => False
  end.
Proof.
  destruct (session (lib := float_lib) default_args (repeat idle_sample 8))
    as [tr|e] eqn:E.
  - apply (C6_no_collapse_while_gate_closed (lib := float_lib)
             default_args (repeat idle_sample 8) tr);
      [reflexivity|reflexivity|vm_compute; discriminate|exact E|].
    run_session E.
    repeat constructor.
  - run_session E.
Defined.

(** C10, witness: two ramp samples on a default engine. *)
Lemma C10_normalisation_uses_cpu_anchors_witness :
  match session (lib := float_lib) default_args (ramp_samples 2) with
  | Ok tr =>
      Forall2 (fun x rs =>
                 RLEResult.rle_norm (fst rs)
                 = py_max 0 (py_min 1
                     (RLEResult.rle_smoothed (fst rs)
                      / py_max (expected_rle 0.3 5.0 67.0
                                  (py_max 0 (py_min 100 (util_pct x)))) 1e-6)))
              (ramp_samples 2) tr
  | Raise _ => False
  end.
Proof.
  destruct (session (lib := float_lib) default_args (ramp_samples 2))
    as [tr|e] eqn:E.
  - pose proof (C10_normalisation_uses_cpu_anchors (lib := float_lib)
                  default_args _ tr E) as H.
    eapply Forall2_impl; [|exact H].
    intros x rs Hx. exact (proj1 Hx).
  - run_session E.
Defined.

(** C7, witness: two temperature samples one second apart. *)
Lemma C7_t_sustain_floors_the_interval_witness :
  compute_t_sustain 85 [40; 41]%float 1 600
  = Ok (t_sustain_spec 85 [40; 41]%float 1 600).
Proof.
  apply (proj2 (C7_t_sustain_floors_the_interval 85 [40; 41]%float 1 600)).
  reflexivity.
Defined.

(** C7, counterexample: for a positive interval below 1e-3 ([2^-11] s and
    a step of [2^-10] degrees) the code and the specification's formula
    give different sustain times. *)
Lemma C7_short_interval_differs :
  let hist := [40; 40.0009765625]%float in
  let dt := 0.00048828125%float in
  (0 <? dt)%float = true
  /\ compute_t_sustain 85 hist dt 600 = Ok 46.079000000000001%float
  /\ t_sustain_spec 85 hist dt 600 = 22.49951171875%float
  /\ (46.079000000000001 =? 22.49951171875)%float = false.
Proof. vm_compute. repeat split; reflexivity. Qed.

(** C3, counterexample: no ladder of thresholds evaluated on
    [min(current, predicted)] reproduces [control_decision]: for the
    scores (0.15, 1.0) it answers "emergency", for (1.0, 0.15)
    "aggressive", and both pairs have the same minimum. *)
Lemma C3_not_a_ladder_on_the_minimum :
  ~ exists t1 t2 t3 : float,
      forall cur pred hr st,
        exists d,
          control_decision cur (Some pred) hr st = Ok (d, st)
          /\ ControlDecision.state d = decide_on_min t1 t2 t3 cur pred.
Proof.
  intros (t1 & t2 & t3 & H).
  destruct (H 0.15 1 None init_state)%float as (d1 & Hd1 & Hs1).
  destruct (H 1 0.15 None init_state)%float as (d2 & Hd2 & Hs2).
  vm_compute in Hd1. inversion Hd1; subst d1; clear Hd1.
  vm_compute in Hd2. inversion Hd2; subst d2; clear Hd2.
  unfold decide_on_min in Hs1, Hs2.
  change (py_min 0.15 1) with 0.15%float in Hs1.
  change (py_min 1 0.15) with 0.15%float in Hs2.
  unfold ladder in Hs1, Hs2. simpl ControlDecision.state in Hs1, Hs2.
  destruct (0.15 <? t1)%float; [discriminate Hs2|].
  destruct (0.15 <? t2)%float; [discriminate Hs1|].
  destruct (0.15 <? t3)%float; discriminate Hs1.
Qed.


(** C4, counterexample: with [theta_min_s = 100] the first call reports
    the period 60 s, below the configured minimum. *)
Lemma C4_initial_period_outside_range :
  match session (lib := float_lib) narrow_range_args [idle_sample] with
  | Ok [(r, st)] =>
      (RLEResult.T0_s r =? 60)%float && (_t0_s st =? 60)%float
      && (_t0_s st <? theta_min_s (init_config narrow_range_args))%float
  | _ => false
  end = true.
Proof. vm_compute. reflexivity. Qed.

(** C8, failing input: on a default engine, after thirty-one ordinary
    samples, a sample whose interval is the finite float 1e308 makes
    [compute_rle] raise [OverflowError]: the lag bound
    [2.0 * dt_win_s] overflows to infinity and [int()] is applied to it. *)
Theorem C8_huge_interval_raises :
  (exists tr, session (lib := float_lib) default_args (firstn 31 huge_dt_samples)
              = Ok tr)
  /\ session (lib := float_lib) default_args huge_dt_samples
     = Raise OverflowError.
Proof.
  split.
  - destruct (session (lib := float_lib) default_args (firstn 31 huge_dt_samples))
      as [tr|e] eqn:E.
    + exists tr. reflexivity.
    + vm_compute in E. discriminate E.
  - vm_compute. reflexivity.
Qed.

(** C9, witness: eight ramp samples with and without the correction. *)
Lemma C9_collapse_ignores_micro_scale_witness :
  match session (lib := float_lib) (with_micro_scale true default_args)
                (ramp_samples 8),
        session (lib := float_lib) (with_micro_scale false default_args)
                (ramp_samples 8) with
  | Ok tr1, Ok tr2 =>
      map (fun rs => RLEResult.collapse (fst rs)) tr1
      = map (fun rs => RLEResult.collapse (fst rs)) tr2
  | _, _ => False
  end.
Proof.
  destruct (session (lib := float_lib) (with_micro_scale true default_args)
                    (ramp_samples 8)) as [tr1|e] eqn:E1.
  - destruct (session (lib := float_lib) (with_micro_scale false default_args)
                      (ramp_samples 8)) as [tr2|e] eqn:E2.
    + exact (proj1 (C9_collapse_ignores_micro_scale (lib := float_lib)
                      default_args true false _ tr1 tr2 E1 E2)).
    + run_session E2.
  - run_session E1.
Defined.

(** C2, witness: eight ramp samples on a default engine, whose correction
    is off. *)
Lemma C2_disabled_micro_scale_is_identity_witness :
  match session (lib := float_lib) default_args (ramp_samples 8) with
  | Ok tr => len tr = 8 /\ Forall (fun rs => micro_scale_identity (fst rs)) tr
  | Raise _ => False
  end.
Proof.
  destruct (session (lib := float_lib) default_args (ramp_samples 8))
    as [tr|e] eqn:E.
  - split.
    + run_session E. reflexivity.
    + exact (C2_disabled_micro_scale_is_identity (lib := float_lib)
               default_args _ tr eq_refl E).
  - run_session E.
Defined.

(** ** Rounding produces valid floats: [float(n)] of a positive int *)

Lemma Zdigits2_div_pow2 m n :
  0 < m / 2 ^ n -> 0 <= n -> Zdigits2 (m / 2 ^ n) = Zdigits2 m - n.
Proof.
  intros Hq Hn.
  assert (Hp : 0 < 2 ^ n) by (apply Z.pow_pos_nonneg; lia).
  assert (Hm : 0 < m).
  { destruct (Z_lt_le_dec 0 m) as [|Hle]; [assumption|].
    assert (m / 2 ^ n <= 0) by (apply Z.div_le_upper_bound; lia). lia. }
  pose proof (Zdigits2_lt m ltac:(lia)) as Hhi.
  pose proof (Zdigits2_ge m Hm) as Hlo.
  pose proof (Zdigits2_pos m Hm) as Hd.
  set (d := Zdigits2 m) in *.
  assert (Hnd : n <= d - 1).
  { destruct (Z_le_gt_dec n (d - 1)) as [|Hgt]; [assumption|].
    assert (2 ^ d <= 2 ^ n) by (apply Z.pow_le_mono_r; lia).
    rewrite Z.div_small in Hq by lia. lia. }
  pose proof (div_pow2_ge m d n Hn Hnd Hlo) as H1.
  pose proof (div_pow2_lt m d n ltac:(lia) Hn ltac:(lia) Hhi) as H2.
  rewrite Z.max_l in H2 by lia.
  apply Z.le_antisymm.
  - apply Zdigits2_le_of_lt; lia.
  - destruct (m / 2 ^ n) as [|q|q] eqn:E; try lia. cbn [Zdigits2].
    apply digits_ge_of_le.
    replace (d - n - 1) with (d - 1 - n) by lia. exact H1.
Qed.

(** An aligned mantissa (its exponent not above the canonical one)
    rounds to a valid float. *)
Lemma binary_round_aux_valid s mx ex lx :
  0 <= mx -> ex <= fexp prec emax (Zdigits2 mx + ex) ->
  valid_binary (binary_round_aux prec emax s mx ex lx) = true.
Proof.
  intros Hm Hal.
  destruct (binary_round_aux_stages s mx ex lx Hm)
    as (m1 & m2 & e1 & e2 & He1 & Hm1 & He2 & Hm2 & ->).
  rewrite fexp_eq in *.
  destruct m2 as [|p|p]; try reflexivity.
  change (emax - prec) with 971.
  destruct (e2 <=? 971) eqn:Eb; [|reflexivity].
  unfold SpecFloat.valid_binary, bounded, canonical_mantissa.
  change (emax - prec) with 971.
  rewrite Eb, andb_true_r, fexp_eq. apply Z.eqb_eq.
  assert (Hn1 : 0 <= e1 - ex) by lia.
  assert (Hp1 : 0 < 2 ^ (e1 - ex)) by (apply Z.pow_pos_nonneg; lia).
  assert (Hq0 : 0 <= mx / 2 ^ (e1 - ex)) by (apply Z.div_pos; lia).
  assert (Hm1pos : 0 < m1).
  { destruct (Z_lt_le_dec 0 m1) as [|Hle]; [assumption|].
    assert (m1 = 0) by lia. subst m1. rewrite Z.div_0_l in Hm2; [lia|].
    apply Z.pow_nonzero; lia. }
  assert (Hn2 : 0 <= e2 - e1) by lia.
  assert (Hd2 : Zdigits2 (Zpos p) = Zdigits2 m1 - (e2 - e1)).
  { rewrite Hm2. apply Zdigits2_div_pow2; [lia|exact Hn2]. }
  cbn [Zdigits2] in Hd2. rewrite Hd2.
  replace (Zdigits2 m1 - (e2 - e1) + e2) with (Zdigits2 m1 + e1) by lia.
  (* the canonical exponent of the rounded mantissa is not below [e1] *)
  assert (Hge : e1 <= Z.max (Zdigits2 m1 + e1 - 53) (-1074)).
  { destruct (Z_le_gt_dec (Zdigits2 mx + ex - 53) (-1074)) as [Hsub|Hnor].
    - lia.
    - (* normal range: [e1 = D - 53], and rounding keeps the digits *)
      assert (He1' : e1 = Zdigits2 mx + ex - 53) by lia.
      assert (Hq1 : 0 < mx / 2 ^ (e1 - ex)).
      { pose proof (Zdigits2_nonneg mx) as Hdx.
        assert (Hmx : 0 < mx).
        { destruct (Z_lt_le_dec 0 mx) as [|Hle]; [assumption|].
          assert (mx = 0) by lia. subst mx. cbn [Zdigits2] in *. lia. }
        pose proof (Zdigits2_ge mx Hmx) as Hlo.
        assert (Hle : e1 - ex <= Zdigits2 mx - 1) by lia.
        pose proof (div_pow2_ge mx (Zdigits2 mx) (e1 - ex) Hn1 Hle Hlo) as Hq.
        assert (0 < 2 ^ (Zdigits2 mx - 1 - (e1 - ex)))
          by (apply Z.pow_pos_nonneg; lia).
        lia. }
      pose proof (Zdigits2_div_pow2 mx (e1 - ex) Hq1 Hn1) as Hdq.
      assert (Hmono : Zdigits2 (mx / 2 ^ (e1 - ex)) <= Zdigits2 m1)
        by (apply Zdigits2_mono; lia).
      lia. }
  lia.
Qed.

Lemma binary_round_valid s m e :
  valid_binary (binary_round prec emax s m e) = true.
Proof.
  unfold binary_round.
  pose proof (shl_align_digits m e (fexp prec emax (Zpos (digits2_pos m) + e)))
    as Hd.
  pose proof (shl_align_spec m e (fexp prec emax (Zpos (digits2_pos m) + e)))
    as Hs.
  assert (He : snd (shl_align m e (fexp prec emax (Zpos (digits2_pos m) + e)))
               <= fexp prec emax (Zpos (digits2_pos m) + e)).
  { unfold shl_align.
    destruct (fexp prec emax (Zpos (digits2_pos m) + e) - e) eqn:E;
      cbn [snd]; lia. }
  destruct (shl_align m e _) as [mz ez]. cbn [snd] in He.
  apply binary_round_aux_valid; [lia|].
  cbn [Zdigits2]. rewrite Hd. exact He.
Qed.

Lemma binary_normalize_valid m e sz :
  valid_binary (binary_normalize prec emax m e sz) = true.
Proof.
  destruct m; simpl; [reflexivity|apply binary_round_valid..].
Qed.

Lemma Prim2SF_Z2float (n : Z) :
  Prim2SF (Z2float n) = binary_normalize prec emax n 0 false.
Proof.
  unfold Z2float. apply Prim2SF_SF2Prim. apply binary_normalize_valid.
Qed.

(** [float(n)] of a positive int is at least 1.0, hence never zero. *)
Lemma Z2float_big (n : Z) : 0 < n -> big 1 (Z2float n).
Proof.
  intros Hn. unfold big. rewrite Prim2SF_Z2float.
  destruct n as [|p|p]; try lia.
  cbn [binary_normalize]. apply binary_round_big; [|lia].
  pose proof (Pos2Z.is_pos (digits2_pos p)). lia.
Qed.

Lemma big_nonzero k (x : float) : big k x -> (x =? 0)%float = false.
Proof.
  unfold big. rewrite eqb_spec, Prim2SF_zero. unfold SFeqb.
  destruct (Prim2SF x) as [s|s| |s m e]; cbn [sf_big]; try contradiction;
    intros _; simpl; try reflexivity; destruct s; reflexivity.
Qed.

Lemma Z2float_nonzero (n : Z) : 0 < n -> (Z2float n =? 0)%float = false.
Proof. intros Hn. apply (big_nonzero 1). apply Z2float_big. exact Hn. Qed.

Lemma nonneg_not_below_zero (v : float) :
  sf_nonneg (Prim2SF v) -> (v <? 0)%float = false.
Proof.
  rewrite ltb_spec, Prim2SF_zero. unfold SFltb.
  destruct (Prim2SF v) as [s|s| |s m e]; cbn [sf_nonneg]; intros H; subst;
    try reflexivity; destruct s; reflexivity.
Qed.

(** * Further properties of the engine *)

(** ** More order facts on binary64 numbers *)

Lemma SFcompare_eq_l x y z :
  SFcompare x y = Some Eq -> SFcompare x z = SFcompare y z.
Proof.
  destruct x as [sx|sx| |sx mx ex], y as [sy|sy| |sy my ey];
    try rewrite !SFcompare_finite; simpl; try discriminate;
    try (destruct sx; discriminate); try (destruct sy; discriminate).
  - intros _. destruct z; reflexivity.
  - destruct sx, sy; try discriminate; reflexivity.
  - destruct sx, sy; try discriminate; intros H;
      cmp_cases; simpl in *; try discriminate; subst; reflexivity.
Qed.

Lemma SFcompare_eq_sym x y :
  SFcompare x y = Some Eq -> SFcompare y x = Some Eq.
Proof. intros H. rewrite SFcompare_antisym, H. reflexivity. Qed.

Lemma SFcompare_eq_r x y z :
  SFcompare y z = Some Eq -> SFcompare x y = SFcompare x z.
Proof.
  intros H. apply SFcompare_eq_sym in H.
  rewrite (SFcompare_antisym y x), (SFcompare_antisym z x).
  rewrite (SFcompare_eq_l _ _ x H). reflexivity.
Qed.

Lemma ltb_leb (a b : float) : (a <? b)%float = true -> (a <=? b)%float = true.
Proof.
  rewrite ltb_spec, leb_spec. unfold SFltb, SFleb.
  destruct (SFcompare (Prim2SF a) (Prim2SF b)) as [[| |]|]; congruence.
Qed.

Lemma leb_cases (a b : float) :
  (a <=? b)%float = true ->
  SFcompare (Prim2SF a) (Prim2SF b) = Some Lt
  \/ SFcompare (Prim2SF a) (Prim2SF b) = Some Eq.
Proof.
  rewrite leb_spec. unfold SFleb.
  destruct (SFcompare (Prim2SF a) (Prim2SF b)) as [[| |]|]; auto; discriminate.
Qed.

Lemma ltb_cases (a b : float) :
  (a <? b)%float = true <-> SFcompare (Prim2SF a) (Prim2SF b) = Some Lt.
Proof.
  rewrite ltb_spec. unfold SFltb.
  destruct (SFcompare (Prim2SF a) (Prim2SF b)) as [[| |]|];
    split; congruence.
Qed.

Lemma leb_ltb_trans (a b c : float) :
  (a <=? b)%float = true -> (b <? c)%float = true -> (a <? c)%float = true.
Proof.
  intros H1 H2. destruct (leb_cases _ _ H1) as [E|E].
  - apply ltb_cases in E. exact (ltb_trans _ _ _ E H2).
  - apply ltb_cases. rewrite (SFcompare_eq_l _ _ _ E). apply ltb_cases. exact H2.
Qed.

Lemma ltb_leb_trans (a b c : float) :
  (a <? b)%float = true -> (b <=? c)%float = true -> (a <? c)%float = true.
Proof.
  intros H1 H2. destruct (leb_cases _ _ H2) as [E|E].
  - apply ltb_cases in E. exact (ltb_trans _ _ _ H1 E).
  - apply ltb_cases. rewrite <- (SFcompare_eq_r _ _ _ E). apply ltb_cases. exact H1.
Qed.

Lemma leb_trans (a b c : float) :
  (a <=? b)%float = true -> (b <=? c)%float = true -> (a <=? c)%float = true.
Proof.
  intros H1 H2. destruct (leb_cases _ _ H1) as [E|E].
  - apply ltb_leb. apply ltb_cases in E. exact (ltb_leb_trans _ _ _ E H2).
  - rewrite leb_spec in *. unfold SFleb in *.
    rewrite (SFcompare_eq_l _ _ _ E). exact H2.
Qed.

Lemma ltb_is_number (a b : float) :
  (a <? b)%float = true -> is_number a = true /\ is_number b = true.
Proof. intros H. apply leb_is_number. apply ltb_leb. exact H. Qed.

Lemma ltb_irrefl (a : float) : (a <? a)%float = false.
Proof.
  destruct (a <? a)%float eqn:E; [|reflexivity].
  rewrite (ltb_asym _ _ E) in E. discriminate.
Qed.

(** [max(lo, min(hi, x))] as the engine clamps: the result is a number
    between [lo] and [hi], also when [x] is NaN (then it is [hi]). *)
Lemma py_clamp_range (lo hi x : float) :
  (lo <=? hi)%float = true ->
  (lo <=? py_max lo (py_min hi x))%float = true
  /\ (py_max lo (py_min hi x) <=? hi)%float = true.
Proof.
  intros Hord. destruct (leb_is_number _ _ Hord) as [Hlo Hhi].
  unfold py_max, py_min.
  destruct (x <? hi)%float eqn:E1.
  - destruct (lo <? x)%float eqn:E2.
    + split; apply ltb_leb; assumption.
    + split; [apply leb_refl; exact Hlo|exact Hord].
  - destruct (lo <? hi)%float eqn:E2.
    + split; [exact Hord|apply leb_refl; exact Hhi].
    + split; [apply leb_refl; exact Hlo|exact Hord].
Qed.

Lemma py_clamp_nan (lo hi x : float) :
  is_number x = false -> py_max lo (py_min hi x) = py_max lo hi.
Proof.
  intros Hx. unfold py_min.
  destruct (x <? hi)%float eqn:E; [|reflexivity].
  apply ltb_is_number in E. destruct E as [E _]. congruence.
Qed.

Lemma py_max_not_below (a b : float) : (py_max a b <? a)%float = false.
Proof.
  unfold py_max. destruct (a <? b)%float eqn:E.
  - apply ltb_asym. exact E.
  - apply ltb_irrefl.
Qed.

(** ** Normalisation and blending stay in the unit interval *)

Section Ranges.

Context {lib : PyLib}.

(** [normalize_rle] never raises and its value is a number of [[0, 1]],
    for every score and utilization (NaN and infinities included) and for
    both anchor sets. *)
Theorem normalize_rle_unit_interval (rle util : float) (device : string) :
  exists v,
    normalize_rle rle util device = Ok v
    /\ (0 <=? v)%float = true /\ (v <=? 1)%float = true.
Proof.
  unfold normalize_rle.
  destruct (String.eqb device "cpu");
    rewrite fdiv_guarded by reflexivity; simpl;
    eexists; (split; [reflexivity|]); apply py_clamp_range; reflexivity.
Qed.

(** The blend weight is a number of [[0, 1]] for every factor, NaN
    included. *)
Theorem _w_from_fmu_unit_interval (f : float) :
  (0 <=? _w_from_fmu f)%float = true /\ (_w_from_fmu f <=? 1)%float = true.
Proof.
  unfold _w_from_fmu. cbv zeta.
  destruct (0.98 <=? f)%float; [split; reflexivity|].
  destruct (f <=? 0.90)%float; [split; reflexivity|].
  apply py_clamp_range. reflexivity.
Qed.


(** With two or more temperatures the sustain time is never below one
    second and never above [max(max_t, 1)]; with fewer it is [max_t]
    itself. *)
Theorem compute_t_sustain_range (limit : float) (hist : list float)
    (dt max_t : float) :
  exists v,
    compute_t_sustain limit hist dt max_t = Ok v
    /\ (if len hist <? 2 then v = max_t
        else (v <? 1)%float = false /\ (py_max max_t 1 <? v)%float = false).
Proof.
  unfold compute_t_sustain. destruct (len hist <? 2); [eauto|].
  rewrite fdiv_guarded by reflexivity. simpl.
  rewrite fdiv_guarded by reflexivity. simpl.
  eexists. split; [reflexivity|].
  set (t := (_ / _)%float). clearbody t.
  unfold py_max, py_min.
  destruct (max_t <? t)%float eqn:E1.
  - destruct (max_t <? 1)%float eqn:E2.
    + split; apply ltb_irrefl.
    + split; [exact E2|apply ltb_irrefl].
  - destruct (t <? 1)%float eqn:E2.
    + split; [apply ltb_irrefl|].
      destruct (max_t <? 1)%float eqn:E3; [apply ltb_irrefl|exact E3].
    + split; [exact E2|].
      destruct (max_t <? 1)%float eqn:E3; [|exact E1].
      destruct (1 <? t)%float eqn:E4; [|reflexivity].
      rewrite (ltb_trans _ _ _ E3 E4) in E1. discriminate.
Qed.

End Ranges.

(** ** The collapse detector *)

Section Detector.

Context {lib : PyLib}.

(** What one run of the detector establishes. *)
Lemma _detect_collapse_facts cfg sm u a t ts st c st' :
  _detect_collapse cfg sm u a t ts st = Ok (c, st') ->
  (c = 0 \/ c = 1)
  /\ (0 <= below_ctr st -> 0 <= below_ctr st' <= below_ctr st + 1)
  /\ (Z.max (smooth_n cfg) 5 <= len (rle_hist st) ->
      (rolling_peak st' <? sm)%float = false)
  /\ (c = 1 ->
      Z.max (smooth_n cfg) 5 <= len (rle_hist st)
      /\ ((ts <? 60)%float
          || match t with
             | Some x => (temp_limit_c cfg - 5 <? x)%float
             | None => false
             end
          || (0.95 <? a)%float) = true
      /\ (hysteresis_theta cfg = None -> hysteresis_s cfg <= below_ctr st')
      /\ (1 <= hysteresis_s cfg -> 0 <= below_ctr st -> 0 < below_ctr st')
      /\ (0 < below_ctr st' ->
          ((util_gate_pct cfg <? u)%float || (a_load_gate cfg <? a)%float) = true
          /\ 2 <= len (temp_hist st') /\ t <> None
          /\ (0.05 <? last_elt (temp_hist st') - last_but_one (temp_hist st'))%float
             = true
          /\ (sm <? drop_frac cfg * py_max (rolling_peak st') 1e-6)%float = true
          /\ below_ctr st' = below_ctr st + 1)).
Proof.
  unfold _detect_collapse. intros H. minv.
  destruct (len (rle_hist st) >=? Z.max (smooth_n cfg) 5) eqn:Ew;
    cbn [negb] in *.
  2:{ minv. simpl. rewrite Z.geb_leb in Ew. apply Z.leb_gt in Ew.
      repeat split; auto; try lia; discriminate. }
  apply Z.geb_le in Ew.
  minv. simpl in *.
  match goal with
  | H : (if ?g then _ else _) _ = Ok _ |- _ => destruct g eqn:Eg
  end; minv; simpl in *;
  match goal with
  | H : _ = Ok ?n |- _ =>
      assert (Hn : hysteresis_theta cfg = None -> n = hysteresis_s cfg);
      [ intros Hnone; rewrite Hnone in H; unfold theta_window_on in H;
        simpl in H; rewrite !andb_false_r in H; inversion H; reflexivity | ];
      assert (Hn1 : 1 <= hysteresis_s cfg -> 1 <= n);
      [ intros Hh; destruct (theta_window_on cfg (hysteresis_theta cfg));
        [ apply rbind_Ok in H; destruct H as (? & _ & H); inversion H; lia
        | inversion H; lia ] | ]
  end.
  - (* the counter was incremented *)
    apply andb_prop in Eg. destruct Eg as [Eg Ed].
    apply andb_prop in Eg. destruct Eg as [Eu Eh].
    split.
    { match goal with |- context [if ?b then 1 else 0] => destruct b end; auto. }
    split; [intros; lia|]. split.
    { intros _. apply py_max_not_below. }
    match goal with |- context [?x >=? ?n] => destruct (x >=? n) eqn:Ec end;
      simpl; [|intros; discriminate].
    match goal with
    | |- (if ?e then 1 else 0) = 1 -> _ => destruct e eqn:Ee
    end; [|intros; discriminate].
    intros _. split; [lia|]. split; [reflexivity|]. split.
    { intros Hnone. rewrite (Hn Hnone) in Ec. apply Z.geb_le in Ec. exact Ec. }
    split.
    { intros Hh Hpos. specialize (Hn1 Hh). apply Z.geb_le in Ec.
      simpl in Ec. lia. }
    intros _. split; [exact Eu|].
    destruct (len (temp_hist st) >=? 2) eqn:El; simpl in Eh; [|discriminate].
    apply Z.geb_le in El.
    destruct t; simpl in Eh; [|discriminate].
    repeat split; auto; discriminate.
  - (* the counter was reset *)
    split.
    { match goal with |- context [if ?b then 1 else 0] => destruct b end; auto. }
    split; [intros; lia|]. split.
    { intros _. apply py_max_not_below. }
    match goal with |- context [?x >=? ?n] => destruct (x >=? n) eqn:Ec end;
      simpl; [|intros; discriminate].
    match goal with
    | |- (if ?e then 1 else 0) = 1 -> _ => destruct e eqn:Ee
    end; [|intros; discriminate].
    intros _. split; [lia|]. split; [reflexivity|]. split.
    { intros Hnone. rewrite (Hn Hnone) in Ec. apply Z.geb_le in Ec. exact Ec. }
    split.
    { intros Hh Hpos. specialize (Hn1 Hh). apply Z.geb_le in Ec.
      simpl in Ec. lia. }
    intros Hpos. lia.
Qed.

End Detector.

Section DetectorSessions.

Context {lib : PyLib}.

(** The state the detector of one call starts from. *)
Lemma call_detector cfg x st r st' :
  call cfg x st = Ok (r, st') ->
  exists sE,
    rle_hist sE = rle_hist st ++ [RLEResult.rle_raw r]
    /\ below_ctr sE = below_ctr st
    /\ _detect_collapse cfg (RLEResult.rle_smoothed r) (util_pct x)
         (RLEResult.a_load r) (temp_c x) (RLEResult.t_sustain_s r) sE
       = Ok (RLEResult.collapse r, st')
    /\ RLEResult.rolling_peak r = rolling_peak st'.
Proof.
  unfold call. intros H.
  apply compute_rle_inv in H.
  destruct H as (eta & sA & n_smooth & sB & sC & dtheta & sD & Hcc & _ & Hsm
                 & Hup & Hadv & _ & _ & _ & _ & _ & _ & _ & _ & Hdc & Hpk & _).
  eexists. split; [|split; [|split; [exact Hdc|exact Hpk]]].
  - apply compute_components_state in Hcc.
    apply _smooth_rle_state in Hsm. destruct Hsm as [HsB _].
    apply _theta_update_state in Hup. destruct Hup as (_ & _ & U3 & _).
    apply theta_advance_state in Hadv. destruct Hadv as (_ & _ & A3 & _).
    simpl. rewrite A3, U3. subst sB sA. destruct (temp_c x); reflexivity.
  - apply compute_components_state in Hcc.
    apply _smooth_rle_state in Hsm. destruct Hsm as [HsB _].
    apply _theta_update_state in Hup.
    destruct Hup as (_ & _ & _ & _ & _ & _ & U & _).
    apply theta_advance_state in Hadv.
    destruct Hadv as (_ & _ & _ & _ & _ & _ & A & _).
    simpl. rewrite A, U. subst sB sA. destruct (temp_c x); reflexivity.
Qed.

(** The hysteresis counter after [n] calls: zero through the warm-up, then
    at most one more per call. *)
Lemma below_ctr_bound cfg (fed : list Sample) st x r st' :
  (len (rle_hist st) = len fed
   /\ 0 <= below_ctr st <= Z.max 0 (len fed - (Z.max (smooth_n cfg) 5 - 1))) ->
  call cfg x st = Ok (r, st') ->
  len (rle_hist st') = len (fed ++ [x])
  /\ 0 <= below_ctr st'
     <= Z.max 0 (len (fed ++ [x]) - (Z.max (smooth_n cfg) 5 - 1)).
Proof.
  intros [Hl Hb] Hc.
  pose proof (call_histories _ _ _ _ _ Hc) as (_ & _ & Hh & _).
  destruct (call_detector _ _ _ _ _ Hc) as (sE & HsE & Hctr & Hdc & _).
  rewrite Hh, !len_app, Hl. change (len [x]) with 1.
  change (len [RLEResult.rle_raw r]) with 1.
  split; [reflexivity|].
  destruct (Z_lt_le_dec (len (rle_hist sE)) (Z.max (smooth_n cfg) 5)) as [Hw|Hw].
  - destruct (_detect_collapse_warm_up _ _ _ _ _ _ _ _ _ Hw Hdc) as (_ & _ & ->).
    lia.
  - destruct (_detect_collapse_facts _ _ _ _ _ _ _ _ _ Hdc) as (_ & Hstep & _).
    rewrite Hctr in Hstep. specialize (Hstep ltac:(lia)).
    rewrite HsE, len_app, Hl in Hw. change (len [RLEResult.rle_raw r]) with 1 in Hw.
    lia.
Qed.

End DetectorSessions.

(** A collapse is never reported before call number
    [max(smooth_n, 5) + hysteresis_s - 1] (sample-count hysteresis, that
    is [hysteresis_theta] unset): the counter is zero through the warm-up
    and grows by at most one per call. *)
Theorem collapse_not_before_hysteresis {lib : PyLib} args samples tr :
  hysteresis_theta args = None ->
  session args samples = Ok tr ->
  forall k r st,
    nth_error tr k = Some (r, st) ->
    RLEResult.collapse r = 1 ->
    Z.max (smooth_n (init_config args)) 5 <= Z.of_nat k + 1
    /\ Z.max (smooth_n (init_config args)) 5 + hysteresis_s args - 1
       <= Z.of_nat k + 1.
Proof.
  intros Hnone Hs k r st Hk Hcol.
  destruct (session_inv _ _ _ Hs) as [stf Hrun].
  set (cfg := init_config args) in *.
  destruct (trace_entry
              (fun fed _ s =>
                 len (rle_hist s) = len fed
                 /\ 0 <= below_ctr s
                    <= Z.max 0 (len fed - (Z.max (smooth_n cfg) 5 - 1)))
              cfg) with (samples := samples) (st0 := init_state)
              (tr := tr) (stf := stf) (k := k) (r := r) (st := st)
    as (x & Hx & HI & Hcall).
  - intros fed outs s x r0 s' HI Hc. eapply below_ctr_bound; eauto.
  - simpl. split; [reflexivity|]. unfold len. simpl. lia.
  - exact Hrun.
  - exact Hk.
  - assert (Hfed : len (firstn k samples) = Z.of_nat k).
    { unfold len. rewrite length_firstn.
      assert (k < List.length samples)%nat
        by (apply nth_error_Some; congruence).
      lia. }
    pose proof (below_ctr_bound cfg _ _ _ _ _ HI Hcall)
      as [_ Hb].
    rewrite len_app, Hfed in Hb. change (len [x]) with 1 in Hb.
    destruct (call_detector _ _ _ _ _ Hcall) as (sE & HsE & _ & Hdc & _).
    destruct (_detect_collapse_facts _ _ _ _ _ _ _ _ _ Hdc)
      as (_ & _ & _ & Hone).
    destruct (Hone Hcol) as (Hwarm & _ & Hh & _).
    rewrite HsE, len_app in Hwarm. destruct HI as [Hl _].
    rewrite Hl, Hfed in Hwarm. change (len [RLEResult.rle_raw r]) with 1 in Hwarm.
    specialize (Hh Hnone). change (hysteresis_s cfg) with (hysteresis_s args) in Hh.
    split; [exact Hwarm|]. lia.
Qed.

(** Every trace entry comes from one call on a state holding as many core
    scores as calls were made before, with a non-negative counter. *)
Lemma session_entry {lib : PyLib} args samples tr k r st :
  session args samples = Ok tr ->
  nth_error tr k = Some (r, st) ->
  exists x s0,
    nth_error samples k = Some x
    /\ call (init_config args) x s0 = Ok (r, st)
    /\ s0 = state_before init_state tr k
    /\ len (rle_hist s0) = Z.of_nat k
    /\ 0 <= below_ctr s0.
Proof.
  intros Hs Hk.
  destruct (session_inv _ _ _ Hs) as [stf Hrun].
  set (cfg := init_config args) in *.
  destruct (trace_entry
              (fun fed _ s =>
                 len (rle_hist s) = len fed
                 /\ 0 <= below_ctr s
                    <= Z.max 0 (len fed - (Z.max (smooth_n cfg) 5 - 1)))
              cfg) with (samples := samples) (st0 := init_state)
              (tr := tr) (stf := stf) (k := k) (r := r) (st := st)
    as (x & Hx & HI & Hcall).
  - intros fed outs s x r0 s' HI Hc. eapply below_ctr_bound; eauto.
  - simpl. split; [reflexivity|]. unfold len. simpl. lia.
  - exact Hrun.
  - exact Hk.
  - exists x, (state_before init_state tr k).
    assert (Hfed : len (firstn k samples) = Z.of_nat k).
    { unfold len. rewrite length_firstn.
      assert (k < List.length samples)%nat
        by (apply nth_error_Some; congruence).
      lia. }
    destruct HI as [Hl Hb]. rewrite Hfed in Hl.
    repeat split; auto. lia.
Qed.

(** A reported collapse has, in the very sample that reports it, an open
    load gate, a temperature rising by more than 0.05 degrees, a smoothed
    score below [drop_frac * max(rolling_peak, 1e-6)] (the peak floored at
    1e-6, so a score of 0 under a peak of 0 counts as a drop), and
    thermal or power evidence (for a hysteresis of at least one
    sample). *)
Theorem collapse_needs_gate_drop_evidence {lib : PyLib} args samples tr :
  1 <= hysteresis_s args ->
  session args samples = Ok tr ->
  forall k r st,
    nth_error tr k = Some (r, st) ->
    RLEResult.collapse r = 1 ->
    exists x,
      nth_error samples k = Some x
      /\ ((util_gate_pct args <? util_pct x)%float
          || (a_load_gate args <? RLEResult.a_load r)%float) = true
      /\ temp_c x <> None /\ 2 <= len (temp_hist st)
      /\ (0.05 <? last_elt (temp_hist st) - last_but_one (temp_hist st))%float
         = true
      /\ (RLEResult.rle_smoothed r
          <? drop_frac args * py_max (RLEResult.rolling_peak r) 1e-6)%float = true
      /\ ((RLEResult.t_sustain_s r <? 60)%float
          || match temp_c x with
             | Some t => (temp_limit_c args - 5 <? t)%float
             | None => false
             end
          || (0.95 <? RLEResult.a_load r)%float) = true.
Proof.
  intros Hh Hs k r st Hk Hcol.
  destruct (session_entry _ _ _ _ _ _ Hs Hk)
    as (x & s0 & Hx & Hcall & _ & _ & Hpos).
  destruct (call_detector _ _ _ _ _ Hcall) as (sE & _ & Hctr & Hdc & Hpk).
  destruct (_detect_collapse_facts _ _ _ _ _ _ _ _ _ Hdc) as (_ & _ & _ & Hone).
  destruct (Hone Hcol) as (_ & Hev & _ & Hgt & Hopen).
  rewrite Hctr in Hgt. specialize (Hgt Hh Hpos).
  destruct (Hopen Hgt) as (G1 & G2 & G3 & G4 & G5 & _).
  exists x. rewrite Hpk. repeat split; assumption.
Qed.

(** Once the detector is warm, the reported rolling peak is never below
    the smoothed score of the same result. *)
Theorem rolling_peak_dominates {lib : PyLib} args samples tr :
  session args samples = Ok tr ->
  forall k r st,
    nth_error tr k = Some (r, st) ->
    Z.max (smooth_n (init_config args)) 5 <= Z.of_nat k + 1 ->
    (RLEResult.rolling_peak r <? RLEResult.rle_smoothed r)%float = false.
Proof.
  intros Hs k r st Hk Hwarm.
  destruct (session_entry _ _ _ _ _ _ Hs Hk)
    as (x & s0 & Hx & Hcall & _ & Hl & _).
  destruct (call_detector _ _ _ _ _ Hcall) as (sE & HsE & _ & Hdc & Hpk).
  destruct (_detect_collapse_facts _ _ _ _ _ _ _ _ _ Hdc) as (_ & _ & Hp & _).
  rewrite Hpk. apply Hp.
  rewrite HsE, len_app, Hl. change (len [RLEResult.rle_raw r]) with 1. lia.
Qed.

(** ** Recorded inputs and first samples *)

Section Inputs.

Context {lib : PyLib}.

Lemma session_buffers args samples tr k r st :
  session args samples = Ok tr ->
  nth_error tr k = Some (r, st) ->
  buffers_follow (init_config args) (firstn (S k) samples)
                 (map fst (firstn (S k) tr)) st.
Proof.
  intros Hs Hk. destruct (session_inv _ _ _ Hs) as [stf Hrun].
  apply (trace_inv (buffers_follow (init_config args)) (init_config args))
    with (st0 := init_state) (stf := stf) (r := r); auto.
  - intros. eapply buffers_follow_step; eauto.
  - apply buffers_follow_init.
Qed.

Lemma session_buffers_before args samples tr k r st :
  session args samples = Ok tr ->
  nth_error tr k = Some (r, st) ->
  exists x,
    nth_error samples k = Some x
    /\ buffers_follow (init_config args) (firstn k samples)
                      (map fst (firstn k tr)) (state_before init_state tr k)
    /\ call (init_config args) x (state_before init_state tr k) = Ok (r, st).
Proof.
  intros Hs Hk. destruct (session_inv _ _ _ Hs) as [stf Hrun].
  apply (trace_entry (buffers_follow (init_config args)) (init_config args))
    with (st0 := init_state) (stf := stf); auto.
  - intros. eapply buffers_follow_step; eauto.
  - apply buffers_follow_init.
Qed.

(** What [compute_components] returns besides the utilization term. *)
Lemma compute_components_parts cfg u t p d st eta stab al ts sA :
  compute_components cfg u t p d st = Ok ((eta, stab, al, ts), sA) ->
  (exists n sd,
      _rolling_stdev (util_hist sA) n = Ok sd /\ fdiv 1 (1 + sd) = Ok stab)
  /\ compute_t_sustain (temp_limit_c cfg) (temp_hist sA) d (max_t_sustain_s cfg)
     = Ok ts.
Proof.
  unfold compute_components. intros H. minv.
  match goal with
  | H : (_, _, _, _) = (_, _, _, _) |- _ => injection H as _ -> _ ->
  end.
  split; eauto.
Qed.

End Inputs.

(** Every utilization the engine records is a number of [[0, 100]]: the
    input is clamped before it is stored, and a NaN input is stored as
    100. *)
Theorem util_hist_is_clamped {lib : PyLib} args samples tr :
  session args samples = Ok tr ->
  forall k r st,
    nth_error tr k = Some (r, st) ->
    Forall (fun u => (0 <=? u)%float = true /\ (u <=? 100)%float = true)
           (util_hist st)
    /\ forall x, nth_error samples k = Some x ->
                 is_number (util_pct x) = false ->
                 last_elt (util_hist st) = 100%float.
Proof.
  intros Hs k r st Hk.
  destruct (session_buffers _ _ _ _ _ _ Hs Hk) as (Hu & _).
  rewrite Hu. split.
  - apply Forall_forall. intros u Hin. apply in_map_iff in Hin.
    destruct Hin as (x & <- & _). apply py_clamp_range. reflexivity.
  - intros x Hx Hnan.
    rewrite (firstn_S_nth_error _ _ _ Hx), map_app. simpl.
    unfold last_elt. rewrite last_last.
    rewrite (py_clamp_nan _ _ _ Hnan). reflexivity.
Qed.

(** The first result of every session has stability exactly 1.0: with a
    single utilization recorded the deviation is 0.0 and the library is
    not called. *)
Theorem first_result_stability_one {lib : PyLib} args samples tr r st :
  session args samples = Ok tr ->
  nth_error tr 0 = Some (r, st) ->
  RLEResult.stability r = 1%float.
Proof.
  intros Hs Hk.
  destruct (session_buffers_before _ _ _ _ _ _ Hs Hk) as (x & Hx & HI & Hcall).
  simpl in HI, Hcall.
  unfold call in Hcall.
  destruct (compute_rle_raw _ _ _ _ _ _ _ _ Hcall) as (eta & sA & inv & Hc & _).
  destruct (compute_components_parts _ _ _ _ _ _ _ _ _ _ _ Hc)
    as ((n & sd & Hsd & Hst) & _).
  apply compute_components_state in Hc. rewrite Hc in Hsd.
  assert (Hsd0 : sd = 0%float).
  { destruct (temp_c x); simpl in Hsd; unfold _rolling_stdev in Hsd;
      simpl in Hsd; inversion Hsd; reflexivity. }
  subst sd.
  assert (E : fdiv 1 (1 + 0) = Ok 1%float) by reflexivity.
  rewrite E in Hst. injection Hst as Hst. symmetry. exact Hst.
Qed.

(** Until two temperature readings have been supplied, the sustain time
    of every result is [max_t_sustain_s]. *)
Theorem t_sustain_without_two_temperatures {lib : PyLib} args samples tr :
  session args samples = Ok tr ->
  forall k r st,
    nth_error tr k = Some (r, st) ->
    len (temps_of (firstn (S k) samples)) < 2 ->
    RLEResult.t_sustain_s r = max_t_sustain_s args.
Proof.
  intros Hs k r st Hk Hfew.
  destruct (session_buffers _ _ _ _ _ _ Hs Hk) as (_ & Ht & _).
  destruct (session_buffers_before _ _ _ _ _ _ Hs Hk) as (x & Hx & _ & Hcall).
  pose proof (call_histories _ _ _ _ _ Hcall) as (_ & Hth & _).
  unfold call in Hcall.
  destruct (compute_rle_raw _ _ _ _ _ _ _ _ Hcall) as (eta & sA & inv & Hc & _).
  destruct (compute_components_parts _ _ _ _ _ _ _ _ _ _ _ Hc) as (_ & Hts).
  apply compute_components_state in Hc.
  assert (HA : temp_hist sA = temp_hist st).
  { rewrite Hth, Hc. unfold temps_of. simpl.
    destruct (temp_c x); simpl; rewrite ?app_nil_r; reflexivity. }
  rewrite HA, Ht in Hts. unfold compute_t_sustain in Hts.
  destruct (len (temps_of (firstn (S k) samples)) <? 2) eqn:E.
  - inversion Hts. reflexivity.
  - apply Z.ltb_ge in E. lia.
Qed.

(** ** The theta clock *)

Section Clock.

Context {lib : PyLib}.

Lemma compute_rle_clock_off cfg u t p d st r st' :
  enable_theta_clock cfg = false ->
  compute_rle cfg u t p d st = Ok (r, st') ->
  RLEResult.T0_s r = 0%float /\ RLEResult.T_sustain_hat r = 0%float
  /\ RLEResult.theta_gap r = 0
  /\ RLEResult.theta_index r = _theta_index st
  /\ _theta_index st' = _theta_index st
  /\ _t0_s st' = _t0_s st.
Proof.
  intros Hoff H.
  pose proof (compute_rle_inv _ _ _ _ _ _ _ _ H)
    as (eta & sA & n_smooth & sB & sC & dtheta & sD & Hcc & _ & Hsm
        & Hup & Hadv & _ & _ & _ & _ & _ & _ & _ & _ & Hdc & _ & HT0 & Hti).
  rewrite Hoff in HT0.
  assert (Hgap : RLEResult.theta_gap r = 0).
  { unfold theta_advance in Hadv. rewrite Hoff in Hadv. minv.
    match goal with H : (_, _) = (_, _) |- _ => injection H as _ <- end.
    reflexivity. }
  assert (Hhat : RLEResult.T_sustain_hat r = 0%float).
  { unfold compute_rle in H. rewrite Hoff in H. minv.
    destruct a as [[[eta' stab] a_load] ts]. minv.
    destruct a5 as [dtheta' gap]. minv.
    destruct a5 as [[[[[F_mu F_q] F_s] F_p] Gamma] log_Gamma]. minv.
    simpl in *.
    match goal with H : Ok 0%float = Ok _ |- _ => injection H as <- end.
    reflexivity. }
  pose proof (compute_components_state _ _ _ _ _ _ _ _ Hcc) as HsA.
  destruct (_smooth_rle_state _ _ _ _ _ _ Hsm) as [HsB _].
  assert (HupT : _t0_s sC = _t0_s sB /\ _theta_index sC = _theta_index sB).
  { unfold _theta_update_if_needed in Hup. rewrite Hoff in Hup.
    simpl in Hup. minv. split; reflexivity. }
  assert (HadvT : _t0_s sD = _t0_s sC /\ _theta_index sD = _theta_index sC).
  { unfold theta_advance in Hadv. rewrite Hoff in Hadv. minv.
    split; reflexivity. }
  destruct (_detect_collapse_state _ _ _ _ _ _ _ _ _ Hdc)
    as (_ & _ & _ & _ & _ & D1 & D2 & _).
  simpl in D1, D2.
  assert (Hidx : _theta_index st' = _theta_index st).
  { rewrite D2. destruct HadvT as [_ ->]. destruct HupT as [_ ->].
    rewrite HsB, HsA. destruct t; reflexivity. }
  assert (Ht0 : _t0_s st' = _t0_s st).
  { rewrite D1. destruct HadvT as [-> _]. destruct HupT as [-> _].
    rewrite HsB, HsA. destruct t; reflexivity. }
  repeat split; auto. rewrite Hti. exact Hidx.
Qed.

End Clock.

(** With the theta clock disabled every result reports zero clock
    diagnostics ([T0_s], [theta_index], [T_sustain_hat], [theta_gap]), the
    internal period stays at its initial 60 s, and the two clock buffers
    for scores and temperatures stay empty. *)
Theorem clock_disabled_outputs_zero {lib : PyLib} args samples tr :
  enable_theta_clock args = false ->
  session args samples = Ok tr ->
  forall k r st,
    nth_error tr k = Some (r, st) ->
    RLEResult.T0_s r = 0%float /\ RLEResult.theta_index r = 0%float
    /\ RLEResult.T_sustain_hat r = 0%float /\ RLEResult.theta_gap r = 0
    /\ _t0_s st = 60%float /\ _buf_rle_sm st = [] /\ _buf_temp st = [].
Proof.
  intros Hoff Hs k r st Hk.
  destruct (session_buffers _ _ _ _ _ _ Hs Hk)
    as (_ & _ & _ & _ & _ & _ & Hb1 & Hb2).
  change (enable_theta_clock (init_config args)) with (enable_theta_clock args)
    in Hb1, Hb2.
  rewrite Hoff in Hb1, Hb2.
  destruct (session_inv _ _ _ Hs) as [stf Hrun].
  destruct (trace_entry
              (fun _ _ s => _theta_index s = 0%float /\ _t0_s s = 60%float)
              (init_config args)) with (samples := samples) (st0 := init_state)
              (tr := tr) (stf := stf) (k := k) (r := r) (st := st)
    as (x & Hx & [Hi Ht] & Hcall); auto.
  - intros fed outs s x r0 s' [Hi Ht] Hc. unfold call in Hc.
    destruct (compute_rle_clock_off (init_config args) _ _ _ _ _ _ _ Hoff Hc)
      as (_ & _ & _ & _ & -> & ->). auto.
  - unfold call in Hcall.
    destruct (compute_rle_clock_off (init_config args) _ _ _ _ _ _ _ Hoff Hcall)
      as (H1 & H2 & H3 & H4 & H5 & H6).
    rewrite H4, H6. repeat split; auto.
Qed.

(** ** The constructor *)

(** [py_max c x] with a number [c] first: a number not below [c], also
    for a NaN [x]. *)
Lemma py_max_floor (c x : float) :
  is_number c = true -> (c <=? py_max c x)%float = true.
Proof.
  intros Hc. unfold py_max. destruct (c <? x)%float eqn:E.
  - apply ltb_leb. exact E.
  - apply leb_refl. exact Hc.
Qed.

(** Whatever the constructor arguments (NaN included), the stored
    configuration has a smoothing window of at least one sample, a
    re-estimation interval of at least 5 s, and an ordered period range
    [1e-3 <= theta_min_s <= theta_max_s]; the ring-buffer capacity is
    1024. *)
Theorem init_config_normalises (args : Config) :
  let cfg := init_config args in
  1 <= smooth_n cfg
  /\ (5 <=? theta_update_sec cfg)%float = true
  /\ (1e-3 <=? theta_min_s cfg)%float = true
  /\ (theta_min_s cfg <=? theta_max_s cfg)%float = true
  /\ _rb_len cfg = 1024.
Proof.
  simpl. split; [lia|].
  split; [apply py_max_floor; reflexivity|].
  assert (H : (1e-3 <=? py_max 1e-3 (theta_min_s args))%float = true)
    by (apply py_max_floor; reflexivity).
  split; [exact H|]. split; [|reflexivity].
  apply py_max_floor. apply (leb_is_number _ _ H).
Qed.

(** ** Control decisions *)

Section Decisions.

Context {lib : PyLib}.

(** Lowering the current score (with the same prediction, or with none)
    never makes the decision less severe. *)
Theorem control_decision_monotone (cur1 cur2 : float) (pred hr : option float)
    (st : State) :
  (cur1 <=? cur2)%float = true ->
  exists d1 d2,
    control_decision cur1 pred hr st = Ok (d1, st)
    /\ control_decision cur2 pred hr st = Ok (d2, st)
    /\ severity (ControlDecision.state d1) <= severity (ControlDecision.state d2).
Proof.
  intros Hle.
  destruct (control_decision_state cur1 pred hr st) as (d1 & Hd1 & Hs1).
  destruct (control_decision_state cur2 pred hr st) as (d2 & Hd2 & Hs2).
  exists d1, d2. split; [exact Hd1|]. split; [exact Hd2|].
  rewrite Hs1, Hs2. cbv zeta.
  assert (Hc : forall c, (cur2 <? c)%float = true -> (cur1 <? c)%float = true)
    by (intros c; apply leb_ltb_trans; exact Hle).
  assert (Hp : forall c,
             ((match pred with Some p => p | None => cur2 end) <? c)%float = true ->
             ((match pred with Some p => p | None => cur1 end) <? c)%float = true).
  { intros c. destruct pred; [auto|apply Hc]. }
  set (p1 := match pred with Some p => p | None => cur1 end) in *.
  set (p2 := match pred with Some p => p | None => cur2 end) in *.
  assert (Ho : forall a b, ((cur2 <? a)%float || (p2 <? b)%float) = true ->
                           ((cur1 <? a)%float || (p1 <? b)%float) = true).
  { intros a b H. apply orb_prop in H. destruct H as [H|H].
    - rewrite (Hc _ H). reflexivity.
    - rewrite (Hp _ H). apply orb_true_r. }
  destruct ((cur2 <? 0.2)%float || (p2 <? 0.1)%float) eqn:E1;
    [apply Ho in E1|];
    (destruct ((cur2 <? 0.4)%float || (p2 <? 0.3)%float) eqn:E2;
     [apply Ho in E2|]);
    (destruct ((cur2 <? 0.6)%float || (p2 <? 0.5)%float) eqn:E3;
     [apply Ho in E3|]);
    destruct ((cur1 <? 0.2)%float || (p1 <? 0.1)%float);
    destruct ((cur1 <? 0.4)%float || (p1 <? 0.3)%float);
    destruct ((cur1 <? 0.6)%float || (p1 <? 0.5)%float);
    try discriminate; vm_compute; intro X; discriminate X.
Qed.

(** The thermal headroom changes nothing but the fan suggestion: the
    state and the other limits are those of the call without headroom,
    and the fan speed is 10 points lower exactly when the headroom
    exceeds 5 degrees. *)
Theorem control_decision_headroom (cur : float) (pred hr : option float)
    (st : State) :
  exists d d0,
    control_decision cur pred hr st = Ok (d, st)
    /\ control_decision cur pred None st = Ok (d0, st)
    /\ ControlDecision.state d = ControlDecision.state d0
    /\ ControlDecision.cpu_freq_limit_ghz d = ControlDecision.cpu_freq_limit_ghz d0
    /\ ControlDecision.gpu_freq_limit_ghz d = ControlDecision.gpu_freq_limit_ghz d0
    /\ ControlDecision.power_limit_pct d = ControlDecision.power_limit_pct d0
    /\ ControlDecision.workload_reduction_pct d
       = ControlDecision.workload_reduction_pct d0
    /\ ControlDecision.fan_speed_pct d
       = option_map
           (fun f => if match hr with
                        | Some h => (5 <? h)%float
                        | None => false
                        end
                     then f - 10 else f)
           (ControlDecision.fan_speed_pct d0)
    /\ (ControlDecision.state d = "maintain"%string <->
        ControlDecision.fan_speed_pct d = None).
Proof.
  unfold control_decision. cbv zeta.
  destruct (_ || _).
  { do 2 eexists. split; [reflexivity|]. split; [reflexivity|]. simpl.
    repeat split; try discriminate.
    destruct hr as [h|]; [destruct (5 <? h)%float|]; reflexivity. }
  destruct (_ || _).
  { do 2 eexists. split; [reflexivity|]. split; [reflexivity|]. simpl.
    repeat split; try discriminate.
    destruct hr as [h|]; [destruct (5 <? h)%float|]; reflexivity. }
  destruct (_ || _).
  { do 2 eexists. split; [reflexivity|]. split; [reflexivity|]. simpl.
    repeat split; try discriminate.
    destruct hr as [h|]; [destruct (5 <? h)%float|]; reflexivity. }
  do 2 eexists. split; [reflexivity|]. split; [reflexivity|]. simpl.
  repeat split; reflexivity.
Qed.

End Decisions.

(** ** Rolling statistics and theta windows *)

Section Windows.

Context {lib : PyLib}.

Lemma slice_from_neg_app {A : Type} (n : Z) (pre w : list A) :
  1 <= n -> len w = n -> slice_from (- n) (pre ++ w) = w.
Proof.
  intros Hn Hw. rewrite slice_from_neg by exact Hn.
  rewrite len_app, Hw.
  replace (len pre + n - n) with (len pre) by lia.
  unfold len. rewrite Nat2Z.id.
  rewrite skipn_app, skipn_all, Nat.sub_diag. reflexivity.
Qed.

(** The rolling mean and the rolling deviation look at the last [n]
    values only: values older than the window do not change the result.
    An empty history has mean 0.0. *)
Theorem rolling_window_is_local (pre w : list float) (n : Z) :
  len w = n ->
  _rolling_mean [] n = Ok 0%float
  /\ (1 <= n -> _rolling_mean (pre ++ w) n = _rolling_mean w n)
  /\ (2 <= n -> _rolling_stdev (pre ++ w) n = _rolling_stdev w n).
Proof.
  intros Hw. split; [reflexivity|]. split.
  - intros Hn. destruct pre as [|a pre]; [reflexivity|].
    assert (Hne : w <> []).
    { intros E. rewrite E in Hw. unfold len in Hw. simpl in Hw. lia. }
    unfold _rolling_mean.
    destruct w as [|b w']; [congruence|].
    set (l := (a :: pre) ++ b :: w').
    assert (Hl : len l = len (a :: pre) + n)
      by (unfold l; rewrite len_app, Hw; reflexivity).
    assert (Hp : 1 <= len (a :: pre)) by (unfold len; simpl; lia).
    destruct (len l <=? n) eqn:E; [apply Z.leb_le in E; lia|].
    unfold l. rewrite (slice_from_neg_app n (a :: pre) (b :: w') Hn Hw).
    rewrite Hw, Z.leb_refl. simpl app.
    reflexivity.
  - intros Hn. assert (Hn1 : 1 <= n) by lia. unfold _rolling_stdev.
    rewrite len_app, Hw.
    pose proof (len_nonneg pre) as Hp.
    destruct (len pre + n <? 2) eqn:E1; [apply Z.ltb_lt in E1; lia|].
    destruct (n <? 2) eqn:E2; [apply Z.ltb_lt in E2; lia|].
    destruct (len pre + n >=? n) eqn:E3;
      [|rewrite Z.geb_leb in E3; apply Z.leb_gt in E3; lia].
    rewrite (slice_from_neg_app n pre w Hn1 Hw).
    destruct (n >=? n) eqn:E4;
      [|rewrite Z.geb_leb in E4; apply Z.leb_gt in E4; lia].
    rewrite <- (app_nil_l w) at 2.
    rewrite (slice_from_neg_app n [] w Hn1 Hw). reflexivity.
Qed.

(** A theta window is never shorter than 3 samples and never longer
    than [max(12, 4 * samples per re-estimation interval)]. *)
Theorem _theta_window_to_n_bounds cfg self (w : float) (n : Z) :
  _theta_window_to_n cfg self w = Ok n ->
  3 <= n
  /\ exists dt_mean s,
       _mean_dt self = Ok dt_mean
       /\ py_round (theta_update_sec cfg / py_max dt_mean 1e-6) = Ok s
       /\ n <= Z.max 12 (4 * s).
Proof.
  unfold _theta_window_to_n. intros H.
  apply rbind_Ok in H. destruct H as (dt_mean & Hdt & H).
  apply rbind_Ok in H. destruct H as (dth & _ & H).
  apply rbind_Ok in H. destruct H as (q & _ & H).
  apply rbind_Ok in H. destruct H as (n0 & _ & H).
  apply rbind_Ok in H. destruct H as (q' & Hq' & H).
  apply rbind_Ok in H. destruct H as (s & Hs & H).
  assert (Hn : n = Z.min (Z.max 3 n0) (Z.max 12 (4 * s)))
    by (injection H as <-; reflexivity).
  rewrite fdiv_guarded in Hq' by reflexivity. injection Hq' as <-.
  split; [lia|]. exists dt_mean, s. repeat split; auto. lia.
Qed.

End Windows.

(** ** When the period is re-estimated *)

Section UpdateTiming.

Context {lib : PyLib}.

Lemma _theta_update_since cfg sm t d st u st' :
  enable_theta_clock cfg = true ->
  _theta_update_if_needed cfg sm t d st = Ok (u, st') ->
  if (_since_theta_update_s st + d <? theta_update_sec cfg)%float
  then _since_theta_update_s st' = (_since_theta_update_s st + d)%float
       /\ _t0_s st' = _t0_s st
  else _since_theta_update_s st' = 0%float.
Proof.
  intros Hon H. unfold _theta_update_if_needed in H. rewrite Hon in H.
  cbn [negb] in H.
  destruct t; minv; simpl in *;
    (destruct (_since_theta_update_s st + d <? theta_update_sec cfg)%float;
     minv; simpl; [split; reflexivity|]);
    match goal with
    | H : match ?l with [] => _ | _ => _ end _ = _ |- _ => destruct l
    end; minv; reflexivity.
Qed.

Lemma theta_advance_since cfg d st v st' :
  theta_advance cfg d st = Ok (v, st') ->
  _since_theta_update_s st' = _since_theta_update_s st.
Proof.
  unfold theta_advance. destruct (enable_theta_clock cfg); intros H; minv;
    reflexivity.
Qed.

Lemma _detect_collapse_since cfg sm u a t ts st c st' :
  _detect_collapse cfg sm u a t ts st = Ok (c, st') ->
  _since_theta_update_s st' = _since_theta_update_s st.
Proof.
  unfold _detect_collapse. intros H. minv.
  destruct (negb _); minv; [reflexivity|].
  destruct (_ && _); minv; reflexivity.
Qed.

Lemma call_since cfg x st r st' :
  enable_theta_clock cfg = true ->
  call cfg x st = Ok (r, st') ->
  if (_since_theta_update_s st + dt_s x <? theta_update_sec cfg)%float
  then _since_theta_update_s st' = (_since_theta_update_s st + dt_s x)%float
       /\ _t0_s st' = _t0_s st
  else _since_theta_update_s st' = 0%float.
Proof.
  intros Hon Hcall. unfold call in Hcall.
  apply compute_rle_inv in Hcall.
  destruct Hcall as (eta & sA & n_smooth & sB & sC & dtheta & sD & Hcc & _ & Hsm
                     & Hup & Hadv & _ & _ & _ & _ & _ & _ & _ & _ & Hdc & _).
  apply compute_components_state in Hcc.
  apply _smooth_rle_state in Hsm. destruct Hsm as [HsB _].
  pose proof (_theta_update_since _ _ _ _ _ _ _ Hon Hup) as Hu.
  pose proof (theta_advance_since _ _ _ _ _ Hadv) as Ha.
  apply theta_advance_state in Hadv.
  destruct Hadv as (_ & _ & _ & _ & _ & _ & _ & At & _).
  pose proof (_detect_collapse_since _ _ _ _ _ _ _ _ _ Hdc) as Hd.
  apply _detect_collapse_state in Hdc.
  destruct Hdc as (_ & _ & _ & _ & _ & Dt & _).
  simpl in Hd, Dt.
  assert (HB : _since_theta_update_s sB = _since_theta_update_s st
               /\ _t0_s sB = _t0_s st).
  { subst sB sA. destruct (temp_c x); split; reflexivity. }
  destruct HB as [HB1 HB2]. rewrite HB1 in Hu.
  rewrite Hd, Ha, Dt, At.
  destruct (_since_theta_update_s st + dt_s x <? theta_update_sec cfg)%float.
  - destruct Hu as [-> ->]. split; [reflexivity|exact HB2].
  - exact Hu.
Qed.

End UpdateTiming.

(** With the clock enabled, a call whose interval keeps the accumulated
    time below [theta_update_sec] only adds the interval to it and leaves
    the period alone; every other call (a NaN sum included) resets the
    accumulated time to 0.0.  So after every call the accumulated time is
    0.0 or below [theta_update_sec]. *)
Theorem period_updates_on_schedule {lib : PyLib} args samples tr :
  enable_theta_clock args = true ->
  session args samples = Ok tr ->
  forall k r st,
    nth_error tr k = Some (r, st) ->
    exists x,
      nth_error samples k = Some x
      /\ let before := state_before init_state tr k in
         let acc := (_since_theta_update_s before + dt_s x)%float in
         let upd := theta_update_sec (init_config args) in
         (if (acc <? upd)%float
          then _since_theta_update_s st = acc /\ _t0_s st = _t0_s before
          else _since_theta_update_s st = 0%float)
         /\ (_since_theta_update_s st = 0%float
             \/ (_since_theta_update_s st <? upd)%float = true).
Proof.
  intros Hon Hs k r st Hk.
  destruct (session_entry _ _ _ _ _ _ Hs Hk)
    as (x & s0 & Hx & Hcall & -> & _).
  exists x. split; [exact Hx|]. cbv zeta.
  pose proof (call_since (init_config args) _ _ _ _ Hon Hcall) as H.
  split; [exact H|].
  destruct (_ <? _)%float eqn:E.
  - right. destruct H as [-> _]. exact E.
  - left. exact H.
Qed.

(** ** Which exceptions [compute_rle] can raise *)

Lemma bind_Raise {A B : Type} (m : M A) (f : A -> M B) s e :
  bind m f s = Raise e ->
  m s = Raise e \/ exists a s1, m s = Ok (a, s1) /\ f a s1 = Raise e.
Proof.
  unfold bind. destruct (m s) as [[a s1]|e'].
  - intros H. right. eauto.
  - intros H. left. inversion H. reflexivity.
Qed.

Lemma lift_Raise {A : Type} (r : result A) s e :
  lift r s = Raise e -> r = Raise e.
Proof.
  unfold lift. destruct r; [discriminate|]. intros H. inversion H. reflexivity.
Qed.

Lemma rbind_Raise {A B : Type} (r : result A) (f : A -> result B) e :
  rbind r f = Raise e -> r = Raise e \/ exists a, r = Ok a /\ f a = Raise e.
Proof.
  destruct r; simpl; [eauto|]. intros H. left. inversion H. reflexivity.
Qed.

Lemma fdiv_Raise (x y : float) e :
  fdiv x y = Raise e -> (y =? 0)%float = true.
Proof. unfold fdiv. destruct (y =? 0)%float; [reflexivity|discriminate]. Qed.

Lemma fdiv_nonzero (x y : float) :
  (y =? 0)%float = false -> fdiv x y = Ok (x / y)%float.
Proof. intros H. unfold fdiv. rewrite H. reflexivity. Qed.

Lemma mapM_Raise {A B : Type} (f : A -> result B) (l : list A) e :
  mapM f l = Raise e -> exists a, f a = Raise e.
Proof.
  induction l as [|a l IH]; simpl; [discriminate|].
  intros H. apply rbind_Raise in H. destruct H as [H|(b & _ & H)]; [eauto|].
  apply rbind_Raise in H. destruct H as [H|(bs & _ & H)]; [auto|discriminate].
Qed.

Lemma foldM_Raise {A B : Type} (f : B -> A -> result B) (l : list A) e :
  forall b, foldM f l b = Raise e -> exists b' a, f b' a = Raise e.
Proof.
  induction l as [|a l IH]; simpl; intros b H; [discriminate|].
  apply rbind_Raise in H. destruct H as [H|(b' & _ & H)]; eauto.
Qed.

(** One step of the analysis of a raising computation. *)
Ltac rstep :=
  match goal with
  | H : Ok _ = Raise _ |- _ => discriminate H
  | H : ret _ _ = Raise _ |- _ => discriminate H
  | H : get _ = Raise _ |- _ => discriminate H
  | H : modify _ _ = Raise _ |- _ => discriminate H
  | H : fdiv _ (py_max _ _) = Raise _ |- _ =>
      rewrite fdiv_guarded in H by reflexivity; discriminate H
  | H : lift _ _ = Raise _ |- _ => apply lift_Raise in H
  | H : bind _ _ _ = Raise _ |- _ =>
      apply bind_Raise in H; destruct H as [H|(? & ? & ? & H)]
  | H : rbind _ _ = Raise _ |- _ =>
      apply rbind_Raise in H; destruct H as [H|(? & ? & H)]
  end.


Lemma py_round_Raise (x : float) e : py_round x = Raise e -> conversion_error e.
Proof.
  unfold py_round, conversion_error.
  destruct (Prim2SF x); intros H; inversion H; auto.
Qed.

Lemma py_int_Raise (x : float) e : py_int x = Raise e -> conversion_error e.
Proof.
  unfold py_int, conversion_error.
  destruct (Prim2SF x); intros H; inversion H; auto.
Qed.

Lemma len_cons_pos {A : Type} (a : A) (l : list A) : 0 < len (a :: l).
Proof. unfold len. simpl. lia. Qed.

Lemma theta_window_on_clock cfg w :
  theta_window_on cfg w = true -> enable_theta_clock cfg = true.
Proof.
  unfold theta_window_on. destruct (enable_theta_clock cfg); [reflexivity|].
  discriminate.
Qed.

Lemma theta_window_on_windows cfg w :
  theta_window_on cfg w = true -> use_theta_windows cfg = true.
Proof.
  unfold theta_window_on. destruct (enable_theta_clock cfg); [|discriminate].
  destruct (use_theta_windows cfg); [reflexivity|discriminate].
Qed.

(** The mean of a window of at least one sample always exists. *)
Lemma _rolling_mean_Ok (data : list float) (n : Z) :
  1 <= n -> exists v, _rolling_mean data n = Ok v.
Proof.
  intros Hn. unfold _rolling_mean. destruct data as [|a l]; [eauto|].
  destruct (len (a :: l) <=? n).
  - rewrite fdiv_nonzero; [eauto|].
    apply Z2float_nonzero. apply len_cons_pos.
  - rewrite fdiv_nonzero; [eauto|]. apply Z2float_nonzero. lia.
Qed.

Lemma _mean_dt_Ok (self : State) : exists v, _mean_dt self = Ok v.
Proof.
  unfold _mean_dt. destruct (_buf_dt self) as [|a l]; [eauto|].
  rewrite fdiv_nonzero; [eauto|]. apply Z2float_nonzero. apply len_cons_pos.
Qed.

Lemma _theta_window_to_n_Raise cfg self (w : float) e :
  _theta_window_to_n cfg self w = Raise e -> conversion_error e.
Proof.
  unfold _theta_window_to_n. intros H.
  destruct (_mean_dt_Ok self) as [v Hv]. rewrite Hv in H. simpl in H.
  repeat rstep;
    match goal with
    | H : py_round _ = Raise _ |- _ => exact (py_round_Raise _ _ H)
    end.
Qed.

Lemma normalize_rle_Ok (rle util : float) (device : string) :
  exists v, normalize_rle rle util device = Ok v.
Proof.
  unfold normalize_rle.
  destruct (String.eqb device "cpu");
    rewrite fdiv_guarded by reflexivity; simpl; eauto.
Qed.

Lemma compute_t_sustain_Ok (limit : float) (hist : list float) (dt max_t : float) :
  exists v, compute_t_sustain limit hist dt max_t = Ok v.
Proof.
  unfold compute_t_sustain. destruct (len hist <? 2); [eauto|].
  rewrite fdiv_guarded by reflexivity. simpl.
  rewrite fdiv_guarded by reflexivity. simpl. eauto.
Qed.

(** [1.0 + x] is not zero when [x] is not negative. *)
Lemma one_plus_nonzero (x : float) :
  (x <? 0)%float = false -> (1 + x =? 0)%float = false.
Proof.
  intros H. apply (big_nonzero 1). unfold big. rewrite add_spec.
  apply SFadd_one_big. apply ltb_zero_false_nonneg. exact H.
Qed.

(** [1.0 + 1.0 / max(t, 1e-6)] is not zero. *)
Lemma one_plus_inverse_nonzero (t : float) :
  (1 + 1 / py_max t 1e-6 =? 0)%float = false.
Proof.
  apply (big_nonzero 1). unfold big. rewrite add_spec.
  apply SFadd_one_big. rewrite div_spec.
  destruct (py_max_eps_big t) as [Hb Hn].
  apply (SFdiv_one_nonneg (-19)); assumption.
Qed.

(** The denominator of the raw score is not zero. *)
Lemma denominator_nonzero (a t : float) :
  (py_max a 1e-6 * (1 + 1 / py_max t 1e-6) =? 0)%float = false.
Proof.
  apply (big_nonzero (-19 + 1 - 1)). unfold big. rewrite mul_spec.
  apply (SFmul_big (-19) 1); try lia.
  - apply py_max_eps_big.
  - rewrite add_spec. apply SFadd_one_big. rewrite div_spec.
    destruct (py_max_eps_big t) as [Hb Hn].
    apply (SFdiv_one_nonneg (-19)); assumption.
Qed.

Section Exceptions.

Context {lib : PyLib}.
Hypothesis Hret : pstdev_returns.
Hypothesis Hnn : pstdev_not_negative.

Lemma _rolling_stdev_Ok (data : list float) (n : Z) :
  2 <= n -> exists v, _rolling_stdev data n = Ok v /\ (v <? 0)%float = false.
Proof.
  intros Hn. unfold _rolling_stdev.
  destruct (len data <? 2) eqn:E; [eexists; split; reflexivity|].
  apply Z.ltb_ge in E.
  set (w := if len data >=? n then slice_from (- n) data else data).
  assert (Hw : w <> []).
  { unfold w. destruct (len data >=? n).
    - intros Hnil.
      pose proof (len_slice_from_neg n data ltac:(lia)) as Hl.
      rewrite Hnil in Hl. unfold len at 1 in Hl. simpl in Hl. lia.
    - intros Hnil. rewrite Hnil in E. unfold len in E. simpl in E. lia. }
  destruct (Hret w Hw) as [v Hv]. exists v. split; [exact Hv|].
  exact (Hnn w v Hv).
Qed.

Lemma compute_components_Raise cfg u t p d st e :
  compute_components cfg u t p d st = Raise e ->
  theta_window_on cfg (Some (stability_window_theta cfg)) = true
  /\ conversion_error e.
Proof.
  unfold compute_components. intros H.
  repeat rstep; try (destruct t; discriminate).
  - (* the stability window *)
    destruct (theta_window_on cfg (Some (stability_window_theta cfg))) eqn:Ew;
      [|discriminate].
    split; [reflexivity|].
    eapply _theta_window_to_n_Raise; eauto.
  - (* the deviation *)
    exfalso.
    match goal with
    | Hn : lift _ _ = Ok (?n, _), H : _rolling_stdev ?l ?n = Raise _ |- _ =>
        apply lift_Ok in Hn; destruct Hn as [Hn _];
        assert (Hge2 : 2 <= n);
        [ destruct (theta_window_on cfg (Some (stability_window_theta cfg)));
          [apply _theta_window_to_n_min in Hn; lia|inversion Hn; lia]
        | destruct (_rolling_stdev_Ok l n Hge2) as (v & Hv & _); congruence ]
    end.
  - (* the stability *)
    exfalso.
    match goal with
    | Hs : lift (_rolling_stdev ?l ?n) _ = Ok (?sd, _),
      H : fdiv 1 (1 + ?sd) = Raise _ |- _ =>
        apply lift_Ok in Hs; destruct Hs as [Hs _];
        apply fdiv_Raise in H;
        unfold _rolling_stdev in Hs;
        destruct (len l <? 2);
        [ inversion Hs; subst; vm_compute in H; discriminate
        | rewrite (one_plus_nonzero _ (Hnn _ _ Hs)) in H; discriminate ]
    end.
  - (* the sustain time *)
    exfalso.
    match goal with
    | H : compute_t_sustain ?a ?b ?c ?dd = Raise _ |- _ =>
        destruct (compute_t_sustain_Ok a b c dd) as [v Hv]; congruence
    end.
Qed.

End Exceptions.

Section Exceptions2.

Context {lib : PyLib}.
Hypothesis Hret : pstdev_returns.
Hypothesis Hnn : pstdev_not_negative.

Lemma _smooth_rle_Raise cfg raw o st e :
  1 <= smooth_n cfg -> _smooth_rle cfg raw o st = Raise e -> False.
Proof.
  intros Hn. unfold _smooth_rle. intros H. repeat rstep.
  match goal with
  | H : _rolling_mean ?l ?n = Raise _ |- _ =>
      assert (Hn1 : 1 <= n);
      [ destruct o as [k|]; [destruct (k >? 0) eqn:Ek; [|exact Hn]|exact Hn];
        apply Z.gtb_lt in Ek; lia
      | destruct (_rolling_mean_Ok l n Hn1) as [v Hv]; congruence ]
  end.
Qed.

Lemma theta_advance_Raise cfg d st e : theta_advance cfg d st = Raise e -> False.
Proof.
  unfold theta_advance. destruct (enable_theta_clock cfg); intros H;
    repeat rstep.
Qed.

Lemma ltb_pos_nonzero (c x : float) :
  (0 <? c)%float = true -> (c <? x)%float = true -> (x =? 0)%float = false.
Proof.
  intros Hc Hx. apply ltb_neq_zero. exact (ltb_trans _ _ _ Hc Hx).
Qed.

Lemma autocorr_step_Ok series mean best k :
  exists b, autocorr_step series mean best k = Ok b.
Proof.
  unfold autocorr_step. rewrite fdiv_guarded by reflexivity. simpl. eauto.
Qed.

Lemma reestimate_t0_Raise cfg self e :
  _buf_dt self <> [] ->
  reestimate_t0 cfg self = Raise e ->
  engine_error e.
Proof.
  intros Hbuf. unfold reestimate_t0. intros H.
  assert (Hlen : 0 < len (_buf_dt self)).
  { destruct (_buf_dt self); [congruence|apply len_cons_pos]. }
  rewrite (fdiv_nonzero _ _ (Z2float_nonzero _ Hlen)) in H. simpl in H.
  set (dt_mean := (py_sum (_buf_dt self) / Z2float (len (_buf_dt self)))%float)
    in *.
  apply rbind_Raise in H. destruct H as [H|(tau & Htau & H)].
  { (* the thermal time constant *)
    exfalso. destruct (len (_buf_temp self) >=? 8); [|discriminate].
    apply rbind_Raise in H. destruct H as [H|(derivs & _ & H)].
    - apply mapM_Raise in H. destruct H as [a H]. repeat rstep.
    - rewrite fdiv_nonzero in H by (apply Z2float_nonzero; lia). simpl in H.
      destruct (1e-6 <? _)%float eqn:E; [|discriminate].
      rewrite fdiv_nonzero in H by (eapply ltb_pos_nonzero; [|exact E]; reflexivity).
      discriminate. }
  apply rbind_Raise in H. destruct H as [H|(tau_eff & Heff & H)].
  { exfalso. unfold _harmonic_mean in H. destruct tau; discriminate. }
  apply rbind_Raise in H. destruct H as [H|(T_peak & _ & H)].
  { (* the autocorrelation peak *)
    destruct (len (_buf_rle_sm self) >=? 32) eqn:E32; [|discriminate].
    rewrite Z.geb_leb in E32. apply Z.leb_le in E32.
    set (series := slice_from (- Z.min (len (_buf_rle_sm self)) 512)
                              (_buf_rle_sm self)) in *.
    assert (Hn : 0 < len series).
    { unfold series. rewrite len_slice_from_neg by lia. lia. }
    rewrite (fdiv_nonzero _ _ (Z2float_nonzero _ Hn)) in H. simpl in H.
    rewrite fdiv_nonzero in H by (apply Z2float_nonzero; lia). simpl in H.
    destruct (0 <? _)%float; [|discriminate].
    rewrite fdiv_guarded in H by reflexivity. simpl in H.
    apply rbind_Raise in H. destruct H as [H|(i & _ & H)].
    - left. exact (py_int_Raise _ _ H).
    - exfalso. apply rbind_Raise in H. destruct H as [H|(best & _ & H)].
      + apply foldM_Raise in H. destruct H as (b & k & H).
        destruct (autocorr_step_Ok series
                    (py_sum series / Z2float (len series))%float b k)
          as [b' Hb].
        congruence.
      + destruct (fst best); [destruct (0.3 <=? snd best)%float|];
          discriminate. }
  apply rbind_Raise in H. destruct H as [H|(c & _ & H)]; [|discriminate].
  (* the geometric mean *)
  destruct tau_eff as [te|]; [|discriminate].
  destruct (match T_peak with Some _ => T_peak | None => Some te end)
    as [tp|]; [|discriminate].
  apply rbind_Raise in H. destruct H as [H|(r & _ & H)]; [|discriminate].
  right. eauto.
Qed.

Lemma _theta_update_Raise cfg sm t d st e :
  _theta_update_if_needed cfg sm t d st = Raise e ->
  enable_theta_clock cfg = true
  /\ exists self,
       _buf_dt self <> []
       /\ _buf_dt self = append_capped (_rb_len cfg) (_buf_dt st) d
       /\ reestimate_t0 cfg self = Raise e.
Proof.
  unfold _theta_update_if_needed.
  destruct (enable_theta_clock cfg); simpl; intros H; [|discriminate].
  split; [reflexivity|].
  repeat rstep; try (destruct t; discriminate).
  match goal with
  | H : (if ?c then _ else _) _ = Raise _ |- _ => destruct c
  end; repeat rstep.
  match goal with
  | H : match ?l with [] => _ | _ => _ end _ = Raise _ |- _ =>
      destruct l eqn:Hl
  end; repeat rstep.
  match goal with
  | H : reestimate_t0 _ ?s = Raise _ |- _ => exists s
  end.
  split; [congruence|]. split; [|assumption].
  minv. destruct t; minv; reflexivity.
Qed.

Lemma _detect_collapse_Raise cfg sm u a t ts st e :
  _detect_collapse cfg sm u a t ts st = Raise e ->
  theta_window_on cfg (hysteresis_theta cfg) = true /\ conversion_error e.
Proof.
  unfold _detect_collapse. intros H. repeat rstep.
  destruct (negb _); repeat rstep.
  match goal with
  | H : (if ?c then _ else _) _ = Raise _ |- _ => destruct c; discriminate
  | _ => idtac
  end.
  destruct (theta_window_on cfg (hysteresis_theta cfg)) eqn:Ew; [|discriminate].
  split; [reflexivity|].
  repeat rstep. eapply _theta_window_to_n_Raise; eauto.
Qed.

End Exceptions2.

Section Exceptions3.

Context {lib : PyLib}.
Hypothesis Hret : pstdev_returns.
Hypothesis Hnn : pstdev_not_negative.

Ltac rsplit :=
  match goal with
  | H : context [match ?x with (_, _) => _ end] |- _ => is_var x; destruct x
  end.

Lemma compute_rle_Raise_site cfg u t p d st e :
  1 <= smooth_n cfg ->
  enable_micro_scale cfg = false ->
  compute_rle cfg u t p d st = Raise e ->
  (use_theta_windows cfg = true /\ enable_theta_clock cfg = true
   /\ conversion_error e)
  \/ (enable_theta_clock cfg = true
      /\ exists self,
           _buf_dt self <> []
           /\ _buf_dt self = append_capped (_rb_len cfg) (_buf_dt st) d
           /\ reestimate_t0 cfg self = Raise e).
Proof.
  intros Hn Hoff. unfold compute_rle. intros H.
  repeat (repeat rstep; try rsplit).
  - (* compute_components *)
    destruct (compute_components_Raise Hret Hnn _ _ _ _ _ _ _ H) as [Hc He].
    left. split; [exact (theta_window_on_windows _ _ Hc)|].
    split; [exact (theta_window_on_clock _ _ Hc)|exact He].
  - (* the raw score *)
    exfalso.
    match goal with
    | Hx : lift (fdiv 1 (py_max _ _)) _ = Ok (?x, _),
      H : fdiv _ (_ * (1 + ?x)) = Raise _ |- _ =>
        apply lift_Ok in Hx; destruct Hx as [Hx _];
        rewrite fdiv_guarded in Hx by reflexivity; inversion Hx; subst;
        apply fdiv_Raise in H; rewrite denominator_nonzero in H; discriminate
    end.
  - (* the smoothing window *)
    destruct (theta_window_on cfg (smooth_window_theta cfg)) eqn:Ew;
      [|discriminate].
    left. split; [exact (theta_window_on_windows _ _ Ew)|].
    split; [exact (theta_window_on_clock _ _ Ew)|].
    repeat rstep. eapply _theta_window_to_n_Raise; eauto.
  - exfalso. eapply _smooth_rle_Raise; eauto.
  - right. minv.
    match goal with
    | Hc : compute_components _ _ _ _ _ _ = Ok (_, ?sA),
      Hs : _smooth_rle _ _ _ _ = Ok (_, ?sB),
      H : _theta_update_if_needed _ _ _ _ ?sB = Raise _ |- _ =>
        destruct (_theta_update_Raise _ _ _ _ _ _ H)
          as (Hclk & self & Hne & Hbuf & Hre);
        apply compute_components_state in Hc;
        apply _smooth_rle_state in Hs; destruct Hs as [Hs _];
        split; [exact Hclk|]; exists self;
        split; [exact Hne|]; split; [|exact Hre];
        rewrite Hbuf, Hs, Hc; destruct t; reflexivity
    end.
  - exfalso. eapply theta_advance_Raise; eauto.
  - exfalso. unfold _compute_micro_scale_factor in H. rewrite Hoff in H.
    discriminate.
  - exfalso.
    match goal with
    | H : _rolling_mean ?l ?n = Raise _ |- _ =>
        assert (Hn1 : 1 <= n); [|destruct (_rolling_mean_Ok l n Hn1); congruence]
    end.
    match goal with
    | Hw : lift (if theta_window_on _ _ then _ else _) _ = Ok (?o, _)
      |- 1 <= match ?o with _ => _ end =>
        apply lift_Ok in Hw; destruct Hw as [Hw _];
        destruct (theta_window_on cfg (smooth_window_theta cfg));
        [ apply rbind_Ok in Hw; destruct Hw as (k & Hk & Hw);
          inversion Hw; subst; apply _theta_window_to_n_min in Hk;
          destruct (k =? 0) eqn:E0; [apply Z.eqb_eq in E0; lia|lia]
        | inversion Hw; subst; exact Hn ]
    end.
  - exfalso.
    match goal with
    | H : _rolling_mean ?l ?n = Raise _ |- _ =>
        assert (Hn1 : 1 <= n); [|destruct (_rolling_mean_Ok l n Hn1); congruence]
    end.
    match goal with
    | Hw : lift (if theta_window_on _ _ then _ else _) _ = Ok (?o, _)
      |- 1 <= match ?o with _ => _ end =>
        apply lift_Ok in Hw; destruct Hw as [Hw _];
        destruct (theta_window_on cfg (smooth_window_theta cfg));
        [ apply rbind_Ok in Hw; destruct Hw as (k & Hk & Hw);
          inversion Hw; subst; apply _theta_window_to_n_min in Hk;
          destruct (k =? 0) eqn:E0; [apply Z.eqb_eq in E0; lia|lia]
        | inversion Hw; subst; exact Hn ]
    end.
  - (* the thermal diagnostic *)
    exfalso.
    match goal with
    | Hx : lift (fdiv 1 (py_max _ _)) _ = Ok (?x, _),
      H : fdiv _ (1 + ?x) = Raise _ |- _ =>
        apply lift_Ok in Hx; destruct Hx as [Hx _];
        rewrite fdiv_guarded in Hx by reflexivity; inversion Hx; subst;
        apply fdiv_Raise in H; rewrite one_plus_inverse_nonzero in H;
        discriminate
    end.
  - exfalso.
    match goal with
    | H : normalize_rle ?a ?b ?c = Raise _ |- _ =>
        destruct (normalize_rle_Ok a b c); congruence
    end.
  - exfalso.
    match goal with
    | H : normalize_rle ?a ?b ?c = Raise _ |- _ =>
        destruct (normalize_rle_Ok a b c); congruence
    end.
  - exfalso.
    match goal with
    | H : normalize_rle ?a ?b ?c = Raise _ |- _ =>
        destruct (normalize_rle_Ok a b c); congruence
    end.
  - destruct (_detect_collapse_Raise _ _ _ _ _ _ _ _ H) as [Hc He].
    left. split; [exact (theta_window_on_windows _ _ Hc)|].
    split; [exact (theta_window_on_clock _ _ Hc)|exact He].
  - exfalso. destruct (_ && _); [|discriminate]. repeat rstep.
Qed.

Lemma compute_rle_Raise cfg u t p d st e :
  1 <= smooth_n cfg ->
  enable_micro_scale cfg = false ->
  compute_rle cfg u t p d st = Raise e ->
  enable_theta_clock cfg = true /\ engine_error e.
Proof.
  intros Hn Hoff H.
  destruct (compute_rle_Raise_site _ _ _ _ _ _ _ Hn Hoff H)
    as [(_ & Hc & He)|(Hc & self & Hne & _ & Hre)].
  - split; [exact Hc|left; exact He].
  - split; [exact Hc|]. exact (reestimate_t0_Raise _ _ _ Hne Hre).
Qed.

(** A session raises only if one of its calls does. *)
Lemma run_samples_Raise cfg samples : forall st e,
  run_samples cfg samples st = Raise e ->
  exists x s, call cfg x s = Raise e.
Proof.
  induction samples as [|x rest IH]; intros st e H; simpl in H.
  - discriminate.
  - repeat rstep; eauto.
Qed.

Lemma session_Raise args samples e :
  session args samples = Raise e ->
  exists x s, call (init_config args) x s = Raise e.
Proof.
  unfold session.
  destruct (run_samples (init_config args) samples init_state)
    as [[tr s]|e'] eqn:E; [discriminate|].
  intros H. inversion H; subst. eapply run_samples_Raise; eauto.
Qed.

End Exceptions3.

(** With the correction off, and a [pstdev] that returns non-negative
    values on non-empty data, the only exceptions a session can end with
    are those of the two int conversions of the theta clock
    ([OverflowError], [ValueError]) and those the square root
    [x ** 0.5] of the period re-estimation raises.  No division of the
    engine raises: a session ends with [ZeroDivisionError] only if that
    square root raises it.  All of them need the theta clock. *)
Theorem session_exceptions {lib : PyLib} args samples e :
  pstdev_returns -> pstdev_not_negative ->
  enable_micro_scale args = false ->
  session args samples = Raise e ->
  enable_theta_clock args = true
  /\ engine_error e
  /\ ((forall x : float, py_pow x 0.5 <> Raise ZeroDivisionError) ->
      e <> ZeroDivisionError).
Proof.
  intros Hret Hnn Hoff H.
  destruct (session_Raise _ _ _ H) as (x & s & Hc).
  unfold call in Hc.
  apply (compute_rle_Raise Hret Hnn (init_config args)) in Hc;
    [|simpl; lia|exact Hoff].
  destruct Hc as [Hclk He]. split; [exact Hclk|]. split; [exact He|].
  intros Hpow ->.
  destruct He as [[He|He]|(y & Hy)]; try discriminate He.
  exact (Hpow y Hy).
Qed.

(** With the theta clock and the correction both off, every session
    returns one result per sample, whatever the samples are (NaN,
    infinities, negative intervals, missing sensors). *)
Theorem session_returns_without_clock {lib : PyLib} args samples :
  pstdev_returns -> pstdev_not_negative ->
  enable_micro_scale args = false ->
  enable_theta_clock args = false ->
  exists tr,
    session args samples = Ok tr /\ List.length tr = List.length samples.
Proof.
  intros Hret Hnn Hoff Hclk.
  destruct (session args samples) as [tr|e] eqn:E.
  - exists tr. split; [reflexivity|].
    destruct (session_inv _ _ _ E) as [stf Hrun].
    exact (run_samples_length _ _ _ _ _ Hrun).
  - exfalso.
    destruct (session_Raise _ _ _ E) as (x & s & Hc).
    unfold call in Hc.
    apply (compute_rle_Raise Hret Hnn (init_config args)) in Hc;
      [|simpl; lia|exact Hoff].
    destruct Hc as [Hc _]. simpl in Hc. congruence.
Qed.

(** ** Sessions with unit intervals always return *)

(** *** Finite results of the float operations *)

Lemma binary_round_aux_not_nan s mx ex lx :
  0 <= mx -> binary_round_aux prec emax s mx ex lx <> S754_nan.
Proof.
  intros Hm.
  destruct (binary_round_aux_stages s mx ex lx Hm)
    as (m1 & m2 & e1 & e2 & He1 & Hm1 & He2 & Hm2 & ->).
  assert (H0 : 0 <= mx / 2 ^ (e1 - ex)).
  { apply Z.div_pos; [lia|]. apply Z.pow_pos_nonneg; lia. }
  assert (H2 : 0 <= m2).
  { rewrite Hm2. apply Z.div_pos; [lia|]. apply Z.pow_pos_nonneg; lia. }
  destruct m2 as [|p|p]; try discriminate; [|lia].
  destruct (e2 <=? emax - prec); discriminate.
Qed.

Lemma small_finite k x : sf_small k x -> x <> S754_nan -> sf_finite x.
Proof.
  destruct x; cbn [sf_small sf_finite]; auto; try contradiction.
Qed.

Lemma SFmul_not_nan x y :
  sf_finite x -> sf_finite y -> SF64mul x y <> S754_nan.
Proof.
  destruct x as [sx|sx| |sx mx ex], y as [sy|sy| |sy my ey];
    cbn [sf_finite]; try contradiction; intros _ _;
    unfold SF64mul, SFmul; try discriminate.
  apply binary_round_aux_not_nan. lia.
Qed.

Lemma SFdiv_not_nan x y :
  sf_finite x -> sf_finite y -> (forall s, y <> S754_zero s) ->
  SF64div x y <> S754_nan.
Proof.
  destruct x as [sx|sx| |sx mx ex], y as [sy|sy| |sy my ey];
    cbn [sf_finite]; try contradiction; intros _ _ Hz;
    unfold SF64div, SFdiv; try discriminate;
    try (exfalso; apply (Hz sy); reflexivity).
  pose proof (SFdiv_core_binary_bounds mx ex my ey) as H.
  destruct (SFdiv_core_binary prec emax (Zpos mx) ex (Zpos my) ey) as [[q e'] l].
  cbv zeta in H. destruct H as (Hq & _).
  apply binary_round_aux_not_nan. exact Hq.
Qed.

Lemma SFmul_nonneg x y :
  sf_nonneg x -> sf_nonneg y -> sf_nonneg (SF64mul x y).
Proof.
  destruct x as [sx|sx| |sx mx ex], y as [sy|sy| |sy my ey];
    unfold SF64mul, SFmul; cbn [sf_nonneg]; intros; subst; auto.
  apply binary_round_aux_nonneg.
Qed.

Lemma py_int_finite (x : float) : finite_float x -> exists z, py_int x = Ok z.
Proof.
  unfold finite_float, py_int.
  destruct (Prim2SF x); cbn [sf_finite]; try contradiction; eauto.
Qed.

(** A number between 0.0 and a positive normal constant. *)
Lemma range_small (t c : float) mc ec :
  Prim2SF c = S754_finite false mc ec ->
  Zpos (digits2_pos mc) = 53 ->
  (0 <=? t)%float = true -> (t <=? c)%float = true ->
  small (53 + ec) t /\ finite_float t /\ sf_nonneg (Prim2SF t).
Proof.
  intros Hc Hmc H0 Hle.
  unfold small, finite_float.
  pose proof (Prim2SF_valid t) as Hv.
  rewrite leb_spec in H0, Hle. rewrite Prim2SF_zero in H0. rewrite Hc in Hle.
  unfold SFleb in *.
  destruct (Prim2SF t) as [s|s| |s m e]; cbn [sf_small sf_finite sf_nonneg];
    try (split; [exact I|split; [exact I|exact I]]).
  - simpl in Hle. destruct s; discriminate.
  - simpl in H0. discriminate.
  - simpl in H0. destruct s; [discriminate|].
    split; [|split; [exact I|reflexivity]].
    rewrite SFcompare_finite in Hle.
    destruct (valid_finite _ _ _ Hv) as [He _].
    destruct (Z.compare_spec e ec) as [Heq|Hlt|Hgt]; try discriminate.
    + subst ec.
      destruct (Pos.compare_spec m mc) as [Hm|Hm|Hm]; try discriminate.
      * subst. lia.
      * pose proof (Zdigits2_mono (Zpos m) (Zpos mc) ltac:(lia)) as Hd.
        cbn [Zdigits2] in Hd. lia.
    + lia.
Qed.

(** *** Facts checked by evaluation over the finitely many buffer sizes *)

Lemma forallb_seq (f : nat -> bool) (a n k : nat) :
  forallb f (seq a n) = true -> (a <= k < a + n)%nat -> f k = true.
Proof.
  intros H Hk. rewrite forallb_forall in H. apply H. apply in_seq. exact Hk.
Qed.

(** The mean of up to 1024 unit intervals is exactly 1.0. *)
Lemma unit_mean (m : nat) :
  (1 <= m <= 1024)%nat ->
  (py_sum (repeat 1%float m) / Z2float (Z.of_nat m))%float = 1%float.
Proof.
  intros Hm. apply Leibniz.eqb_spec.
  apply (forallb_seq
           (fun m => Leibniz.eqb
                       (py_sum (repeat 1%float m) / Z2float (Z.of_nat m)) 1)
           1 1024 m); [vm_compute; reflexivity|lia].
Qed.

(** Twice the span of up to 256 unit intervals lies in [[0, 512]]. *)
Lemma unit_span (k : nat) :
  (1 <= k <= 256)%nat ->
  (0 <=? 2 * (1 * Z2float (Z.of_nat k)))%float = true
  /\ (2 * (1 * Z2float (Z.of_nat k)) <=? 512)%float = true.
Proof.
  intros Hk. apply andb_prop.
  apply (forallb_seq
           (fun k => (0 <=? 2 * (1 * Z2float (Z.of_nat k)))%float
                     && (2 * (1 * Z2float (Z.of_nat k)) <=? 512)%float)
           1 256 k); [vm_compute; reflexivity|lia].
Qed.

(** *** The lag bound and the period candidate under unit intervals *)

Lemma not_number_nan (t : float) : is_number t = false -> Prim2SF t = S754_nan.
Proof.
  intros H. destruct (Prim2SF t) eqn:E; try reflexivity;
    assert (Hn : is_number t = true)
      by (apply is_number_spec; rewrite E; discriminate);
    congruence.
Qed.

Lemma nan_mul (c t : float) : is_number t = false -> is_number (c * t) = false.
Proof.
  intros H. apply not_number_nan in H.
  destruct (is_number (c * t)) eqn:E; [|reflexivity].
  apply is_number_spec in E. exfalso. apply E.
  rewrite mul_spec, H. unfold SF64mul, SFmul. destruct (Prim2SF c); reflexivity.
Qed.

Lemma sf_small_weaken k k' x : k <= k' -> sf_small k x -> sf_small k' x.
Proof. intros Hk. destruct x; cbn [sf_small]; auto. lia. Qed.

(** The clamp of a candidate into the default period range is NaN or a
    number of [[5, 600]]. *)
Lemma clamp_default_range (rc : float) :
  is_number (py_min (py_max rc 5) 600) = false
  \/ ((5 <=? py_min (py_max rc 5) 600)%float = true
      /\ (py_min (py_max rc 5) 600 <=? 600)%float = true).
Proof.
  destruct (is_number rc) eqn:E.
  - right. exact (clamp_period_in_range default_args rc eq_refl E).
  - left. unfold py_max, py_min.
    destruct (rc <? 5)%float eqn:E1.
    { apply ltb_is_number in E1. destruct E1 as [E1 _]. congruence. }
    destruct (600 <? rc)%float eqn:E2.
    { apply ltb_is_number in E2. destruct E2 as [_ E2]. congruence. }
    exact E.
Qed.

Lemma period_nonneg (t : float) :
  is_number t = false
  \/ ((5 <=? t)%float = true /\ (t <=? 600)%float = true) ->
  sf_nonneg (Prim2SF t).
Proof.
  intros [H|[H1 H2]].
  - rewrite (not_number_nan _ H). exact I.
  - assert (H0 : (0 <=? t)%float = true)
      by (apply (leb_trans 0 5 t); [reflexivity|exact H1]).
    exact (proj2 (proj2 (range_small t 600 5277655813324800 (-43)
                           eq_refl eq_refl H0 H2))).
Qed.

(** The lag bound [max(2 * dt_win_s, 1.5 * tau)] is finite. *)
Lemma lag_finite (L0 t : float) :
  (0 <=? L0)%float = true -> (L0 <=? 512)%float = true ->
  is_number t = false
  \/ ((5 <=? t)%float = true /\ (t <=? 600)%float = true) ->
  small 12 (py_max L0 (1.5 * t)) /\ finite_float (py_max L0 (1.5 * t)).
Proof.
  intros H0 H1 Ht.
  destruct (range_small L0 512 4503599627370496 (-43) eq_refl eq_refl H0 H1)
    as (Hs & Hf & _).
  unfold py_max. destruct (L0 <? 1.5 * t)%float eqn:E.
  - destruct Ht as [Ht|[Ht1 Ht2]].
    { apply ltb_is_number in E. destruct E as [_ E].
      rewrite (nan_mul _ _ Ht) in E. discriminate. }
    assert (Ht0 : (0 <=? t)%float = true)
      by (apply (leb_trans 0 5 t); [reflexivity|exact Ht1]).
    destruct (range_small t 600 5277655813324800 (-43) eq_refl eq_refl Ht0 Ht2)
      as (Hts & Htf & _).
    assert (Hm : sf_small 12 (Prim2SF (1.5 * t))).
    { rewrite mul_spec. apply (SFmul_small 1 10); try lia.
      - vm_compute. discriminate.
      - exact Hts. }
    split; [exact Hm|].
    unfold finite_float. apply (small_finite 12); [exact Hm|].
    rewrite mul_spec. apply SFmul_not_nan; [exact I|exact Htf].
  - split; [|exact Hf]. apply (sf_small_weaken 10); [lia|exact Hs].
Qed.

Lemma quotient_by_one_finite (L : float) :
  small 12 L -> finite_float L -> finite_float (L / 1).
Proof.
  intros Hs Hf. unfold finite_float. rewrite div_spec.
  apply (small_finite (12 - 1 + 2)).
  - apply (SFdiv_small 12 1); try lia; [exact Hs|].
    rewrite Prim2SF_one. cbn [sf_big]. vm_compute. discriminate.
  - apply SFdiv_not_nan; [exact Hf|rewrite Prim2SF_one; exact I|].
    intros s. rewrite Prim2SF_one. discriminate.
Qed.

Lemma Z2float_nonneg (k : Z) : 0 < k -> sf_nonneg (Prim2SF (Z2float k)).
Proof.
  intros Hk. rewrite Prim2SF_Z2float. destruct k as [|p|p]; try lia.
  cbn [binary_normalize]. unfold binary_round.
  destruct (shl_align p 0 _) as [mz ez]. apply binary_round_aux_nonneg.
Qed.

(** The lag the autocorrelation search settles on is one of the lags it
    tried. *)
Lemma foldM_autocorr_lag series mean (l : list Z) : forall b best,
  foldM (autocorr_step series mean) l b = Ok best ->
  fst best = fst b \/ exists k, In k l /\ fst best = Some k.
Proof.
  induction l as [|k l IH]; simpl; intros b best H.
  - injection H as <-. left. reflexivity.
  - apply rbind_Ok in H. destruct H as (b' & Hb & H).
    unfold autocorr_step in Hb. rewrite fdiv_guarded in Hb by reflexivity.
    simpl in Hb. injection Hb as <-.
    destruct (IH _ _ H) as [E|(k' & Hin & E)].
    + destruct (snd b <? _)%float; simpl in E; [right; exists k|left]; auto.
    + right. exists k'. auto.
Qed.

Lemma in_py_range (a b k : Z) : In k (py_range a b) -> a <= k < b.
Proof.
  unfold py_range. intros H. apply in_map_iff in H.
  destruct H as (i & <- & Hi). apply in_seq in Hi. lia.
Qed.

Section UnitIntervals.

Context {lib : PyLib}.
Hypothesis Hret : pstdev_returns.
Hypothesis Hnn : pstdev_not_negative.
Hypothesis Hpow : pow_half_returns.

(** With unit intervals in the dt buffer and the default period range,
    the re-estimation returns. *)
Lemma reestimate_t0_unit cfg self (m : nat) e :
  theta_min_s cfg = 5%float -> theta_max_s cfg = 600%float ->
  (1 <= m <= 1024)%nat ->
  _buf_dt self = repeat 1%float m ->
  reestimate_t0 cfg self = Raise e -> False.
Proof.
  intros Hmin Hmax Hm Hbuf. unfold reestimate_t0. rewrite Hbuf, Hmin, Hmax.
  assert (Hlen : len (repeat 1%float m) = Z.of_nat m)
    by (unfold len; rewrite repeat_length; reflexivity).
  rewrite Hlen.
  assert (Hmpos : 0 < Z.of_nat m) by lia.
  rewrite (fdiv_nonzero _ _ (Z2float_nonzero _ Hmpos)).
  rewrite (unit_mean m Hm). cbn [rbind].
  change (py_max 1 1e-6) with 1%float.
  intros H.
  apply rbind_Raise in H. destruct H as [H|(tau & Htau & H)].
  { (* the thermal time constant *)
    destruct (len (_buf_temp self) >=? 8); [|discriminate].
    apply rbind_Raise in H. destruct H as [H|(derivs & _ & H)].
    - apply mapM_Raise in H. destruct H as [a H].
      rewrite fdiv_nonzero in H by reflexivity. discriminate.
    - rewrite fdiv_nonzero in H by (apply Z2float_nonzero; lia). simpl in H.
      destruct (1e-6 <? _)%float eqn:E; [|discriminate].
      rewrite fdiv_nonzero in H by (eapply ltb_pos_nonzero; [|exact E]; reflexivity).
      discriminate. }
  assert (Htau_ok : match tau with
                    | Some t =>
                        is_number t = false
                        \/ ((5 <=? t)%float = true /\ (t <=? 600)%float = true)
                    | None => True
                    end).
  { destruct (len (_buf_temp self) >=? 8); [|injection Htau as <-; exact I].
    apply rbind_Ok in Htau. destruct Htau as (derivs & _ & Htau).
    apply rbind_Ok in Htau. destruct Htau as (avg & _ & Htau).
    destruct (1e-6 <? avg)%float; [|injection Htau as <-; exact I].
    apply rbind_Ok in Htau. destruct Htau as (rc & _ & Htau).
    injection Htau as <-. apply clamp_default_range. }
  apply rbind_Raise in H. destruct H as [H|(tau_eff & Heff & H)].
  { unfold _harmonic_mean in H. destruct tau; discriminate. }
  assert (Heff_ok : match tau_eff with
                    | Some t => sf_nonneg (Prim2SF t)
                    | None => True
                    end).
  { unfold _harmonic_mean in Heff.
    destruct tau as [t|]; simpl in Heff; injection Heff as <-; [|exact I].
    destruct (truthy t); [|exact I]. apply period_nonneg. exact Htau_ok. }
  apply rbind_Raise in H. destruct H as [H|(T_peak & Hpeak & H)].
  { (* the autocorrelation peak *)
    destruct (len (_buf_rle_sm self) >=? 32) eqn:E32; [|discriminate].
    rewrite Z.geb_leb in E32. apply Z.leb_le in E32.
    set (series := slice_from (- Z.min (len (_buf_rle_sm self)) 512)
                              (_buf_rle_sm self)) in *.
    assert (Hn : 0 < len series).
    { unfold series. rewrite len_slice_from_neg by lia. lia. }
    rewrite (fdiv_nonzero _ _ (Z2float_nonzero _ Hn)) in H. simpl in H.
    rewrite fdiv_nonzero in H by (apply Z2float_nonzero; lia). simpl in H.
    destruct (0 <? _)%float; [|discriminate].
    apply rbind_Raise in H. destruct H as [H|(i & _ & H)].
    - (* the int conversion of the lag bound *)
      assert (Hk : (1 <= Nat.min m 256 <= 256)%nat) by lia.
      destruct (unit_span _ Hk) as [S0 S1].
      replace (Z.min (Z.of_nat m) 256) with (Z.of_nat (Nat.min m 256)) in H
        by lia.
      set (L0 := (2 * (1 * Z2float (Z.of_nat (Nat.min m 256))))%float) in *.
      assert (HL : exists L, small 12 L /\ finite_float L
                             /\ py_int (L / 1) = Raise e).
      { destruct tau as [t|].
        - destruct (truthy t).
          + destruct (lag_finite L0 t S0 S1 Htau_ok) as [A B]. eauto.
          + exists L0. split; [|split; [|exact H]].
            * apply (sf_small_weaken 10); [lia|].
              apply (range_small L0 512 4503599627370496 (-43)
                       eq_refl eq_refl S0 S1).
            * apply (range_small L0 512 4503599627370496 (-43)
                       eq_refl eq_refl S0 S1).
        - exists L0. split; [|split; [|exact H]].
          + apply (sf_small_weaken 10); [lia|].
            apply (range_small L0 512 4503599627370496 (-43)
                     eq_refl eq_refl S0 S1).
          + apply (range_small L0 512 4503599627370496 (-43)
                     eq_refl eq_refl S0 S1). }
      destruct HL as (L & HLs & HLf & HLi).
      destruct (py_int_finite _ (quotient_by_one_finite L HLs HLf)) as [z Hz].
      congruence.
    - apply rbind_Raise in H. destruct H as [H|(best & _ & H)].
      + apply foldM_Raise in H. destruct H as (b & k & H).
        destruct (autocorr_step_Ok series
                    (py_sum series / Z2float (len series))%float b k)
          as [b' Hb].
        congruence.
      + destruct (fst best); [destruct (0.3 <=? snd best)%float|];
          discriminate. }
  assert (Hpeak_ok : match T_peak with
                     | Some t => sf_nonneg (Prim2SF t)
                     | None => True
                     end).
  { destruct (len (_buf_rle_sm self) >=? 32); [|injection Hpeak as <-; exact I].
    apply rbind_Ok in Hpeak. destruct Hpeak as (mean & _ & Hpeak).
    apply rbind_Ok in Hpeak. destruct Hpeak as (var & _ & Hpeak).
    destruct (0 <? var)%float; [|injection Hpeak as <-; exact I].
    apply rbind_Ok in Hpeak. destruct Hpeak as (q & _ & Hpeak).
    apply rbind_Ok in Hpeak. destruct Hpeak as (i & _ & Hpeak).
    apply rbind_Ok in Hpeak. destruct Hpeak as (best & Hbest & Hpeak).
    destruct (foldM_autocorr_lag _ _ _ _ _ Hbest) as [E|(k & Hin & E)];
      rewrite E in Hpeak; simpl in Hpeak.
    - injection Hpeak as <-. exact I.
    - destruct (0.3 <=? snd best)%float; injection Hpeak as <-; [|exact I].
      rewrite mul_one_r. apply Z2float_nonneg.
      apply in_py_range in Hin. lia. }
  apply rbind_Raise in H. destruct H as [H|(c & _ & H)]; [|discriminate].
  (* the geometric mean *)
  destruct tau_eff as [te|]; [|discriminate].
  assert (Htp : match (match T_peak with Some _ => T_peak | None => Some te end)
                with
                | Some tp => sf_nonneg (Prim2SF tp)
                | None => True
                end).
  { destruct T_peak; [exact Hpeak_ok|exact Heff_ok]. }
  destruct (match T_peak with Some _ => T_peak | None => Some te end)
    as [tp|]; [|discriminate].
  apply rbind_Raise in H. destruct H as [H|(r & _ & H)]; [|discriminate].
  assert (Hprod : (tp * te <? 0)%float = false).
  { apply nonneg_not_below_zero. rewrite mul_spec.
    apply SFmul_nonneg; assumption. }
  destruct (Hpow _ Hprod) as [r Hr]. congruence.
Qed.

(** A dt buffer of unit intervals stays one when a unit interval is
    pushed, and is then not empty. *)
Lemma append_capped_unit (m : nat) :
  (m <= 1024)%nat ->
  exists m', (1 <= m' <= 1024)%nat
             /\ append_capped 1024 (repeat 1%float m) 1 = repeat 1%float m'.
Proof.
  intros Hm. unfold append_capped.
  rewrite <- repeat_cons.
  change (1%float :: repeat 1%float m) with (repeat 1%float (S m)).
  assert (Hlen : len (repeat 1%float (S m)) = Z.of_nat (S m))
    by (unfold len; rewrite repeat_length; reflexivity).
  rewrite Hlen.
  destruct (Z.of_nat (S m) >? 1024) eqn:E.
  - apply Z.gtb_lt in E. exists m. split; [lia|reflexivity].
  - exists (S m). split; [|reflexivity].
    destruct (Z.gtb_spec (Z.of_nat (S m)) 1024); [discriminate|lia].
Qed.

Lemma run_samples_unit cfg samples :
  1 <= smooth_n cfg -> _rb_len cfg = 1024 ->
  enable_micro_scale cfg = false -> use_theta_windows cfg = false ->
  theta_min_s cfg = 5%float -> theta_max_s cfg = 600%float ->
  unit_intervals samples ->
  forall st (m : nat),
    (m <= 1024)%nat -> _buf_dt st = repeat 1%float m ->
    exists tr st', run_samples cfg samples st = Ok (tr, st').
Proof.
  intros Hn Hrb Hoff Hwin Hmin Hmax Hu.
  induction Hu as [|x rest Hx Hrest IH]; intros st m Hm Hbuf; simpl.
  - eexists _, _. reflexivity.
  - destruct (append_capped_unit m Hm) as (m' & Hm' & Happ).
    unfold bind.
    destruct (call cfg x st) as [[r st1]|e] eqn:Ec.
    + apply call_histories in Ec.
      destruct Ec as (_ & _ & _ & _ & _ & Hdt & _).
      rewrite Hrb, Hbuf, Hx, Happ in Hdt.
      destruct (IH st1 m' ltac:(lia) Hdt) as (tr & st' & Hrun).
      simpl. rewrite Hrun. simpl. eexists _, _. reflexivity.
    + exfalso. unfold call in Ec.
      destruct (compute_rle_Raise_site Hret Hnn _ _ _ _ _ _ _ Hn Hoff Ec)
        as [(Hw & _)|(_ & self & _ & Hself & Hre)].
      * congruence.
      * rewrite Hrb, Hbuf, Hx, Happ in Hself.
        exact (reestimate_t0_unit cfg self m' e Hmin Hmax Hm' Hself Hre).
Qed.

End UnitIntervals.

(** On an engine with the default period range (5 s to 600 s), the
    correction and the theta windows off, a session whose samples all
    come with dt = 1.0 (the interval [augment_csv] passes for every row)
    returns one result per sample, whatever the sensor readings are:
    provided [pstdev] returns non-negative values on non-empty data and
    the square root ([** 0.5]) returns on bases that are not negative. *)
Theorem session_returns_on_unit_intervals {lib : PyLib} args samples :
  pstdev_returns -> pstdev_not_negative -> pow_half_returns ->
  enable_micro_scale args = false ->
  use_theta_windows args = false ->
  theta_min_s args = 5%float -> theta_max_s args = 600%float ->
  unit_intervals samples ->
  exists tr,
    session args samples = Ok tr /\ List.length tr = List.length samples.
Proof.
  intros Hret Hnn Hpow Hoff Hwin Hmin Hmax Hu.
  destruct (run_samples_unit Hret Hnn Hpow (init_config args) samples)
    with (st := init_state) (m := 0%nat) as (tr & st' & Hrun);
    try assumption; try reflexivity; try lia.
  - simpl. lia.
  - simpl. rewrite Hmin. reflexivity.
  - simpl. rewrite Hmin, Hmax. reflexivity.
  - exists tr. unfold session. rewrite Hrun. split; [reflexivity|].
    exact (run_samples_length _ _ _ _ _ Hrun).
Qed.

(** ** The rolling mean: its only exception *)

Lemma Z2float_nonzero_all (n : Z) : n <> 0 -> (Z2float n =? 0)%float = false.
Proof.
  intros Hn. apply (big_nonzero 1). unfold big. rewrite Prim2SF_Z2float.
  destruct n as [|p|p]; [congruence| |];
    cbn [binary_normalize]; (apply binary_round_big; [|lia]);
    pose proof (Pos2Z.is_pos (digits2_pos p)); lia.
Qed.

(** * Monotonicity of binary64 rounding *)

Lemma pow2_split k : 0 < k -> 2 ^ k = 2 ^ (k - 1) * 2.
Proof.
  intros Hk. replace k with (k - 1 + 1) at 1 by lia.
  rewrite Z.pow_add_r by lia. reflexivity.
Qed.

Lemma shr_1_step m r s :
  0 <= m ->
  shr_1 (Build_shr_record m r s) = Build_shr_record (m / 2) (Z.odd m) (r || s).
Proof.
  intros Hm. destruct m as [|[p|p|]|]; try lia; simpl shr_1.
  - reflexivity.
  - replace (Z.pos p~1 / 2) with (Z.pos p); [reflexivity|].
    apply Z.div_unique with 1; lia.
  - replace (Z.pos p~0 / 2) with (Z.pos p); [reflexivity|].
    apply Z.div_unique with 0; lia.
  - reflexivity.
Qed.

Lemma shr_state_init M : shr_state M 0 (Build_shr_record M false false).
Proof.
  unfold shr_state. simpl. rewrite Z.div_1_r. auto.
Qed.

Lemma shr_state_step M k R :
  0 <= M -> 0 <= k -> shr_state M k R -> shr_state M (k + 1) (shr_1 R).
Proof.
  intros HM Hk (Hm & Hr & Hs). destruct R as [m r s]. simpl in Hm, Hr, Hs.
  assert (Hp : 0 < 2 ^ k) by (apply Z.pow_pos_nonneg; lia).
  assert (Hm0 : 0 <= m) by (subst m; apply Z.div_pos; lia).
  rewrite shr_1_step by exact Hm0.
  unfold shr_state. cbn [shr_m shr_r shr_s].
  replace (k + 1 =? 0) with false by (symmetry; apply Z.eqb_neq; lia).
  replace (k + 1 - 1) with k by lia.
  split; [|split].
  - rewrite Hm, Z.pow_add_r, Z.pow_1_r by lia.
    rewrite Z.div_div by lia. reflexivity.
  - rewrite Hm. reflexivity.
  - rewrite Hr, Hs. destruct (k =? 0) eqn:E0.
    + apply Z.eqb_eq in E0. subst k. simpl. rewrite Z.mod_1_r. reflexivity.
    + apply Z.eqb_neq in E0.
      assert (Hk1 : 0 <= k - 1) by lia.
      assert (Hp1 : 0 < 2 ^ (k - 1)) by (apply Z.pow_pos_nonneg; lia).
      assert (E : M mod 2 ^ k
                  = M mod 2 ^ (k - 1)
                    + 2 ^ (k - 1) * ((M / 2 ^ (k - 1)) mod 2)).
      { rewrite (pow2_split k) by lia. apply Z.rem_mul_r; lia. }
      rewrite E, Zmod_odd.
      pose proof (Z.mod_pos_bound M (2 ^ (k - 1)) Hp1) as Hb.
      destruct (Z.odd (M / 2 ^ (k - 1))); simpl.
      * symmetry. apply negb_true_iff. apply Z.eqb_neq. lia.
      * rewrite Z.mul_0_r, Z.add_0_r. reflexivity.
Qed.

Lemma shr_state_iter M n : forall k R,
  0 <= M -> 0 <= k -> shr_state M k R ->
  shr_state M (k + Zpos n) (iter_pos shr_1 n R).
Proof.
  induction n as [n IH|n IH|]; intros k R HM Hk H; simpl iter_pos.
  - replace (k + Zpos n~1) with (k + 1 + Zpos n + Zpos n) by lia.
    apply IH; [lia|lia|]. apply IH; [lia|lia|].
    apply shr_state_step; assumption.
  - replace (k + Zpos n~0) with (k + Zpos n + Zpos n) by lia.
    apply IH; [lia|lia|]. apply IH; assumption.
  - apply shr_state_step; assumption.
Qed.

(** Rounding the register after [n >= 1] shifts gives [round_shift]. *)
Lemma shr_state_round M n R :
  0 <= M -> 0 < n -> shr_state M n R ->
  round_nearest_even (shr_m R) (loc_of_shr_record R) = round_shift M n.
Proof.
  intros HM Hn (Hm & Hr & Hs). destruct R as [m r s]. simpl in Hm, Hr, Hs.
  replace (n =? 0) with false in * by (symmetry; apply Z.eqb_neq; lia).
  unfold round_shift.
  replace (n <=? 0) with false by (symmetry; apply Z.leb_gt; lia).
  cbv zeta.
  assert (Hp1 : 0 < 2 ^ (n - 1)) by (apply Z.pow_pos_nonneg; lia).
  assert (E : M mod 2 ^ n
              = M mod 2 ^ (n - 1)
                + 2 ^ (n - 1) * ((M / 2 ^ (n - 1)) mod 2)).
  { rewrite (pow2_split n) by lia. apply Z.rem_mul_r; lia. }
  rewrite Zmod_odd in E.
  pose proof (Z.mod_pos_bound M (2 ^ (n - 1)) Hp1) as Hb.
  cbn [shr_m loc_of_shr_record]. rewrite <- Hm.
  subst r s.
  destruct (Z.odd (M / 2 ^ (n - 1))) eqn:Eo;
    destruct (M mod 2 ^ (n - 1) =? 0) eqn:Ez; cbn [negb];
    [apply Z.eqb_eq in Ez|apply Z.eqb_neq in Ez
    |apply Z.eqb_eq in Ez|apply Z.eqb_neq in Ez];
    cbn [round_nearest_even].
  - (* tie *)
    replace (M mod 2 ^ n <? 2 ^ (n - 1)) with false
      by (symmetry; apply Z.ltb_ge; lia).
    replace (2 ^ (n - 1) <? M mod 2 ^ n) with false
      by (symmetry; apply Z.ltb_ge; lia).
    reflexivity.
  - replace (M mod 2 ^ n <? 2 ^ (n - 1)) with false
      by (symmetry; apply Z.ltb_ge; lia).
    replace (2 ^ (n - 1) <? M mod 2 ^ n) with true
      by (symmetry; apply Z.ltb_lt; lia).
    reflexivity.
  - replace (M mod 2 ^ n <? 2 ^ (n - 1)) with true
      by (symmetry; apply Z.ltb_lt; lia).
    reflexivity.
  - replace (M mod 2 ^ n <? 2 ^ (n - 1)) with true
      by (symmetry; apply Z.ltb_lt; lia).
    reflexivity.
Qed.

(** The first stage on an exact mantissa. *)
Lemma shr_fexp_round M e :
  0 < M -> e <= fexp prec emax (Zdigits2 M + e) ->
  round_nearest_even (shr_m (fst (shr_fexp prec emax M e loc_Exact)))
    (loc_of_shr_record (fst (shr_fexp prec emax M e loc_Exact)))
  = round_shift M (fexp prec emax (Zdigits2 M + e) - e)
  /\ snd (shr_fexp prec emax M e loc_Exact) = fexp prec emax (Zdigits2 M + e).
Proof.
  intros HM He. unfold shr_fexp, shr.
  set (E := fexp prec emax (Zdigits2 M + e)) in *.
  destruct (E - e) as [|p|p] eqn:En; try lia.
  - cbn [fst snd shr_record_of_loc shr_m loc_of_shr_record round_nearest_even].
    split; [reflexivity|lia].
  - cbn [fst snd]. split; [|lia].
    apply shr_state_round; [lia|lia|].
    change (Zpos p) with (0 + Zpos p).
    apply shr_state_iter; [lia|lia|]. apply shr_state_init.
Qed.

(** [binary_round_aux] on an exact mantissa, in closed form. *)
Lemma binary_round_aux_closed s M e :
  0 < M -> e <= fexp prec emax (Zdigits2 M + e) ->
  binary_round_aux prec emax s M e loc_Exact
  = round_finish s (round_shift M (fexp prec emax (Zdigits2 M + e) - e))
                 (fexp prec emax (Zdigits2 M + e)).
Proof.
  intros HM He. unfold binary_round_aux.
  destruct (shr_fexp_round M e HM He) as [Hr He1].
  destruct (shr_fexp prec emax M e loc_Exact) as [R e1]. cbn [fst snd] in *.
  rewrite Hr, He1.
  set (rho := round_shift M (fexp prec emax (Zdigits2 M + e) - e)).
  set (E := fexp prec emax (Zdigits2 M + e)).
  assert (Hrho : 0 <= rho).
  { unfold rho, round_shift.
    destruct (_ <=? 0); [lia|]. cbv zeta.
    assert (0 <= M / 2 ^ (fexp prec emax (Zdigits2 M + e) - e))
      by (apply Z.div_pos; [lia|apply Z.pow_pos_nonneg; lia]).
    destruct (_ <? _); [lia|]. destruct (_ <? _); [lia|].
    destruct (Z.even _); lia. }
  pose proof (shr_fexp_spec rho E loc_Exact Hrho) as Hs. cbv zeta in Hs.
  destruct Hs as [Hs1 Hs2].
  destruct (shr_fexp prec emax rho E loc_Exact) as [R2 e2]. cbn [fst snd] in *.
  unfold round_finish. cbv zeta. rewrite Hs1, Hs2. reflexivity.
Qed.

Lemma round_shift_bounds M n :
  0 <= M -> 0 <= n -> M / 2 ^ n <= round_shift M n <= M / 2 ^ n + 1.
Proof.
  intros HM Hn. unfold round_shift.
  destruct (n <=? 0) eqn:E.
  - apply Z.leb_le in E. replace n with 0 by lia.
    rewrite Z.pow_0_r, Z.div_1_r. lia.
  - cbv zeta. destruct (_ <? _); [lia|]. destruct (_ <? _); [lia|].
    destruct (Z.even _); lia.
Qed.

Lemma round_shift_mono M M' n :
  0 <= M <= M' -> round_shift M n <= round_shift M' n.
Proof.
  intros HM. unfold round_shift.
  destruct (n <=? 0) eqn:E; [lia|]. apply Z.leb_gt in E. cbv zeta.
  assert (HP : 0 < 2 ^ n) by (apply Z.pow_pos_nonneg; lia).
  pose proof (Z.div_mod M (2 ^ n) ltac:(lia)) as D1.
  pose proof (Z.div_mod M' (2 ^ n) ltac:(lia)) as D2.
  pose proof (Z.mod_pos_bound M (2 ^ n) HP) as B1.
  pose proof (Z.mod_pos_bound M' (2 ^ n) HP) as B2.
  set (q := M / 2 ^ n) in *. set (q' := M' / 2 ^ n) in *.
  set (r := M mod 2 ^ n) in *. set (r' := M' mod 2 ^ n) in *.
  set (P := 2 ^ n) in *. set (h := 2 ^ (n - 1)).
  assert (Hq : q < q' \/ (q = q' /\ r <= r')) by nia.
  destruct Hq as [Hq|[Hq Hr]].
  - assert (A : (if r <? h then q
                 else if h <? r then q + 1
                      else if Z.even q then q else q + 1) <= q + 1).
    { destruct (r <? h); [lia|]. destruct (h <? r); [lia|].
      destruct (Z.even q); lia. }
    assert (B : q' <= (if r' <? h then q'
                       else if h <? r' then q' + 1
                            else if Z.even q' then q' else q' + 1)).
    { destruct (r' <? h); [lia|]. destruct (h <? r'); [lia|].
      destruct (Z.even q'); lia. }
    lia.
  - rewrite <- Hq.
    destruct (Z.ltb_spec r h); destruct (Z.ltb_spec r' h);
      destruct (Z.ltb_spec h r); destruct (Z.ltb_spec h r');
      destruct (Z.even q); lia.
Qed.

Lemma round_shift_scale M n d :
  0 <= M -> 0 <= n -> 0 <= d ->
  round_shift (M * 2 ^ d) (n + d) = round_shift M n.
Proof.
  intros HM Hn Hd.
  destruct (Z.eq_dec d 0) as [->|Hd0].
  { rewrite Z.pow_0_r, Z.mul_1_r, Z.add_0_r. reflexivity. }
  assert (Hpd : 0 < 2 ^ d) by (apply Z.pow_pos_nonneg; lia).
  unfold round_shift.
  replace (n + d <=? 0) with false by (symmetry; apply Z.leb_gt; lia).
  cbv zeta.
  destruct (n <=? 0) eqn:E.
  - apply Z.leb_le in E. assert (n = 0) by lia. subst n.
    replace (0 + d) with d by lia.
    rewrite Z.div_mul by lia. rewrite Z.mod_mul by lia.
    assert (0 < 2 ^ (d - 1)) by (apply Z.pow_pos_nonneg; lia).
    replace (0 <? 2 ^ (d - 1)) with true by (symmetry; apply Z.ltb_lt; lia).
    reflexivity.
  - apply Z.leb_gt in E.
    assert (Hpn : 0 < 2 ^ n) by (apply Z.pow_pos_nonneg; lia).
    assert (Hh : 0 < 2 ^ (n - 1)) by (apply Z.pow_pos_nonneg; lia).
    rewrite (Z.pow_add_r 2 n d) by lia.
    rewrite Z.div_mul_cancel_r by lia.
    rewrite Z.mul_mod_distr_r by lia.
    replace (n + d - 1) with (n - 1 + d) by lia.
    rewrite (Z.pow_add_r 2 (n - 1) d) by lia.
    set (r := M mod 2 ^ n). set (h := 2 ^ (n - 1)). set (Q := 2 ^ d) in *.
    replace (r * Q <? h * Q) with (r <? h).
    2:{ destruct (Z.ltb_spec r h); symmetry;
          [apply Z.ltb_lt|apply Z.ltb_ge]; nia. }
    replace (h * Q <? r * Q) with (h <? r).
    2:{ destruct (Z.ltb_spec h r); symmetry;
          [apply Z.ltb_lt|apply Z.ltb_ge]; nia. }
    reflexivity.
Qed.

(** The second stage on a rounded mantissa of at most 54 bits. *)
Lemma round_finish_cases s rho E :
  0 <= rho <= 2 ^ 53 -> -1074 <= E ->
  round_finish s rho E
  = if rho =? 2 ^ 53 then round_out s (2 ^ 52) (E + 1) else round_out s rho E.
Proof.
  intros Hr HE. unfold round_finish. cbv zeta. rewrite fexp_eq.
  destruct (rho =? 2 ^ 53) eqn:E53.
  - apply Z.eqb_eq in E53. subst rho.
    change (Zdigits2 (2 ^ 53)) with 54.
    replace (Z.max (Z.max (54 + E - 53) (-1074) - E) 0) with 1 by lia.
    reflexivity.
  - apply Z.eqb_neq in E53.
    assert (Hd : Zdigits2 rho <= 53)
      by (apply Zdigits2_le_of_lt; lia).
    replace (Z.max (Z.max (Zdigits2 rho + E - 53) (-1074) - E) 0) with 0
      by lia.
    rewrite Z.pow_0_r, Z.div_1_r, Z.add_0_r. reflexivity.
Qed.

Lemma sfleb_round_out m e m' e' :
  0 <= m -> 0 < m' -> e < e' \/ (e = e' /\ m <= m') ->
  SFleb (round_out false m e) (round_out false m' e') = true.
Proof.
  intros Hm Hm' H. unfold round_out, SFleb.
  destruct m as [|p|p]; destruct m' as [|p'|p']; try lia.
  - destruct (e' <=? emax - prec); reflexivity.
  - change (emax - prec) with 971.
    destruct (Z.leb_spec e 971); destruct (Z.leb_spec e' 971);
      try reflexivity; try lia.
    rewrite SFcompare_finite.
    destruct H as [H|[He Hmm]].
    + apply Z.compare_lt_iff in H. rewrite H. reflexivity.
    + subst e'. rewrite Z.compare_refl.
      destruct (p ?= p')%positive eqn:Ec; try reflexivity.
      apply Pos.compare_gt_iff in Ec. lia.
Qed.

Lemma sfleb_round_out_zero e e' :
  SFleb (round_out false 0 e) (round_out false 0 e') = true.
Proof. reflexivity. Qed.

(** ** The order of exact values *)

Lemma val_le_base m e m' e' k :
  k <= e -> k <= e' ->
  (val_le m e m' e' <-> m * 2 ^ (e - k) <= m' * 2 ^ (e' - k)).
Proof.
  intros He He'. unfold val_le.
  set (c := Z.min e e').
  assert (Hc : k <= c) by (unfold c; lia).
  assert (Hce : c <= e) by (unfold c; lia).
  assert (Hce' : c <= e') by (unfold c; lia).
  assert (Hp : 0 < 2 ^ (c - k)) by (apply Z.pow_pos_nonneg; lia).
  replace (e - k) with (e - c + (c - k)) by lia.
  replace (e' - k) with (e' - c + (c - k)) by lia.
  rewrite !Z.pow_add_r by lia. rewrite !Z.mul_assoc.
  split; intros H.
  - apply Z.mul_le_mono_nonneg_r; lia.
  - apply Z.mul_le_mono_pos_r in H; assumption.
Qed.

(** A larger value has at least as many digits. *)
Lemma val_le_digits M e M' e' :
  0 < M -> 0 < M' -> val_le M e M' e' ->
  Zdigits2 M + e <= Zdigits2 M' + e'.
Proof.
  intros HM HM' H. unfold val_le in H.
  set (c := Z.min e e') in *.
  assert (Hce : c <= e) by (unfold c; lia).
  assert (Hce' : c <= e') by (unfold c; lia).
  pose proof (Zdigits2_ge M HM) as H1.
  pose proof (Zdigits2_lt M' ltac:(lia)) as H2.
  pose proof (Zdigits2_pos M HM) as H3.
  pose proof (Zdigits2_pos M' HM') as H4.
  destruct (Z_le_gt_dec (Zdigits2 M + e) (Zdigits2 M' + e')) as [|Hgt];
    [assumption|exfalso].
  assert (A : 2 ^ (Zdigits2 M - 1 + (e - c)) <= M * 2 ^ (e - c)).
  { rewrite Z.pow_add_r by lia.
    apply Z.mul_le_mono_nonneg_r; [apply Z.pow_nonneg; lia|exact H1]. }
  assert (B : M' * 2 ^ (e' - c) < 2 ^ (Zdigits2 M' + (e' - c))).
  { rewrite Z.pow_add_r by lia.
    apply Z.mul_lt_mono_pos_r; [apply Z.pow_pos_nonneg; lia|exact H2]. }
  assert (C : 2 ^ (Zdigits2 M' + (e' - c)) <= 2 ^ (Zdigits2 M - 1 + (e - c)))
    by (apply Z.pow_le_mono_r; lia).
  lia.
Qed.

(** The rounded mantissa has at most 54 bits, and 53 or 54 in the normal
    range. *)
Lemma round_shift_range M e :
  0 < M -> e <= fexp prec emax (Zdigits2 M + e) ->
  0 <= round_shift M (fexp prec emax (Zdigits2 M + e) - e) <= 2 ^ 53.
Proof.
  intros HM He. rewrite fexp_eq in *.
  set (E := Z.max (Zdigits2 M + e - 53) (-1074)) in *.
  pose proof (round_shift_bounds M (E - e) ltac:(lia) ltac:(lia)) as Hb.
  assert (Hq0 : 0 <= M / 2 ^ (E - e))
    by (apply Z.div_pos; [lia|apply Z.pow_pos_nonneg; lia]).
  pose proof (Zdigits2_lt M ltac:(lia)) as Hlt.
  pose proof (Zdigits2_pos M HM) as Hd.
  pose proof (div_pow2_lt M (Zdigits2 M) (E - e) ltac:(lia) ltac:(lia)
                ltac:(lia) Hlt) as Hq.
  assert (Hle : 2 ^ Z.max (Zdigits2 M - (E - e)) 0 <= 2 ^ 53)
    by (apply Z.pow_le_mono_r; lia).
  lia.
Qed.

Lemma round_shift_normal M e :
  0 < M -> -1074 < Zdigits2 M + e - 53 -> e <= Zdigits2 M + e - 53 ->
  2 ^ 52 <= round_shift M (Zdigits2 M + e - 53 - e).
Proof.
  intros HM Hn He.
  pose proof (round_shift_bounds M (Zdigits2 M + e - 53 - e) ltac:(lia)
                ltac:(lia)) as Hb.
  pose proof (Zdigits2_ge M HM) as Hge.
  pose proof (div_pow2_ge M (Zdigits2 M) (Zdigits2 M + e - 53 - e)
                ltac:(lia) ltac:(lia) Hge) as Hq.
  replace (Zdigits2 M - 1 - (Zdigits2 M + e - 53 - e)) with 52 in Hq by lia.
  lia.
Qed.

(** Rounding an exact positive value is monotone. *)
Theorem binary_round_aux_mono M e M' e' :
  0 < M -> 0 < M' ->
  e <= fexp prec emax (Zdigits2 M + e) ->
  e' <= fexp prec emax (Zdigits2 M' + e') ->
  val_le M e M' e' ->
  SFleb (binary_round_aux prec emax false M e loc_Exact)
        (binary_round_aux prec emax false M' e' loc_Exact) = true.
Proof.
  intros HM HM' He He' Hv.
  rewrite (binary_round_aux_closed false M e HM He).
  rewrite (binary_round_aux_closed false M' e' HM' He').
  pose proof (round_shift_range M e HM He) as Hr.
  pose proof (round_shift_range M' e' HM' He') as Hr'.
  pose proof (val_le_digits M e M' e' HM HM' Hv) as HD.
  rewrite !fexp_eq in *.
  set (E := Z.max (Zdigits2 M + e - 53) (-1074)) in *.
  set (E' := Z.max (Zdigits2 M' + e' - 53) (-1074)) in *.
  assert (HE : E <= E') by (unfold E, E'; lia).
  rewrite (round_finish_cases false _ E Hr) by (unfold E; lia).
  rewrite (round_finish_cases false _ E' Hr') by (unfold E'; lia).
  set (rho := round_shift M (E - e)) in *.
  set (rho' := round_shift M' (E' - e')) in *.
  destruct (Z.eq_dec E E') as [HEq|HNe].
  - (* the same exponent: compare the rounded mantissas *)
    assert (Hrr : rho <= rho').
    { unfold rho, rho'. rewrite <- HEq.
      set (c := Z.min e e').
      rewrite <- (round_shift_scale M (E - e) (e - c)) by (unfold c; lia).
      rewrite <- (round_shift_scale M' (E - e') (e' - c)) by (unfold c; lia).
      replace (E - e + (e - c)) with (E - c) by lia.
      replace (E - e' + (e' - c)) with (E - c) by lia.
      apply round_shift_mono. split.
      - apply Z.mul_nonneg_nonneg; [lia|apply Z.pow_nonneg; lia].
      - exact Hv. }
    rewrite <- HEq.
    destruct (Z.eqb_spec rho (2 ^ 53)) as [A|A];
      destruct (Z.eqb_spec rho' (2 ^ 53)) as [B|B].
    + apply sfleb_round_out; [lia|lia|right; lia].
    + lia.
    + apply sfleb_round_out; [lia|lia|left; lia].
    + destruct (Z.eq_dec rho' 0) as [Z0|NZ].
      * assert (rho = 0) by lia. rewrite Z0, H. reflexivity.
      * apply sfleb_round_out; [lia|lia|right; lia].
  - (* a smaller exponent: the larger value is normal *)
    assert (HE' : E' = Zdigits2 M' + e' - 53) by (unfold E, E' in *; lia).
    assert (Hn' : 2 ^ 52 <= rho').
    { unfold rho'. rewrite HE'. apply round_shift_normal; lia. }
    destruct (Z.eqb_spec rho (2 ^ 53)) as [A|A];
      destruct (Z.eqb_spec rho' (2 ^ 53)) as [B|B].
    + apply sfleb_round_out; [lia|lia|left; lia].
    + apply sfleb_round_out; [lia|lia|].
      destruct (Z.eq_dec (E + 1) E'); [right; lia|left; lia].
    + apply sfleb_round_out; [lia|lia|left; lia].
    + apply sfleb_round_out; [lia|lia|left; lia].
Qed.

(** [binary_round] aligns the mantissa first; the value is unchanged. *)
Theorem binary_round_mono (M M' : positive) e e' :
  val_le (Zpos M) e (Zpos M') e' ->
  SFleb (binary_round prec emax false M e)
        (binary_round prec emax false M' e') = true.
Proof.
  intros Hv. unfold binary_round.
  pose proof (shl_align_spec M e (fexp prec emax (Zpos (digits2_pos M) + e)))
    as S1.
  pose proof (shl_align_digits M e (fexp prec emax (Zpos (digits2_pos M) + e)))
    as D1.
  pose proof (shl_align_spec M' e'
                (fexp prec emax (Zpos (digits2_pos M') + e'))) as S2.
  pose proof (shl_align_digits M' e'
                (fexp prec emax (Zpos (digits2_pos M') + e'))) as D2.
  assert (A1 : snd (shl_align M e (fexp prec emax (Zpos (digits2_pos M) + e)))
               <= fexp prec emax (Zpos (digits2_pos M) + e)).
  { unfold shl_align.
    destruct (fexp prec emax (Zpos (digits2_pos M) + e) - e) eqn:E;
      cbn [snd]; lia. }
  assert (A2 : snd (shl_align M' e'
                      (fexp prec emax (Zpos (digits2_pos M') + e')))
               <= fexp prec emax (Zpos (digits2_pos M') + e')).
  { unfold shl_align.
    destruct (fexp prec emax (Zpos (digits2_pos M') + e') - e') eqn:E;
      cbn [snd]; lia. }
  destruct (shl_align M e _) as [mz ez].
  destruct (shl_align M' e' _) as [mz' ez'].
  cbn [snd] in A1, A2. destruct S1 as [L1 V1]. destruct S2 as [L2 V2].
  apply binary_round_aux_mono; try lia.
  - cbn [Zdigits2]. rewrite D1. exact A1.
  - cbn [Zdigits2]. rewrite D2. exact A2.
  - set (k := Z.min ez ez').
    apply (val_le_base _ _ _ _ k); [unfold k; lia|unfold k; lia|].
    apply (val_le_base _ _ _ _ k) in Hv; [|unfold k; lia|unfold k; lia].
    rewrite V1, V2.
    rewrite <- !Z.mul_assoc, <- !Z.pow_add_r by (unfold k; lia).
    replace (e - ez + (ez - k)) with (e - k) by lia.
    replace (e' - ez' + (ez' - k)) with (e' - k) by lia.
    exact Hv.
Qed.

(** ** Monotonicity of float multiplication and addition *)

Lemma sfleb_pos a a' : sf_pos a -> SFleb a a' = true -> sf_pos a'.
Proof.
  destruct a as [s|[|]| |[|] m e]; cbn [sf_pos]; try contradiction;
    intros _; destruct a' as [s'|[|]| |[|] m' e']; cbn [sf_pos];
    try exact (fun _ => I); unfold SFleb; simpl; discriminate.
Qed.

Lemma sfleb_infinity x :
  sf_nonneg x -> x <> S754_nan -> SFleb x (S754_infinity false) = true.
Proof.
  destruct x as [s|s| |s m e]; cbn [sf_nonneg]; intros H Hn;
    try congruence; subst; reflexivity.
Qed.

(** On valid positive numbers the float order is the order of values. *)
Lemma sfleb_val m e m' e' :
  valid_binary (S754_finite false m e) = true ->
  valid_binary (S754_finite false m' e') = true ->
  SFleb (S754_finite false m e) (S754_finite false m' e') = true ->
  val_le (Zpos m) e (Zpos m') e'.
Proof.
  intros V V' H. apply valid_finite in V, V'.
  destruct V as [V _]. destruct V' as [V' _].
  unfold SFleb in H. rewrite SFcompare_finite in H.
  destruct (e ?= e') eqn:Ec.
  - apply Z.compare_eq in Ec. subst e'.
    unfold val_le. rewrite Z.min_id, Z.sub_diag, Z.pow_0_r.
    destruct (m ?= m')%positive eqn:Em; try discriminate.
    + apply Pos.compare_eq in Em. subst. lia.
    + rewrite Pos.compare_lt_iff in Em. lia.
  - rewrite Z.compare_lt_iff in Ec.
    unfold val_le. rewrite Z.min_l by lia. rewrite Z.sub_diag, Z.pow_0_r.
    pose proof (digits2_pos_bounds m) as B.
    pose proof (digits2_pos_bounds m') as B'.
    assert (D' : Zpos (digits2_pos m') = 53) by lia.
    assert (D : Zpos (digits2_pos m) <= 53) by lia.
    rewrite D' in B'. change (53 - 1) with 52 in B'.
    assert (P1 : 2 ^ Zpos (digits2_pos m) <= 2 ^ 53)
      by (apply Z.pow_le_mono_r; lia).
    assert (P2 : 2 ^ 1 <= 2 ^ (e' - e)) by (apply Z.pow_le_mono_r; lia).
    change (2 ^ 1) with 2 in P2. change (2 ^ 53) with (2 * 2 ^ 52) in P1.
    nia.
  - discriminate.
Qed.

Lemma mul_aligned s s' ma ea mb eb :
  valid_binary (S754_finite s ma ea) = true ->
  valid_binary (S754_finite s' mb eb) = true ->
  ea + eb <= fexp prec emax (Zdigits2 (Zpos (ma * mb)) + (ea + eb)).
Proof.
  intros V V'. apply valid_finite in V, V'.
  destruct V as [V _]. destruct V' as [V' _].
  rewrite fexp_eq. cbn [Zdigits2].
  pose proof (digits2_pos_mul_ge ma mb) as G.
  pose proof (Pos2Z.is_pos (digits2_pos ma)).
  pose proof (Pos2Z.is_pos (digits2_pos mb)).
  lia.
Qed.

Lemma val_le_mul ma ea ma' ea' mb eb mb' eb' :
  0 <= ma -> 0 <= mb -> 0 <= ma' -> 0 <= mb' ->
  val_le ma ea ma' ea' -> val_le mb eb mb' eb' ->
  val_le (ma * mb) (ea + eb) (ma' * mb') (ea' + eb').
Proof.
  intros Ha Hb Ha' Hb' H1 H2.
  set (ka := Z.min ea ea'). set (kb := Z.min eb eb').
  apply (val_le_base _ _ _ _ (ka + kb)); [unfold ka, kb; lia..|].
  unfold val_le in H1, H2. fold ka in H1. fold kb in H2.
  replace (ea + eb - (ka + kb)) with (ea - ka + (eb - kb)) by lia.
  replace (ea' + eb' - (ka + kb)) with (ea' - ka + (eb' - kb)) by lia.
  rewrite !Z.pow_add_r by (unfold ka, kb; lia).
  assert (0 <= 2 ^ (ea - ka)) by (apply Z.pow_nonneg; lia).
  assert (0 <= 2 ^ (eb - kb)) by (apply Z.pow_nonneg; lia).
  replace (ma * mb * (2 ^ (ea - ka) * 2 ^ (eb - kb)))
    with (ma * 2 ^ (ea - ka) * (mb * 2 ^ (eb - kb))) by ring.
  replace (ma' * mb' * (2 ^ (ea' - ka) * 2 ^ (eb' - kb)))
    with (ma' * 2 ^ (ea' - ka) * (mb' * 2 ^ (eb' - kb))) by ring.
  apply Z.mul_le_mono_nonneg; try assumption;
    apply Z.mul_nonneg_nonneg; assumption.
Qed.

Lemma SFmul_pos_le_infinity a b :
  sf_pos a -> sf_pos b ->
  SFleb (SF64mul a b) (S754_infinity false) = true.
Proof.
  destruct a as [s|[|]| |[|] ma ea]; cbn [sf_pos]; try contradiction;
    intros _; destruct b as [s'|[|]| |[|] mb eb]; cbn [sf_pos];
    try contradiction; intros _; try reflexivity.
  unfold SF64mul, SFmul. cbn [xorb].
  apply sfleb_infinity; [apply binary_round_aux_nonneg|].
  apply binary_round_aux_not_nan. lia.
Qed.

Theorem SFmul_mono a a' b b' :
  valid_binary a = true -> valid_binary a' = true ->
  valid_binary b = true -> valid_binary b' = true ->
  sf_pos a -> sf_pos b ->
  SFleb a a' = true -> SFleb b b' = true ->
  SFleb (SF64mul a b) (SF64mul a' b') = true.
Proof.
  intros Va Va' Vb Vb' Pa Pb La Lb.
  pose proof (sfleb_pos _ _ Pa La) as Pa'.
  pose proof (sfleb_pos _ _ Pb Lb) as Pb'.
  destruct a' as [s|[|]| |[|] ma' ea']; cbn [sf_pos] in Pa';
    try contradiction;
    destruct b' as [s'|[|]| |[|] mb' eb']; cbn [sf_pos] in Pb';
    try contradiction;
    try (change (SF64mul _ _) with (S754_infinity false) at 2;
         apply SFmul_pos_le_infinity; assumption).
  destruct a as [s|[|]| |[|] ma ea]; cbn [sf_pos] in Pa; try contradiction;
    try discriminate La.
  destruct b as [s|[|]| |[|] mb eb]; cbn [sf_pos] in Pb; try contradiction;
    try discriminate Lb.
  unfold SF64mul, SFmul. cbn [xorb].
  apply binary_round_aux_mono; try lia.
  - apply (mul_aligned false false); assumption.
  - apply (mul_aligned false false); assumption.
  - rewrite !Pos2Z.inj_mul.
    apply val_le_mul; try lia; apply sfleb_val; assumption.
Qed.

Lemma SFadd_pos_le_infinity a b :
  sf_pos a -> sf_pos b ->
  SFleb (SF64add a b) (S754_infinity false) = true.
Proof.
  destruct a as [s|[|]| |[|] ma ea]; cbn [sf_pos]; try contradiction;
    intros _; destruct b as [s'|[|]| |[|] mb eb]; cbn [sf_pos];
    try contradiction; intros _; try reflexivity.
  unfold SF64add, SFadd. cbn [cond_Zopp].
  unfold binary_normalize.
  destruct (_ + _) as [|p|p] eqn:E; try lia; try reflexivity.
  unfold binary_round. destruct (shl_align p _ _) as [mz ez].
  apply sfleb_infinity; [apply binary_round_aux_nonneg|].
  apply binary_round_aux_not_nan. lia.
Qed.

Theorem SFadd_mono a a' b b' :
  sf_pos a -> sf_pos b ->
  valid_binary a = true -> valid_binary a' = true ->
  valid_binary b = true -> valid_binary b' = true ->
  SFleb a a' = true -> SFleb b b' = true ->
  SFleb (SF64add a b) (SF64add a' b') = true.
Proof.
  intros Pa Pb Va Va' Vb Vb' La Lb.
  pose proof (sfleb_pos _ _ Pa La) as Pa'.
  pose proof (sfleb_pos _ _ Pb Lb) as Pb'.
  destruct a' as [s|[|]| |[|] ma' ea']; cbn [sf_pos] in Pa';
    try contradiction;
    destruct b' as [s'|[|]| |[|] mb' eb']; cbn [sf_pos] in Pb';
    try contradiction;
    try (change (SF64add _ _) with (S754_infinity false) at 2;
         apply SFadd_pos_le_infinity; assumption).
  destruct a as [s|[|]| |[|] ma ea]; cbn [sf_pos] in Pa; try contradiction;
    try discriminate La.
  destruct b as [s|[|]| |[|] mb eb]; cbn [sf_pos] in Pb; try contradiction;
    try discriminate Lb.
  apply sfleb_val in La; try assumption.
  apply sfleb_val in Lb; try assumption.
  unfold SF64add, SFadd. cbn [cond_Zopp].
  rewrite !shl_align_down by lia.
  set (k := Z.min ea eb). set (k' := Z.min ea' eb').
  assert (Hpa : 0 < Zpos ma * 2 ^ (ea - k))
    by (apply Z.mul_pos_pos; [lia|apply Z.pow_pos_nonneg; unfold k; lia]).
  assert (Hpb : 0 < Zpos mb * 2 ^ (eb - k))
    by (apply Z.mul_pos_pos; [lia|apply Z.pow_pos_nonneg; unfold k; lia]).
  assert (Hpa' : 0 < Zpos ma' * 2 ^ (ea' - k'))
    by (apply Z.mul_pos_pos; [lia|apply Z.pow_pos_nonneg; unfold k'; lia]).
  assert (Hpb' : 0 < Zpos mb' * 2 ^ (eb' - k'))
    by (apply Z.mul_pos_pos; [lia|apply Z.pow_pos_nonneg; unfold k'; lia]).
  destruct (Zpos ma * 2 ^ (ea - k) + Zpos mb * 2 ^ (eb - k))
    as [|S|S] eqn:ES; try lia.
  destruct (Zpos ma' * 2 ^ (ea' - k') + Zpos mb' * 2 ^ (eb' - k'))
    as [|S'|S'] eqn:ES'; try lia.
  cbn [binary_normalize].
  apply binary_round_mono.
  rewrite <- ES, <- ES'.
  set (c := Z.min k k').
  apply (val_le_base _ _ _ _ c); [unfold c; lia..|].
  apply (val_le_base _ _ _ _ c) in La; [|unfold c, k, k'; lia..].
  apply (val_le_base _ _ _ _ c) in Lb; [|unfold c, k, k'; lia..].
  rewrite !Z.mul_add_distr_r.
  rewrite <- !Z.mul_assoc, <- !Z.pow_add_r by (unfold c, k, k'; lia).
  replace (ea - k + (k - c)) with (ea - c) by lia.
  replace (eb - k + (k - c)) with (eb - c) by lia.
  replace (ea' - k' + (k' - c)) with (ea' - c) by lia.
  replace (eb' - k' + (k' - c)) with (eb' - c) by lia.
  lia.
Qed.

(** The same on floats. *)
Lemma mul_mono (a a' b b' : float) :
  positive_float a -> positive_float b ->
  (a <=? a')%float = true -> (b <=? b')%float = true ->
  (a * b <=? a' * b')%float = true.
Proof.
  unfold positive_float. rewrite !leb_spec, !mul_spec. intros.
  apply SFmul_mono; auto using Prim2SF_valid.
Qed.

Lemma add_mono (a a' b b' : float) :
  positive_float a -> positive_float b ->
  (a <=? a')%float = true -> (b <=? b')%float = true ->
  (a + b <=? a' + b')%float = true.
Proof.
  unfold positive_float. rewrite !leb_spec, !add_spec. intros.
  apply SFadd_mono; auto using Prim2SF_valid.
Qed.

Lemma leb_positive (a a' : float) :
  positive_float a -> (a <=? a')%float = true -> positive_float a'.
Proof.
  unfold positive_float. rewrite leb_spec. apply sfleb_pos.
Qed.

(** * The internal period: rate limit and range *)

Lemma SFadd_nonneg x y :
  sf_nonneg x -> sf_nonneg y -> sf_nonneg (SF64add x y).
Proof.
  destruct x as [s|s| |s mx ex]; destruct y as [s'|s'| |s' my ey];
    cbn [sf_nonneg]; intros; subst; unfold SF64add, SFadd;
    cbn [sf_nonneg]; auto; try (destruct s, s'; exact I).
  cbn [cond_Zopp]. unfold binary_normalize.
  destruct (_ + _) as [|p|p] eqn:E; try lia.
  unfold binary_round. destruct (shl_align p _ _) as [mz ez].
  apply binary_round_aux_nonneg.
Qed.

Lemma mul_number (a b : float) :
  is_number (a * b) = true -> is_number a = true /\ is_number b = true.
Proof.
  rewrite !is_number_spec, mul_spec.
  destruct (Prim2SF a) as [s|s| |s m e]; destruct (Prim2SF b) as [s'|s'| |s' m' e'];
    unfold SF64mul, SFmul; intros H; split; congruence.
Qed.

Lemma add_number (a b : float) :
  is_number (a + b) = true -> is_number a = true /\ is_number b = true.
Proof.
  rewrite !is_number_spec, add_spec.
  destruct (Prim2SF a) as [s|s| |s m e]; destruct (Prim2SF b) as [s'|s'| |s' m' e'];
    unfold SF64add, SFadd; intros H; split; congruence.
Qed.

Lemma py_min_number (a b : float) :
  is_number (py_min a b) = true -> is_number a = true.
Proof.
  unfold py_min. destruct (b <? a)%float eqn:E; [|auto].
  intros _. apply (ltb_is_number _ _ E).
Qed.

Lemma py_max_number (a b : float) :
  is_number (py_max a b) = true -> is_number a = true.
Proof.
  unfold py_max. destruct (a <? b)%float eqn:E; [|auto].
  intros _. apply (ltb_is_number _ _ E).
Qed.

(** A re-estimated period that is a number comes from an old period and a
    clamped candidate that are numbers. *)
Lemma t0_next_number cfg t0 c :
  is_number (t0_next cfg t0 c) = true ->
  is_number t0 = true /\ is_number (clamp_period cfg c) = true
  /\ is_number c = true.
Proof.
  unfold t0_next. cbv zeta. intros H.
  apply py_min_number, py_max_number, add_number in H.
  destruct H as [H1 H2].
  apply mul_number in H1. apply mul_number in H2.
  destruct H1 as [_ H1]. destruct H2 as [_ H2].
  split; [exact H1|]. split; [exact H2|].
  unfold clamp_period in H2.
  apply py_min_number, py_max_number in H2. exact H2.
Qed.

(** A number that is not negative lies between its two rate bounds. *)
Lemma rate_bounds_around (x : float) :
  sf_nonneg (Prim2SF x) -> is_number x = true ->
  (x * 0.90 <=? x)%float = true /\ (x <=? x * 1.10)%float = true.
Proof.
  intros Hnn Hn.
  destruct (Prim2SF x) as [s|s| |s m e] eqn:E; cbn [sf_nonneg] in Hnn.
  - rewrite !leb_spec, !mul_spec, E. split; reflexivity.
  - subst s. rewrite !leb_spec, !mul_spec, E. split; reflexivity.
  - apply is_number_spec in Hn. congruence.
  - subst s.
    assert (Px : positive_float x) by (unfold positive_float; rewrite E; exact I).
    split.
    + rewrite <- (mul_one_r x) at 2.
      apply mul_mono; [exact Px|exact I|apply leb_refl; exact Hn|reflexivity].
    + rewrite <- (mul_one_r x) at 1.
      apply mul_mono; [exact Px|exact I|apply leb_refl; exact Hn|reflexivity].
Qed.

Lemma clamp_period_nonneg cfg c :
  positive_float (theta_min_s cfg) -> positive_float (theta_max_s cfg) ->
  sf_nonneg (Prim2SF (clamp_period cfg c)).
Proof.
  unfold positive_float, clamp_period, py_min, py_max.
  intros Hmin Hmax.
  assert (Hmn : sf_nonneg (Prim2SF (theta_min_s cfg))).
  { destruct (Prim2SF (theta_min_s cfg)) as [s|[|]| |[|] m e];
      cbn [sf_pos] in Hmin; try contradiction; reflexivity. }
  assert (Hmx : sf_nonneg (Prim2SF (theta_max_s cfg))).
  { destruct (Prim2SF (theta_max_s cfg)) as [s|[|]| |[|] m e];
      cbn [sf_pos] in Hmax; try contradiction; reflexivity. }
  assert (Hc : (c <? theta_min_s cfg)%float = false -> sf_nonneg (Prim2SF c)).
  { rewrite ltb_spec. unfold SFltb.
    destruct (Prim2SF (theta_min_s cfg)) as [s|[|]| |[|] m e];
      cbn [sf_pos] in Hmin; try contradiction;
      destruct (Prim2SF c) as [s'|[|]| |[|] m' e']; simpl;
      intros H; try discriminate; try reflexivity; exact I. }
  destruct (c <? theta_min_s cfg)%float eqn:E1.
  - destruct (theta_max_s cfg <? theta_min_s cfg)%float; assumption.
  - destruct (theta_max_s cfg <? c)%float; auto.
Qed.

Lemma t0_next_nonneg cfg t0 c :
  positive_float (theta_min_s cfg) -> positive_float (theta_max_s cfg) ->
  sf_nonneg (Prim2SF t0) -> sf_nonneg (Prim2SF (t0_next cfg t0 c)).
Proof.
  intros Hmin Hmax H0. unfold t0_next. cbv zeta.
  pose proof (clamp_period_nonneg cfg c Hmin Hmax) as Hc.
  assert (Hema : sf_nonneg (Prim2SF ((1 - 0.2) * t0
                                     + 0.2 * clamp_period cfg c)%float)).
  { rewrite add_spec, !mul_spec.
    apply SFadd_nonneg; apply SFmul_nonneg; auto; reflexivity. }
  assert (Hdn : sf_nonneg (Prim2SF (t0 * 0.90)%float))
    by (rewrite mul_spec; apply SFmul_nonneg; auto; reflexivity).
  assert (Hup : sf_nonneg (Prim2SF (t0 * 1.10)%float))
    by (rewrite mul_spec; apply SFmul_nonneg; auto; reflexivity).
  unfold py_min, py_max.
  repeat match goal with
         | |- context [if ?b then _ else _] => destruct b
         end; assumption.
Qed.

(** The configured range after the constructor: both endpoints are
    positive, the lower one at least 1e-3. *)
Lemma init_config_range_positive args :
  positive_float (theta_min_s (init_config args))
  /\ positive_float (theta_max_s (init_config args))
  /\ (1e-3 <=? theta_min_s (init_config args))%float = true.
Proof.
  simpl.
  assert (H : (1e-3 <=? py_max 1e-3 (theta_min_s args))%float = true)
    by (apply py_max_floor; reflexivity).
  assert (P : positive_float (py_max 1e-3 (theta_min_s args)))
    by (apply (leb_positive 1e-3); [exact I|exact H]).
  split; [exact P|]. split; [|exact H].
  apply (leb_positive (py_max 1e-3 (theta_min_s args))); [exact P|].
  apply py_max_floor. apply (leb_is_number _ _ H).
Qed.

(** One re-estimation keeps the period inside a stable range. *)
Lemma t0_next_in_range cfg t0 c :
  period_range_stable cfg ->
  (1e-3 <=? theta_min_s cfg)%float = true ->
  (theta_min_s cfg <=? t0)%float = true ->
  (t0 <=? theta_max_s cfg)%float = true ->
  is_number c = true ->
  (theta_min_s cfg <=? t0_next cfg t0 c)%float = true
  /\ (t0_next cfg t0 c <=? theta_max_s cfg)%float = true.
Proof.
  intros (Hlo & Hhi & Slo & Shi) Hfloor Hmin Hmax Hncand.
  assert (Hn0 : is_number t0 = true) by apply (leb_is_number _ _ Hmin).
  set (mn := theta_min_s cfg) in *. set (mx := theta_max_s cfg) in *.
  assert (Hord : (mn <=? mx)%float = true) by (eapply leb_trans; eauto).
  destruct (clamp_period_in_range cfg c Hord Hncand) as [Cmin Cmax].
  fold mn mx in Cmin, Cmax.
  set (cand := clamp_period cfg c) in *.
  assert (Pfloor : positive_float 1e-3) by exact I.
  assert (Pmn : positive_float mn)
    by (apply (leb_positive 1e-3); assumption).
  assert (Pt0 : positive_float t0) by (apply (leb_positive mn); assumption).
  assert (Pcand : positive_float cand)
    by (apply (leb_positive mn); assumption).
  assert (P8 : positive_float (1 - 0.2)) by exact I.
  assert (P2 : positive_float 0.2) by exact I.
  assert (R8 : ((1 - 0.2) <=? (1 - 0.2))%float = true) by reflexivity.
  assert (R2 : (0.2 <=? 0.2)%float = true) by reflexivity.
  (* the products are positive *)
  assert (F8 : positive_float ((1 - 0.2) * mn))
    by (apply (leb_positive ((1 - 0.2) * 1e-3));
        [exact I|apply mul_mono; auto]).
  assert (F2 : positive_float (0.2 * mn))
    by (apply (leb_positive (0.2 * 1e-3));
        [exact I|apply mul_mono; auto]).
  assert (L8 : ((1 - 0.2) * mn <=? (1 - 0.2) * t0)%float = true)
    by (apply mul_mono; auto).
  assert (L2 : (0.2 * mn <=? 0.2 * cand)%float = true)
    by (apply mul_mono; auto).
  assert (U8 : ((1 - 0.2) * t0 <=? (1 - 0.2) * mx)%float = true)
    by (apply mul_mono; auto).
  assert (U2 : (0.2 * cand <=? 0.2 * mx)%float = true)
    by (apply mul_mono; auto).
  assert (G8 : positive_float ((1 - 0.2) * t0))
    by (apply (leb_positive ((1 - 0.2) * mn)); assumption).
  assert (G2 : positive_float (0.2 * cand))
    by (apply (leb_positive (0.2 * mn)); assumption).
  set (ema := ((1 - 0.2) * t0 + 0.2 * cand)%float).
  assert (Elo : (mn <=? ema)%float = true).
  { eapply leb_trans; [exact Slo|]. apply add_mono; auto. }
  assert (Ehi : (ema <=? mx)%float = true).
  { eapply leb_trans; [|exact Shi]. apply add_mono; auto. }
  assert (Hnn : sf_nonneg (Prim2SF t0)).
  { unfold positive_float in Pt0.
    destruct (Prim2SF t0) as [s|[|]| |[|] m e]; cbn [sf_pos] in Pt0;
      try contradiction; reflexivity. }
  destruct (rate_bounds_around t0 Hnn Hn0) as [Rdn Rup].
  unfold t0_next. cbv zeta. fold cand. fold ema.
  unfold py_min, py_max.
  destruct (ema <? t0 * 0.90)%float eqn:E1.
  - destruct (t0 * 1.10 <? t0 * 0.90)%float eqn:E2.
    + split; [exact (leb_trans _ _ _ Hmin Rup)|].
      exact (leb_trans _ _ _ (ltb_leb _ _ E2) (leb_trans _ _ _ Rdn Hmax)).
    + split; [exact (leb_trans _ _ _ Elo (ltb_leb _ _ E1))|].
      exact (leb_trans _ _ _ Rdn Hmax).
  - destruct (t0 * 1.10 <? ema)%float eqn:E2.
    + split; [exact (leb_trans _ _ _ Hmin Rup)|].
      exact (leb_trans _ _ _ (ltb_leb _ _ E2) Ehi).
    + split; assumption.
Qed.


(** ** The candidate period is a number *)

Lemma Z2float_lag_finite (k : Z) :
  1 <= k <= 256 ->
  exists m e, Prim2SF (Z2float k) = S754_finite false m e.
Proof.
  intros Hk.
  assert (H : forallb
                (fun n => match Prim2SF (Z2float (Z.of_nat n)) with
                          | S754_finite false _ _ => true
                          | _ => false
                          end) (seq 1 256) = true)
    by (vm_compute; reflexivity).
  pose proof (forallb_seq _ 1 256 (Z.to_nat k) H ltac:(lia)) as Hf.
  cbv beta in Hf. rewrite Z2Nat.id in Hf by lia.
  destruct (Prim2SF (Z2float k)) as [s|s| |[|] m e]; try discriminate.
  eauto.
Qed.

Lemma mul_finite_number (a b : float) s m e :
  Prim2SF a = S754_finite s m e ->
  is_number b = true -> is_number (a * b) = true.
Proof.
  intros Ha. rewrite !is_number_spec, mul_spec, Ha.
  destruct (Prim2SF b) as [s'|s'| |s' m' e']; unfold SF64mul, SFmul;
    intros H; try congruence.
  apply binary_round_aux_not_nan. lia.
Qed.

Lemma div_number (a b : float) :
  is_number (a / b) = true -> is_number a = true /\ is_number b = true.
Proof.
  rewrite !is_number_spec, div_spec.
  destruct (Prim2SF a) as [s|s| |s m e];
    destruct (Prim2SF b) as [s'|s'| |s' m' e'];
    unfold SF64div, SFdiv; intros H; split; congruence.
Qed.

Lemma py_int_Ok_number (x : float) z : py_int x = Ok z -> is_number x = true.
Proof.
  unfold py_int. rewrite is_number_spec.
  destruct (Prim2SF x); intros H; try discriminate H; discriminate.
Qed.

Lemma positive_number (x : float) : positive_float x -> is_number x = true.
Proof.
  unfold positive_float. rewrite is_number_spec.
  destruct (Prim2SF x); cbn [sf_pos]; try contradiction; discriminate.
Qed.

Lemma finite_number (x : float) : finite_float x -> is_number x = true.
Proof.
  unfold finite_float. rewrite is_number_spec.
  destruct (Prim2SF x); cbn [sf_finite]; try contradiction; discriminate.
Qed.

(** The crude RC estimate [10.0 / avg_dTdt] is finite when it is taken. *)
Lemma rc_estimate_finite (avg : float) :
  (1e-6 <? avg)%float = true -> finite_float (10 / avg).
Proof.
  intros H. pose proof (ltb_asym _ _ H) as Hge.
  rewrite ltb_spec in H, Hge.
  unfold finite_float. rewrite div_spec.
  pose proof (Prim2SF_valid avg) as Va.
  destruct (not_below_big (Prim2SF avg) 4722366482869645 (-72) Va eq_refl Hge)
    as [Hbig Hnn].
  change (Zpos (digits2_pos 4722366482869645) + -72) with (-19) in Hbig.
  destruct (Prim2SF avg) as [s|s| |s m e] eqn:E.
  - discriminate H.
  - cbn [sf_nonneg] in Hnn. subst s. exact I.
  - discriminate H.
  - apply (small_finite 25).
    + apply (SFdiv_small 4 (-19)); try lia; [|exact Hbig].
      vm_compute. discriminate.
    + apply SFdiv_not_nan; [exact I|exact I|discriminate].
Qed.

(** The clamp of a finite candidate between a positive finite minimum
    and a positive maximum is positive and finite. *)
Lemma clamp_positive_finite (rc mn mx : float) :
  positive_float mn -> finite_float mn -> positive_float mx ->
  finite_float rc ->
  positive_float (py_min (py_max rc mn) mx)
  /\ finite_float (py_min (py_max rc mn) mx).
Proof.
  unfold positive_float, finite_float, py_min, py_max.
  intros Pmn Fmn Pmx Frc.
  assert (HX : sf_pos (Prim2SF (if (rc <? mn)%float then mn else rc))
               /\ sf_finite (Prim2SF (if (rc <? mn)%float then mn else rc))).
  { destruct (rc <? mn)%float eqn:E; [split; assumption|].
    split; [|exact Frc].
    rewrite ltb_spec in E. unfold SFltb in E.
    destruct (Prim2SF mn) as [s|[|]| |[|] m e]; cbn [sf_pos sf_finite] in *;
      try contradiction;
      destruct (Prim2SF rc) as [s'|[|]| |[|] m' e'];
      cbn [sf_pos sf_finite] in *; try contradiction; try exact I;
      simpl in E; discriminate. }
  set (X := if (rc <? mn)%float then mn else rc) in *.
  destruct HX as [PX FX].
  destruct (mx <? X)%float eqn:E; [|split; assumption].
  split; [exact Pmx|].
  rewrite ltb_spec in E. unfold SFltb in E.
  destruct (Prim2SF mx) as [s|[|]| |[|] m e]; cbn [sf_pos sf_finite] in *;
    try contradiction; try exact I.
  destruct (Prim2SF X) as [s'|[|]| |[|] m' e'];
    cbn [sf_pos sf_finite] in *; try contradiction; simpl in E; discriminate.
Qed.

Lemma positive_finite_shape (x : float) :
  positive_float x -> finite_float x ->
  exists m e, Prim2SF x = S754_finite false m e.
Proof.
  unfold positive_float, finite_float.
  destruct (Prim2SF x) as [s|[|]| |[|] m e]; cbn [sf_pos sf_finite];
    try contradiction; eauto.
Qed.

Section Period.

Context {lib : PyLib}.

(** A call changes the period only through a re-estimation, on a state
    that still holds the old period. *)
Lemma _theta_update_source cfg sm t d st u st' :
  _theta_update_if_needed cfg sm t d st = Ok (u, st') ->
  _t0_s st' = _t0_s st
  \/ exists self,
       _t0_s self = _t0_s st /\ reestimate_t0 cfg self = Ok (_t0_s st').
Proof.
  unfold _theta_update_if_needed. intros H.
  destruct (enable_theta_clock cfg); simpl in H; minv; [|left; reflexivity].
  destruct t; minv;
    match goal with
    | H : (if ?c then _ else _) _ = _ |- _ => destruct c
    end; minv; try (left; reflexivity);
    match goal with
    | H : match ?l with [] => _ | _ => _ end _ = _ |- _ =>
        destruct l eqn:Hl
    end; minv; try (left; reflexivity);
    right; eexists; (split; [|simpl; eassumption]); reflexivity.
Qed.

Lemma call_t0_source cfg x st r st' :
  call cfg x st = Ok (r, st') ->
  _t0_s st' = _t0_s st
  \/ exists self,
       _t0_s self = _t0_s st /\ reestimate_t0 cfg self = Ok (_t0_s st').
Proof.
  unfold call. intros H.
  apply compute_rle_inv in H.
  destruct H as (eta & sA & n_smooth & sB & sC & dtheta & sD & Hcc & _ & Hsm
                 & Hup & Hadv & _ & _ & _ & _ & _ & _ & _ & _ & Hdc & _).
  apply compute_components_state in Hcc.
  apply _smooth_rle_state in Hsm. destruct Hsm as [HsB _].
  apply _theta_update_source in Hup.
  apply theta_advance_state in Hadv.
  destruct Hadv as (_ & _ & _ & _ & _ & _ & _ & A & _).
  apply _detect_collapse_state in Hdc.
  destruct Hdc as (_ & _ & _ & _ & _ & D & _).
  simpl in D. rewrite D, A.
  assert (HB : _t0_s sB = _t0_s st).
  { subst sB sA. destruct (temp_c x); reflexivity. }
  rewrite HB in Hup. exact Hup.
Qed.

Hypothesis Hpown : pow_half_number.

(** The period re-estimation returns [t0_next] of a candidate that is a
    number whenever the old period is one. *)
Lemma reestimate_t0_candidate cfg self t :
  positive_float (theta_min_s cfg) -> finite_float (theta_min_s cfg) ->
  positive_float (theta_max_s cfg) ->
  reestimate_t0 cfg self = Ok t ->
  exists c,
    t = t0_next cfg (_t0_s self) c
    /\ (is_number (_t0_s self) = true -> is_number c = true).
Proof.
  intros Pmn Fmn Pmx. unfold reestimate_t0. intros H.
  apply rbind_Ok in H. destruct H as (dt_mean & Hdm & H).
  apply rbind_Ok in H. destruct H as (tau & Htau & H).
  apply rbind_Ok in H. destruct H as (tau_eff & Heff & H).
  apply rbind_Ok in H. destruct H as (T_peak & Hpeak & H).
  apply rbind_Ok in H. destruct H as (cand & Hcand & H).
  injection H as <-. eexists. split; [reflexivity|]. intros Hn0.
  (* the thermal time constant is positive and finite *)
  assert (Htau_ok : match tau with
                    | Some v => positive_float v /\ finite_float v
                    | None => True
                    end).
  { destruct (len (_buf_temp self) >=? 8); [|injection Htau as <-; exact I].
    apply rbind_Ok in Htau. destruct Htau as (derivs & _ & Htau).
    apply rbind_Ok in Htau. destruct Htau as (avg & _ & Htau).
    destruct (1e-6 <? avg)%float eqn:Eavg; [|injection Htau as <-; exact I].
    apply rbind_Ok in Htau. destruct Htau as (rc & Hrc & Htau).
    injection Htau as <-.
    apply fdiv_Ok in Hrc. destruct Hrc as [_ ->].
    apply clamp_positive_finite; auto. apply rc_estimate_finite. exact Eavg. }
  assert (Heff_ok : match tau_eff with
                    | Some v => positive_float v /\ finite_float v
                    | None => True
                    end).
  { unfold _harmonic_mean in Heff.
    destruct tau as [v|]; simpl in Heff; injection Heff as <-; [|exact I].
    destruct (truthy v); [exact Htau_ok|exact I]. }
  (* a peak period is a number *)
  assert (Hpeak_ok : match T_peak with
                     | Some v => is_number v = true
                     | None => True
                     end).
  { destruct (len (_buf_rle_sm self) >=? 32); [|injection Hpeak as <-; exact I].
    apply rbind_Ok in Hpeak. destruct Hpeak as (mean & _ & Hpeak).
    apply rbind_Ok in Hpeak. destruct Hpeak as (var & _ & Hpeak).
    destruct (0 <? var)%float; [|injection Hpeak as <-; exact I].
    apply rbind_Ok in Hpeak. destruct Hpeak as (q & Hq & Hpeak).
    apply rbind_Ok in Hpeak. destruct Hpeak as (i & Hi & Hpeak).
    apply rbind_Ok in Hpeak. destruct Hpeak as (best & Hbest & Hpeak).
    destruct (foldM_autocorr_lag _ _ _ _ _ Hbest) as [E|(k & Hin & E)];
      rewrite E in Hpeak; simpl in Hpeak.
    - injection Hpeak as <-. exact I.
    - destruct (0.3 <=? snd best)%float; injection Hpeak as <-; [|exact I].
      apply in_py_range in Hin.
      destruct (Z2float_lag_finite k ltac:(lia)) as (mk & ek & Hk).
      apply (mul_finite_number _ _ _ _ _ Hk).
      apply py_int_Ok_number in Hi.
      apply fdiv_Ok in Hq. destruct Hq as [_ ->].
      apply div_number in Hi. destruct Hi as [_ Hi].
      apply py_max_number in Hi. exact Hi. }
  (* the candidate *)
  destruct tau_eff as [te|].
  - destruct Heff_ok as [Pte Fte].
    destruct (positive_finite_shape te Pte Fte) as (mte & ete & Hte).
    assert (Htp : match (match T_peak with
                         | Some _ => T_peak
                         | None => Some te
                         end) with
                  | Some tp => is_number tp = true
                  | None => True
                  end).
    { destruct T_peak; [exact Hpeak_ok|apply positive_number; exact Pte]. }
    destruct (match T_peak with Some _ => T_peak | None => Some te end)
      as [tp|].
    + apply rbind_Ok in Hcand. destruct Hcand as (r & Hr & Hcand).
      injection Hcand as <-.
      apply (Hpown _ _) in Hr; [exact Hr|].
      rewrite is_number_spec, mul_spec, Hte.
      apply is_number_spec in Htp.
      destruct (Prim2SF tp) as [s'|s'| |s' m' e']; unfold SF64mul, SFmul;
        try congruence.
      apply binary_round_aux_not_nan. lia.
    + injection Hcand as <-. apply positive_number. exact Pte.
  - injection Hcand as <-.
    destruct T_peak as [tp|]; [exact Hpeak_ok|exact Hn0].
Qed.

Lemma leb_finite (a b : float) :
  positive_float a -> (a <=? b)%float = true -> finite_float b ->
  finite_float a.
Proof.
  unfold positive_float, finite_float. rewrite leb_spec. unfold SFleb.
  destruct (Prim2SF a) as [s|[|]| |[|] m e]; cbn [sf_pos sf_finite];
    try contradiction; try (intros; exact I).
  destruct (Prim2SF b) as [s'|[|]| |[|] m' e']; cbn [sf_finite];
    simpl; intros; try contradiction; discriminate.
Qed.

(** One call keeps the period inside a stable range. *)
Lemma call_keeps_range cfg x st r st' :
  positive_float (theta_min_s cfg) -> positive_float (theta_max_s cfg) ->
  (1e-3 <=? theta_min_s cfg)%float = true ->
  period_range_stable cfg ->
  (theta_min_s cfg <=? _t0_s st)%float = true ->
  (_t0_s st <=? theta_max_s cfg)%float = true ->
  call cfg x st = Ok (r, st') ->
  (theta_min_s cfg <=? _t0_s st')%float = true
  /\ (_t0_s st' <=? theta_max_s cfg)%float = true.
Proof.
  intros Pmn Pmx Hfloor Hst Hlo Hhi Hc.
  apply call_t0_source in Hc.
  destruct Hc as [Hc|(self & Hself & Hre)]; [rewrite Hc; auto|].
  assert (Fmn : finite_float (theta_min_s cfg)).
  { destruct Hst as (H60 & _). apply (leb_finite _ 60); auto. exact I. }
  destruct (reestimate_t0_candidate cfg self _ Pmn Fmn Pmx Hre)
    as (c & Hc & Hnum).
  rewrite Hc, Hself.
  apply t0_next_in_range; auto.
  apply Hnum. rewrite Hself. apply (leb_is_number _ _ Hlo).
Qed.

(** In every session on a stable range the period is inside the range
    before and after every call. *)
Lemma period_range_trace args samples tr :
  period_range_stable (init_config args) ->
  session args samples = Ok tr ->
  forall k r st,
    nth_error tr k = Some (r, st) ->
    let cfg := init_config args in
    (theta_min_s cfg <=? _t0_s st)%float = true
    /\ (_t0_s st <=? theta_max_s cfg)%float = true.
Proof.
  intros Hst Hs k r st Hk cfg.
  apply session_inv in Hs. destruct Hs as (stf & Hrun).
  destruct (init_config_range_positive args) as (Pmin & Pmax & Hfloor).
  fold cfg in Pmin, Pmax, Hfloor, Hst.
  apply (trace_inv
           (fun _ _ s =>
              (theta_min_s cfg <=? _t0_s s)%float = true
              /\ (_t0_s s <=? theta_max_s cfg)%float = true) cfg)
    with (samples := samples) (st0 := init_state) (tr := tr) (stf := stf)
         (k := k) (r := r); auto.
  - intros fed outs s x r' s' [Hlo Hhi] Hc.
    eapply call_keeps_range; eauto.
  - destruct Hst as (Hlo & Hhi & _). split; assumption.
Qed.

End Period.

(** Over a session the period is never negative: it is NaN, a zero, a
    positive number or the positive infinity. *)
Lemma period_nonneg_trace {lib : PyLib} args samples tr :
  session args samples = Ok tr ->
  forall k r st,
    nth_error tr k = Some (r, st) ->
    sf_nonneg (Prim2SF (_t0_s (state_before init_state tr k))).
Proof.
  intros Hs k r st Hk.
  apply session_inv in Hs. destruct Hs as (stf & Hrun).
  destruct (init_config_range_positive args) as (Pmin & Pmax & _).
  destruct (trace_entry
              (fun _ _ s => sf_nonneg (Prim2SF (_t0_s s))) (init_config args))
    with (samples := samples) (st0 := init_state) (tr := tr) (stf := stf)
         (k := k) (r := r) (st := st) as (x & Hx & HI & Hc); auto.
  - intros fed outs s x r' s' Hnn Hc.
    apply call_t0 in Hc. destruct Hc as [Hc|(c & Hc)]; rewrite Hc.
    + exact Hnn.
    + apply t0_next_nonneg; assumption.
  - reflexivity.
Qed.

(** C4 (amended).  A call either leaves the internal period alone or
    re-estimates it as [t0_next]: the candidate clamped into
    [[theta_min_s, theta_max_s]], smoothed against the old period, and
    the result limited to [[0.90 * old, 1.10 * old]].  For every
    configuration, at every call of every session, a period that is a
    number lies between 0.90 and 1.10 times the period before the call
    (the products as computed in binary64).  The period starts at 60 s
    whatever the configured range; when the range contains 60 and the
    smoothing step reproduces its endpoints ([period_range_stable], which
    holds for the default range of 5 s to 600 s), and the square root of
    a number is a number, the period lies in
    [[theta_min_s, theta_max_s]] after every call. *)
Theorem C4_period_rate_limited {lib : PyLib} args samples tr :
  session args samples = Ok tr ->
  forall k r st,
    nth_error tr k = Some (r, st) ->
    let cfg := init_config args in
    let old := _t0_s (state_before init_state tr k) in
    (_t0_s st = old \/ exists c, _t0_s st = t0_next cfg old c)
    /\ (is_number (_t0_s st) = true ->
        (old * 0.90 <=? _t0_s st)%float = true
        /\ (_t0_s st <=? old * 1.10)%float = true)
    /\ (period_range_stable cfg -> pow_half_number ->
        (theta_min_s cfg <=? _t0_s st)%float = true
        /\ (_t0_s st <=? theta_max_s cfg)%float = true).
Proof.
  intros Hs k r st Hk cfg old.
  pose proof (period_nonneg_trace args samples tr Hs k r st Hk) as Hnn.
  fold old in Hnn.
  assert (Hstep : _t0_s st = old \/ exists c, _t0_s st = t0_next cfg old c).
  { destruct (session_inv _ _ _ Hs) as (stf & Hrun).
    destruct (trace_entry (fun _ _ _ => True) cfg) with
      (samples := samples) (st0 := init_state) (tr := tr) (stf := stf)
      (k := k) (r := r) (st := st) as (x & Hx & _ & Hc); auto.
    apply call_t0 in Hc. exact Hc. }
  split; [exact Hstep|]. split.
  - intros Hnum. destruct Hstep as [Hc|(c & Hc)].
    + rewrite Hc in *. apply rate_bounds_around; assumption.
    + rewrite Hc in *.
      destruct (t0_next_number _ _ _ Hnum) as (Hn0 & _).
      destruct (rate_bounds_around old Hnn Hn0) as [Rdn Rup].
      apply t0_next_bounds; [exact (leb_trans _ _ _ Rdn Rup)|exact Hnum].
  - intros Hst Hpown.
    exact (period_range_trace Hpown args samples tr Hst Hs k r st Hk).
Qed.

(** ** The rolling mean: its only exception *)

Lemma binary_round_finite s (M : positive) e :
  Zpos (digits2_pos M) + e <= 1023 ->
  sf_finite (binary_round prec emax s M e).
Proof.
  intros Hd. unfold binary_round.
  pose proof (shl_align_spec M e (fexp prec emax (Zpos (digits2_pos M) + e)))
    as S1.
  pose proof (shl_align_digits M e (fexp prec emax (Zpos (digits2_pos M) + e)))
    as D1.
  assert (A1 : snd (shl_align M e (fexp prec emax (Zpos (digits2_pos M) + e)))
               <= fexp prec emax (Zpos (digits2_pos M) + e)).
  { unfold shl_align.
    destruct (fexp prec emax (Zpos (digits2_pos M) + e) - e) eqn:E;
      cbn [snd]; lia. }
  destruct (shl_align M e _) as [mz ez]. cbn [snd] in A1.
  assert (Hal : ez <= fexp prec emax (Zdigits2 (Zpos mz) + ez))
    by (cbn [Zdigits2]; rewrite D1; exact A1).
  rewrite (binary_round_aux_closed s (Zpos mz) ez ltac:(lia) Hal).
  pose proof (round_shift_range (Zpos mz) ez ltac:(lia) Hal) as Hr.
  cbn [Zdigits2] in *. rewrite D1 in *. rewrite !fexp_eq in *.
  set (E := Z.max (Zpos (digits2_pos M) + e - 53) (-1074)) in *.
  rewrite (round_finish_cases s _ E Hr) by (unfold E; lia).
  assert (HE : E + 1 <= 971) by (unfold E; lia).
  unfold round_out. change (emax - prec) with 971.
  destruct (_ =? 2 ^ 53).
  - change (2 ^ 52) with (Zpos (2 ^ 52)).
    replace (E + 1 <=? 971) with true by (symmetry; apply Z.leb_le; lia).
    exact I.
  - destruct (round_shift (Zpos mz) (E - ez)) as [|p|p]; try lia; [exact I|].
    replace (E <=? 971) with true by (symmetry; apply Z.leb_le; lia).
    exact I.
Qed.

(** [float(n)] of an int below 2^1023 in magnitude is finite: the
    conversion does not overflow. *)
Lemma Z2float_finite (n : Z) : Z.abs n < 2 ^ 1023 -> finite_float (Z2float n).
Proof.
  intros Hn. unfold finite_float. rewrite Prim2SF_Z2float.
  destruct n as [|p|p]; [exact I| |]; cbn [binary_normalize];
    apply binary_round_finite;
    (assert (Hd : Zpos (digits2_pos p) <= 1023)
       by (apply digits_le_of_lt; [lia|]; lia)); lia.
Qed.

(** For every window [n] below 2^1023 in magnitude (beyond the binary64
    range [float(n)] itself raises), where the conversion is finite:
    [_rolling_mean] of an empty history is 0.0, and the function raises
    in exactly one case, a window of 0 on a non-empty history, where
    [data[-0:]] is the whole list and the division by [float(0)] raises
    [ZeroDivisionError].  Every other such window, negative ones
    included, returns. *)
Theorem _rolling_mean_raises_iff (data : list float) (n : Z) (e : exn) :
  Z.abs n < 2 ^ 1023 ->
  finite_float (Z2float n)
  /\ _rolling_mean [] n = Ok 0%float
  /\ (_rolling_mean data n = Raise e
      <-> data <> [] /\ n = 0 /\ e = ZeroDivisionError).
Proof.
  intros Hn. split; [apply Z2float_finite; exact Hn|].
  split; [reflexivity|]. unfold _rolling_mean.
  destruct data as [|a l].
  - split; [discriminate|]. intros (H & _). congruence.
  - pose proof (len_cons_pos a l) as Hl.
    destruct (len (a :: l) <=? n) eqn:E.
    + apply Z.leb_le in E.
      rewrite fdiv_nonzero by (apply Z2float_nonzero; exact Hl).
      split; [discriminate|]. intros (_ & Hn0 & _). lia.
    + destruct (Z.eq_dec n 0) as [->|Hn0].
      * split.
        -- intros H. change (fdiv (py_sum (slice_from (- 0) (a :: l)))
                                  (Z2float 0))
             with (@Raise float ZeroDivisionError) in H.
           inversion H. repeat split. discriminate.
        -- intros (_ & _ & ->). reflexivity.
      * rewrite fdiv_nonzero by (apply Z2float_nonzero_all; exact Hn0).
        split; [discriminate|]. intros (_ & Hn1 & _). contradiction.
Qed.

(** ** Concrete runs of the further properties *)


(** The collapse of [collapse_samples] is reported by the fourteenth
    call, not before the eleventh. *)
Lemma collapse_not_before_hysteresis_witness :
  match session (lib := float_lib) default_args collapse_samples with
  | Ok tr =>
      match nth_error tr 13 with
      | Some (r, st) => RLEResult.collapse r = 1 /\ 5 + 7 - 1 <= 13 + 1
      | None => False
      end
  | Raise _ => False
  end.
Proof.
  destruct (session (lib := float_lib) default_args collapse_samples)
    as [tr|e] eqn:E.
  - destruct (nth_error tr 13) as [[r st]|] eqn:Hk.
    + pose proof (collapse_not_before_hysteresis (lib := float_lib)
                    default_args _ tr eq_refl E 13 r st Hk) as H.
      run_session E. vm_compute in Hk. inversion Hk; subst r st; clear Hk.
      split; [reflexivity|]. exact (proj2 (H eq_refl)).
    + run_session E. discriminate Hk.
  - run_session E.
Defined.

Lemma collapse_needs_gate_drop_evidence_witness :
  match session (lib := float_lib) default_args collapse_samples with
  | Ok tr =>
      match nth_error tr 13 with
      | Some (r, st) =>
          RLEResult.collapse r = 1
          /\ (RLEResult.rle_smoothed r
              <? 0.65 * py_max (RLEResult.rolling_peak r) 1e-6)%float = true
      | None => False
      end
  | Raise _ => False
  end.
Proof.
  destruct (session (lib := float_lib) default_args collapse_samples)
    as [tr|e] eqn:E.
  - destruct (nth_error tr 13) as [[r st]|] eqn:Hk.
    + pose proof (collapse_needs_gate_drop_evidence (lib := float_lib)
                    default_args _ tr ltac:(vm_compute; discriminate)
                    E 13 r st Hk) as H.
      run_session E. vm_compute in Hk. inversion Hk; subst r st; clear Hk.
      split; [reflexivity|].
      destruct (H eq_refl) as (x & _ & _ & _ & _ & _ & Hd & _). exact Hd.
    + run_session E. discriminate Hk.
  - run_session E.
Defined.

Lemma rolling_peak_dominates_witness :
  match session (lib := float_lib) default_args collapse_samples with
  | Ok tr =>
      match nth_error tr 9 with
      | Some (r, st) =>
          (RLEResult.rolling_peak r <? RLEResult.rle_smoothed r)%float = false
      | None => False
      end
  | Raise _ => False
  end.
Proof.
  destruct (session (lib := float_lib) default_args collapse_samples)
    as [tr|e] eqn:E.
  - destruct (nth_error tr 9) as [[r st]|] eqn:Hk.
    + apply (rolling_peak_dominates (lib := float_lib)
               default_args _ tr E 9 r st Hk).
      vm_compute. discriminate.
    + run_session E. discriminate Hk.
  - run_session E.
Defined.

(** A NaN utilization is recorded as 100. *)
Lemma util_hist_is_clamped_witness :
  match session (lib := float_lib) default_args
          [mkSample nan (Some 40%float) (Some 10%float) 1] with
  | Ok tr =>
      match nth_error tr 0 with
      | Some (r, st) => util_hist st = [100%float]
      | None => False
      end
  | Raise _ => False
  end.
Proof.
  destruct (session (lib := float_lib) default_args
              [mkSample nan (Some 40%float) (Some 10%float) 1])
    as [tr|e] eqn:E.
  - destruct (nth_error tr 0) as [[r st]|] eqn:Hk.
    + pose proof (util_hist_is_clamped (lib := float_lib)
                    default_args _ tr E 0 r st Hk) as [_ H].
      specialize (H _ eq_refl eq_refl).
      run_session E. vm_compute in Hk. inversion Hk; subst r st; clear Hk.
      reflexivity.
    + run_session E. discriminate Hk.
  - run_session E.
Defined.

Lemma first_result_stability_one_witness :
  match session (lib := float_lib) default_args (ramp_samples 3) with
  | Ok tr =>
      match nth_error tr 0 with
      | Some (r, st) => RLEResult.stability r = 1%float
      | None => False
      end
  | Raise _ => False
  end.
Proof.
  destruct (session (lib := float_lib) default_args (ramp_samples 3))
    as [tr|e] eqn:E.
  - destruct (nth_error tr 0) as [[r st]|] eqn:Hk.
    + exact (first_result_stability_one (lib := float_lib)
               default_args _ tr r st E Hk).
    + run_session E. discriminate Hk.
  - run_session E.
Defined.

(** Thirty-one samples without a temperature sensor: the sustain time
    stays at the maximum. *)
Lemma t_sustain_without_two_temperatures_witness :
  match session (lib := float_lib) default_args (firstn 31 huge_dt_samples) with
  | Ok tr =>
      match nth_error tr 30 with
      | Some (r, st) => RLEResult.t_sustain_s r = 600%float
      | None => False
      end
  | Raise _ => False
  end.
Proof.
  destruct (session (lib := float_lib) default_args (firstn 31 huge_dt_samples))
    as [tr|e] eqn:E.
  - destruct (nth_error tr 30) as [[r st]|] eqn:Hk.
    + apply (t_sustain_without_two_temperatures (lib := float_lib)
               default_args _ tr E 30 r st Hk).
      vm_compute. reflexivity.
    + run_session E. discriminate Hk.
  - run_session E.
Defined.

Lemma clock_disabled_outputs_zero_witness :
  match session (lib := float_lib) clock_off_args (ramp_samples 8) with
  | Ok tr =>
      match nth_error tr 7 with
      | Some (r, st) =>
          RLEResult.T0_s r = 0%float /\ RLEResult.theta_index r = 0%float
          /\ RLEResult.T_sustain_hat r = 0%float /\ RLEResult.theta_gap r = 0
          /\ _t0_s st = 60%float /\ _buf_rle_sm st = [] /\ _buf_temp st = []
      | None => False
      end
  | Raise _ => False
  end.
Proof.
  destruct (session (lib := float_lib) clock_off_args (ramp_samples 8))
    as [tr|e] eqn:E.
  - destruct (nth_error tr 7) as [[r st]|] eqn:Hk.
    + exact (clock_disabled_outputs_zero (lib := float_lib)
               clock_off_args _ tr eq_refl E 7 r st Hk).
    + run_session E. discriminate Hk.
  - run_session E.
Defined.

Lemma control_decision_monotone_witness :
  exists d1 d2,
    control_decision 0.3 None None init_state = Ok (d1, init_state)
    /\ control_decision 0.5 None None init_state = Ok (d2, init_state)
    /\ severity (ControlDecision.state d1) <= severity (ControlDecision.state d2).
Proof.
  apply (control_decision_monotone 0.3 0.5 None None init_state).
  reflexivity.
Defined.

Lemma rolling_window_is_local_witness :
  _rolling_mean [1; 2; 3; 4]%float 2 = _rolling_mean [3; 4]%float 2
  /\ _rolling_stdev (lib := float_lib) [1; 2; 3; 4]%float 2
     = _rolling_stdev (lib := float_lib) [3; 4]%float 2.
Proof.
  destruct (rolling_window_is_local (lib := float_lib)
              [1; 2]%float [3; 4]%float 2 eq_refl) as (_ & Hm & Hs).
  split; [apply Hm; lia|apply Hs; lia].
Defined.

(** On a fresh default engine a theta window of 5 periods is the cap of
    4 * 60 samples. *)
Lemma _theta_window_to_n_bounds_witness :
  match _theta_window_to_n default_args init_state 5 with
  | Ok n => 3 <= n
  | Raise _ => False
  end.
Proof.
  destruct (_theta_window_to_n default_args init_state 5) as [n|e] eqn:E.
  - exact (proj1 (_theta_window_to_n_bounds _ _ _ _ E)).
  - vm_compute in E. discriminate E.
Defined.

(** Sixty-one ramp samples: the sixtieth call resets the accumulated
    time. *)
Lemma period_updates_on_schedule_witness :
  match session (lib := float_lib) default_args (ramp_samples 61) with
  | Ok tr =>
      match nth_error tr 59, nth_error tr 58 with
      | Some (_, st), Some (_, before) =>
          _since_theta_update_s before = 59%float
          /\ _since_theta_update_s st = 0%float
      | _, _ => False
      end
  | Raise _ => False
  end.
Proof.
  destruct (session (lib := float_lib) default_args (ramp_samples 61))
    as [tr|e] eqn:E.
  - destruct (nth_error tr 59) as [[r st]|] eqn:Hk.
    + pose proof (period_updates_on_schedule (lib := float_lib)
                    default_args _ tr eq_refl E 59 r st Hk) as (x & Hx & H & _).
      run_session E. vm_compute in Hk. inversion Hk; subst r st; clear Hk.
      vm_compute in Hx. inversion Hx; subst x; clear Hx.
      vm_compute. split; reflexivity.
    + run_session E. discriminate Hk.
  - run_session E.
Defined.

(** ** The float instance meets the library assumptions *)

Lemma sqrt_not_negative (y : float) : (sqrt y <? 0)%float = false.
Proof.
  apply nonneg_not_below_zero. rewrite sqrt_spec.
  unfold SF64sqrt, SFsqrt.
  destruct (Prim2SF y) as [s|[|]| |[|] m e]; cbn [sf_nonneg]; auto.
  destruct (SFsqrt_core_binary prec emax _ _) as [[mz ez] lz].
  apply binary_round_aux_nonneg.
Qed.

Lemma float_lib_pstdev_returns : pstdev_returns (lib := float_lib).
Proof.
  intros l Hl. simpl. unfold pstdev_float.
  destruct l; [congruence|eauto].
Qed.

Lemma float_lib_pstdev_not_negative : pstdev_not_negative (lib := float_lib).
Proof.
  intros l v. simpl. unfold pstdev_float.
  destruct l; [discriminate|].
  intros H. injection H as <-. apply sqrt_not_negative.
Qed.

(** The session of [huge_dt_samples] ends with an [OverflowError] of an
    int conversion. *)
Lemma session_exceptions_witness :
  enable_theta_clock default_args = true
  /\ engine_error (lib := float_lib) OverflowError
  /\ ((forall x : float,
         py_pow (PyLib := float_lib) x 0.5 <> Raise ZeroDivisionError) ->
      OverflowError <> ZeroDivisionError).
Proof.
  apply (session_exceptions (lib := float_lib) default_args huge_dt_samples
           OverflowError float_lib_pstdev_returns float_lib_pstdev_not_negative
           eq_refl).
  vm_compute. reflexivity.
Defined.

(** The same samples on an engine without the clock: 32 results. *)
Lemma session_returns_without_clock_witness :
  exists tr,
    session (lib := float_lib) clock_off_args huge_dt_samples = Ok tr
    /\ List.length tr = List.length huge_dt_samples.
Proof.
  exact (session_returns_without_clock (lib := float_lib) clock_off_args
           huge_dt_samples float_lib_pstdev_returns
           float_lib_pstdev_not_negative eq_refl eq_refl).
Defined.

Lemma float_lib_pow_half_returns : pow_half_returns (lib := float_lib).
Proof.
  intros x Hx. simpl. unfold pow_float. rewrite Hx.
  exists (sqrt x). reflexivity.
Qed.

Lemma ramp_unit_intervals (n : nat) : unit_intervals (ramp_samples n).
Proof.
  unfold unit_intervals, ramp_samples. apply Forall_forall.
  intros x Hin. apply in_map_iff in Hin. destruct Hin as (i & <- & _).
  reflexivity.
Qed.

(** The default engine on 61 ramp samples, one second apart: the period
    is re-estimated at the last one, and the session returns 61 results. *)
Lemma session_returns_on_unit_intervals_witness :
  exists tr,
    session (lib := float_lib) default_args (ramp_samples 61) = Ok tr
    /\ List.length tr = List.length (ramp_samples 61).
Proof.
  exact (session_returns_on_unit_intervals (lib := float_lib) default_args
           (ramp_samples 61) float_lib_pstdev_returns
           float_lib_pstdev_not_negative float_lib_pow_half_returns
           eq_refl eq_refl eq_refl eq_refl (ramp_unit_intervals 61)).
Defined.

(** ** The float instance: square roots of numbers are numbers *)

Lemma SFsqrt_core_binary_nonneg m e :
  0 < m -> 0 <= fst (fst (SFsqrt_core_binary prec emax m e)).
Proof.
  intros Hm. unfold SFsqrt_core_binary. cbv zeta.
  set (s := e - 2 * Z.min (fexp prec emax (Z.div2 (Zdigits2 m + e + 1)))
                          (Z.div2 e)).
  set (m' := match s with
             | 0 => m
             | Zpos _ => Z.shiftl m s
             | Zneg _ => 0
             end).
  assert (Hm' : 0 <= m').
  { unfold m'. destruct s; try lia. apply Z.shiftl_nonneg. lia. }
  pose proof (Z.sqrtrem_spec m' Hm') as H.
  destruct (Z.sqrtrem m') as [q r]. cbn [fst]. lia.
Qed.

Lemma float_lib_pow_half_number : pow_half_number (lib := float_lib).
Proof.
  intros x r Hx. simpl. unfold pow_float.
  destruct (x <? 0)%float eqn:E; [discriminate|].
  change (0.5 =? 0.5)%float with true. cbv iota.
  intros H. injection H as <-.
  rewrite is_number_spec in *. rewrite sqrt_spec.
  rewrite ltb_spec, Prim2SF_zero in E.
  unfold SF64sqrt, SFsqrt.
  destruct (Prim2SF x) as [s|[|]| |[|] m e]; try discriminate; try congruence.
  pose proof (SFsqrt_core_binary_nonneg (Zpos m) e ltac:(lia)) as Hq.
  destruct (SFsqrt_core_binary prec emax (Zpos m) e) as [[mz ez] lz].
  cbn [fst] in Hq. apply binary_round_aux_not_nan. exact Hq.
Qed.

(** C4, witness: sixty-one ramp samples on the default engine; the
    sixtieth call re-estimates the period from 60 s to about 57.09 s,
    within 10 % of 60 and inside the default range. *)
Lemma C4_period_rate_limited_witness :
  match session (lib := float_lib) default_args (ramp_samples 61) with
  | Ok tr =>
      match nth_error tr 59 with
      | Some (r, st) =>
          let old := _t0_s (state_before init_state tr 59) in
          ((old * 0.90 <=? _t0_s st)%float = true
           /\ (_t0_s st <=? old * 1.10)%float = true)
          /\ ((5 <=? _t0_s st)%float = true
              /\ (_t0_s st <=? 600)%float = true)
      | None => False
      end
  | Raise _ => False
  end.
Proof.
  destruct (session (lib := float_lib) default_args (ramp_samples 61))
    as [tr|e] eqn:E.
  - destruct (nth_error tr 59) as [[r st]|] eqn:Hk.
    + pose proof (C4_period_rate_limited (lib := float_lib)
                    default_args _ tr E 59 r st Hk) as H.
      run_session E. vm_compute in Hk. inversion Hk; subst r st; clear Hk.
      cbv zeta in H. destruct H as (_ & Hrate & Hrange).
      split.
      * apply Hrate. vm_compute. reflexivity.
      * apply Hrange; [|exact float_lib_pow_half_number].
        unfold period_range_stable. repeat split; vm_compute; reflexivity.
    + run_session E. discriminate Hk.
  - run_session E.
Defined.

(** A range that contains 60 s but is not stable: [[5, 61]].  The
    smoothing step at the upper endpoint computes
    [0.8 * 61 + 0.2 * 61 = 61.000000000000007], and on
    [warming_samples], where every re-estimation proposes the candidate
    61, the period climbs from 60 towards 61 and is above [theta_max_s]
    after the 148th call. *)
Lemma period_exceeds_unstable_endpoint :
  ((1 - 0.2) * 61 + 0.2 * 61 <=? 61)%float = false
  /\ match session (lib := float_lib) tight_range_args (warming_samples 148)
     with
     | Ok tr =>
         match nth_error tr 147 with
         | Some (r, st) =>
             (theta_max_s (init_config tight_range_args) <? _t0_s st)%float
             && (_t0_s st =? 61.000000000000007)%float
         | None => false
         end
     | Raise _ => false
     end = true.
Proof. split; vm_compute; reflexivity. Qed.

(** The window 0 on a one-element history raises [ZeroDivisionError]. *)
Lemma _rolling_mean_raises_iff_witness :
  finite_float (Z2float 0)
  /\ _rolling_mean [] 0 = Ok 0%float
  /\ (_rolling_mean [1%float] 0 = Raise ZeroDivisionError
      <-> [1%float] <> [] /\ 0 = 0 /\ ZeroDivisionError = ZeroDivisionError).
Proof.
  apply (_rolling_mean_raises_iff [1%float] 0 ZeroDivisionError).
  reflexivity.
Defined.
